(** * mdremind: a shallow embedding of [main.go] and its verified properties

  The development follows the layout of the program:
  - [Strings], [regexp], [os], [filepath], [fsnotify]
                 the functions of the packages that the program calls
                 ([Strings] is capitalised to keep it apart from the
                 library of that name);
  - [time]       the interface of Go's [time] package as the program uses
                 it, and [GoTime], a model of the package on numeric
                 layouts, with zones given by their tables of transitions;
  - the program: [parseReminderEntries], [findMarkdownFiles],
                 [watchDirRecursive], [loadReminders], [remindLoop] and the
                 event loop of [main];
  - what the walks and the load compute, written by recursion on the file
                 tree, and sample data;
  - the properties: of the extraction of entries, the scheduler, the
                 event loop and its timers, the entry pattern, the walks
                 and the load.

  How the effects of the program are modelled:
  - the file system is a tree, an argument of what reads it, and with it
    comes what the system refuses to watch; over a run it is a function of
    time;
  - the lines logged are values of [LogEntry], kept in order;
  - [log.Fatalf] ends the process: a function that may call it returns no
    result, and the process is [Exited];
  - [time.Now] is a sequence of readings, one for each call;
  - the timers of [eventTimers] are their deadlines on a clock in
    nanoseconds; an event is handled after the timers due by its instant
    have fired, each firing being one step;
  - the goroutine of [remindLoop] sees a value of [reminders] at its start
    and one at each tick. *)

From Stdlib Require Import ZArith Ascii String DecimalString.
From stdpp Require Import gmap strings list fin_maps sorting.

Local Open Scope Z_scope.
Set Warnings "-register-all".

(* ===================================================================== *)
(** ** Strings: [strings.TrimSpace], [strings.Split], [strings.HasSuffix] *)
(* ===================================================================== *)

Module Strings.

(** A text is the sequence of its bytes, in UTF-8. The white space of
    [unicode.IsSpace] of one byte: tab, line feed, vertical tab, form feed,
    carriage return, space. *)
Definition isSpace (c : ascii) : bool :=
  match c with
  | "009" | "010" | "011" | "012" | "013" | " " => true
  | _ => false
  end%char.

(** The white space of [unicode.IsSpace] of two bytes, U+0085 and U+00A0,
    and of three bytes: U+1680, U+2000 to U+200A, U+2028, U+2029, U+202F,
    U+205F and U+3000. *)
Definition isSpace2 (c d : ascii) : bool :=
  Ascii.eqb c "194" && (Ascii.eqb d "133" || Ascii.eqb d "160").

Definition isSpace3 (c d e : ascii) : bool :=
  (Ascii.eqb c "225" && Ascii.eqb d "154" && Ascii.eqb e "128")
  || (Ascii.eqb c "226" && Ascii.eqb d "128"
      && ((Ascii.leb "128" e && Ascii.leb e "138")
          || Ascii.eqb e "168" || Ascii.eqb e "169" || Ascii.eqb e "175"))
  || (Ascii.eqb c "226" && Ascii.eqb d "129" && Ascii.eqb e "159")
  || (Ascii.eqb c "227" && Ascii.eqb d "128" && Ascii.eqb e "128").

(** The white space at the head of a text is dropped, character by
    character; the text is read backwards when [back], its bytes coming
    last first. A byte that starts no white space ends the run, whether
    it starts another character or none. *)
Fixpoint trim (back : bool) (s : string) : string :=
  match s with
  | EmptyString => EmptyString
  | String c s1 =>
      if isSpace c then trim back s1
      else
        match s1 with
        | String d s2 =>
            if (if back then isSpace2 d c else isSpace2 c d) then trim back s2
            else
              match s2 with
              | String e s3 =>
                  if (if back then isSpace3 e d c else isSpace3 c d e)
                  then trim back s3 else s
              | EmptyString => s
              end
        | EmptyString => s
        end
  end.

(** [strings.TrimLeftFunc] and [strings.TrimRightFunc] with
    [unicode.IsSpace]. The last character of a text is decoded from the
    last byte that starts one, so a text ends in white space exactly when
    it ends in the bytes of a white space. *)
Definition TrimLeft (s : string) : string := trim false s.

Definition TrimRight (s : string) : string :=
  String.rev (trim true (String.rev s)).

(** [strings.TrimSpace]. *)
Definition TrimSpace (s : string) : string := TrimRight (TrimLeft s).

(** [strings.Split(s, sep)] for a separator of one character: one field
    more than there are separators. *)
Fixpoint Split (s : string) (sep : ascii) : list string :=
  match s with
  | EmptyString => [EmptyString]
  | String c s' =>
      if Ascii.eqb c sep then EmptyString :: Split s' sep
      else match Split s' sep with
           | h :: t => String c h :: t
           | [] => [String c EmptyString]
           end
  end.

(** [strings.HasSuffix]. *)
Definition HasSuffix (s suffix : string) : bool :=
  String.prefix (String.rev suffix) (String.rev s).

(** [strings.HasPrefix], [strings.ContainsRune] for a character of one
    byte, [strings.Contains] and [strings.Repeat] of a character. The
    program does not call them: the properties of the entry pattern are
    stated with them. *)
Definition HasPrefix (s prefix : string) : bool := String.prefix prefix s.

Fixpoint ContainsRune (s : string) (r : ascii) : bool :=
  match s with
  | EmptyString => false
  | String c s' => Ascii.eqb c r || ContainsRune s' r
  end.

Fixpoint Contains (s substr : string) : bool :=
  String.prefix substr s
  || match s with
     | EmptyString => false
     | String _ s' => Contains s' substr
     end.

Fixpoint Repeat (c : ascii) (count : nat) : string :=
  match count with
  | O => EmptyString
  | S n => String c (Repeat c n)
  end.

(** The bytes that start a white space. *)
Definition lead (x : ascii) : bool :=
  isSpace x || Ascii.eqb x "194" || Ascii.eqb x "225"
  || Ascii.eqb x "226" || Ascii.eqb x "227".

(** The white space of [unicode.IsSpace], each character as a text. *)
Definition whiteSpace : list string :=
  map (fun c => String c EmptyString)
    ["009"; "010"; "011"; "012"; "013"; " "]%char
  ++ map (fun d => String "194" (String d EmptyString)) ["133"; "160"]%char
  ++ [String "225" (String "154" (String "128" EmptyString))]
  ++ map (fun e => String "226" (String "128" (String e EmptyString)))
       ["128"; "129"; "130"; "131"; "132"; "133"; "134"; "135"; "136"; "137";
        "138"; "168"; "169"; "175"]%char
  ++ [String "226" (String "129" (String "159" EmptyString));
      String "227" (String "128" (String "128" EmptyString))].

(** A text of white space only: characters of [whiteSpace], one after the
    other. *)
Inductive allSpace : string -> Prop :=
| allSpace_nil : allSpace EmptyString
| allSpace_cons (w s : string) :
    In w whiteSpace -> allSpace s -> allSpace (w +:+ s).

End Strings.

(* ===================================================================== *)
(** ** regexp: compiled patterns and [FindAllSubmatch] *)
(* ===================================================================== *)

Module regexp.

(** One-character classes of the pattern. [AnyNotNL] is [.], which without
    the [s] flag does not match a line feed. *)
Inductive class := OneOf (c : ascii) | AnyNotNL.

Definition class_matches (k : class) (c : ascii) : bool :=
  match k with
  | OneOf d => Ascii.eqb c d
  | AnyNotNL => negb (Ascii.eqb c "010")
  end.

(** The instructions of a compiled pattern, in the fragment the entry
    pattern needs: a literal character, a greedy or lazy repetition of a
    class, the multi-line anchors [^] and [$], and a capture slot. Slots
    are numbered as in Go: group [i] starts at slot [2i] and ends at slot
    [2i+1]; slots 0 and 1 delimit the whole match. *)
Inductive inst :=
| Char (c : ascii)
| Star (greedy : bool) (k : class)
| BeginLine
| EndLine
| Cap (slot : nat).

Definition slots := list (nat * nat).

Fixpoint slot (i : nat) (cs : slots) : nat :=
  match cs with
  | [] => O
  | (j, p) :: cs' => if Nat.eqb i j then p else slot i cs'
  end.

Section Matcher.
(** The remainder of the pattern, run at a position: the character
    before it, its offset, and the text from it on. *)
Variable rest : option ascii -> nat -> string -> option slots.

(** [x*]: as many as possible first, then fewer. *)
Fixpoint star_greedy (k : class) (prev : option ascii) (pos : nat) (s : string)
  : option slots :=
  match s with
  | String c s' =>
      if class_matches k c then
        match star_greedy k (Some c) (S pos) s' with
        | Some r => Some r
        | None => rest prev pos s
        end
      else rest prev pos s
  | EmptyString => rest prev pos s
  end.

(** [x*?]: as few as possible first, then more. *)
Fixpoint star_lazy (k : class) (prev : option ascii) (pos : nat) (s : string)
  : option slots :=
  match rest prev pos s with
  | Some r => Some r
  | None =>
      match s with
      | String c s' =>
          if class_matches k c then star_lazy k (Some c) (S pos) s' else None
      | EmptyString => None
      end
  end.
End Matcher.

Definition at_bol (prev : option ascii) : bool :=
  match prev with
  | None => true
  | Some c => Ascii.eqb c "010"
  end.

Definition at_eol (s : string) : bool :=
  match s with
  | EmptyString => true
  | String c _ => Ascii.eqb c "010"
  end.

(** The leftmost-first match of a pattern anchored at a position: the
    alternatives of every repetition are tried in the order of their
    priority and the first complete match wins. *)
Fixpoint run (p : list inst) (cs : slots) (prev : option ascii) (pos : nat)
    (s : string) : option slots :=
  match p with
  | [] => Some ((1%nat, pos) :: cs)
  | Char c :: p' =>
      match s with
      | String d s' => if Ascii.eqb d c then run p' cs (Some d) (S pos) s' else None
      | EmptyString => None
      end
  | Star true k :: p' => star_greedy (run p' cs) k prev pos s
  | Star false k :: p' => star_lazy (run p' cs) k prev pos s
  | BeginLine :: p' => if at_bol prev then run p' cs prev pos s else None
  | EndLine :: p' => if at_eol s then run p' cs prev pos s else None
  | Cap i :: p' => run p' ((i, pos) :: cs) prev pos s
  end.

Fixpoint lit (s : string) : list inst :=
  match s with
  | EmptyString => []
  | String c s' => Char c :: lit s'
  end.

(** The successive non-overlapping matches, leftmost first. [skip] counts
    the characters still covered by the previous match. After an empty
    match the search moves on by one character. *)
Fixpoint matches_from (p : list inst) (prev : option ascii) (pos skip : nat)
    (s : string) : list slots :=
  let here :=
    match skip with
    | O => run p [(O, pos)] prev pos s
    | S _ => None
    end in
  match s with
  | EmptyString =>
      match here with
      | Some cs => [cs]
      | None => []
      end
  | String c s' =>
      match here with
      | Some cs => cs :: matches_from p (Some c) (S pos) (slot 1 cs - pos - 1) s'
      | None => matches_from p (Some c) (S pos) (skip - 1) s'
      end
  end.

(** The text of group [i] of a match. *)
Definition group (text : string) (cs : slots) (i : nat) : string :=
  String.substring (slot (2 * i) cs) (slot (2 * i + 1) cs - slot (2 * i) cs) text.

(** [re.FindAllSubmatch(text, -1)]: for every match the texts of the
    groups 0, 1, 2, ... *)
Definition FindAllSubmatch (p : list inst) (ngroups : nat) (text : string)
  : list (list string) :=
  map (fun cs => map (group text cs) (seq 0 (S ngroups)))
      (matches_from p None O O text).

(** An instruction that cannot match a line feed. A pattern made of such
    instructions matches within one line. *)
Definition lineInst (i : inst) : bool :=
  match i with
  | Char c => negb (Ascii.eqb c "010")
  | Star _ (OneOf c) => negb (Ascii.eqb c "010")
  | _ => true
  end.

(** The capture slots of a pattern, in the order it sets them. *)
Fixpoint caps (p : list inst) : list nat :=
  match p with
  | [] => []
  | Cap i :: p' => i :: caps p'
  | _ :: p' => caps p'
  end.

(** The slots of a match, moved by [n] positions. *)
Definition shift (n : nat) (cs : slots) : slots :=
  map (fun x => (x.1, (n + x.2)%nat)) cs.

(** A text all of whose characters are in a class. *)
Definition matchesAll (k : class) (a : string) : Prop :=
  Forall (fun c => class_matches k c = true) (list_ascii_of_string a).

End regexp.

(* ===================================================================== *)
(** ** os: the file tree, [os.Stat], [os.ReadFile] *)
(* ===================================================================== *)

Module os.

(** The entries of a file tree. A file whose contents are [None] cannot be
    read ([os.ReadFile] fails); a directory that is not [readable] cannot be
    listed ([os.ReadDir] fails). The entries of a directory come in the
    order of [os.ReadDir], sorted by name. *)
Inductive node :=
| File (name : string) (contents : option string)
| Dir (name : string) (readable : bool) (entries : list node).

Definition Name (n : node) : string :=
  match n with
  | File name _ => name
  | Dir name _ _ => name
  end.

Definition IsDir (n : node) : bool :=
  match n with
  | File _ _ => false
  | Dir _ _ _ => true
  end.

(** A file system: the tree [top] found at the path [mount]; no other path
    exists. With it comes what the system lets the process watch:
    [noWatcher] holds when it has no watcher to give
    ([fsnotify.NewWatcher] fails), and [unwatchable] are the paths that it
    refuses to watch ([Watcher.Add] fails: no permission, no watch left). *)
Record FS := {
  mount : string;
  top : node;
  noWatcher : bool;
  unwatchable : gset string
}.

(** The node at the path [target], searched from the node [n] at [path]. *)
Fixpoint lookup (path : string) (n : node) (target : string) : option node :=
  if String.eqb path target then Some n
  else
    match n with
    | File _ _ => None
    | Dir _ _ entries =>
        (fix first (l : list node) : option node :=
           match l with
           | [] => None
           | c :: l' =>
               match lookup (path +:+ "/" +:+ Name c) c target with
               | Some r => Some r
               | None => first l'
               end
           end) entries
    end.

(** [os.Stat] and [os.Lstat] (the tree has no symbolic links); [None] is
    the error. *)
Definition Stat (fs : FS) (name : string) : option node :=
  lookup (mount fs) (top fs) name.

(** [os.ReadFile]; [None] is the error. *)
Definition ReadFile (fs : FS) (name : string) : option string :=
  match Stat fs name with
  | Some (File _ (Some contents)) => Some contents
  | _ => None
  end.

End os.

(* ===================================================================== *)
(** ** filepath: [filepath.Ext], [filepath.Join], [filepath.WalkDir] *)
(* ===================================================================== *)

Module filepath.

(** [filepath.Ext]: the loop runs from the last character towards the
    first, stops at a path separator and returns the text from the first
    dot it meets. [ext_scan] runs on the reversed path; [acc] is the text
    already passed. *)
Fixpoint ext_scan (r acc : string) : string :=
  match r with
  | EmptyString => EmptyString
  | String c r' =>
      if Ascii.eqb c "/" then EmptyString
      else if Ascii.eqb c "." then String c acc
      else ext_scan r' (String c acc)
  end.

Definition Ext (path : string) : string :=
  ext_scan (String.rev path) EmptyString.

(** [filepath.Join(dir, name)] for a clean directory path other than the
    root and a single element [name], as [filepath.WalkDir] calls it. *)
Definition Join (dir name : string) : string := dir +:+ "/" +:+ name.

(** What a [fs.WalkDirFunc] returns besides [nil]. *)
Inductive error := SkipDir | Err.

Section WalkDir.
Context {S : Type}.

(** The callback: the path, the entry ([None] when [os.Lstat] of the root
    failed), whether [err != nil], and the state the closure works on. *)
Variable fn : string -> option os.node -> bool -> S -> S * option error.

(** [walkDir]: the callback on the entry itself; for a directory the
    listing, a second call of the callback when the listing fails, and the
    entries in order. [SkipDir] from the callback on a directory skips it;
    from an entry it ends the listing it is in. *)
Fixpoint walkDir (path : string) (d : os.node) (st : S) : S * option error :=
  match d with
  | os.File _ _ => fn path (Some d) false st
  | os.Dir _ readable entries =>
      match fn path (Some d) false st with
      | (st1, Some SkipDir) => (st1, None)
      | (st1, Some Err) => (st1, Some Err)
      | (st1, None) =>
          if readable then
            (fix each (l : list os.node) (st : S) : S * option error :=
               match l with
               | [] => (st, None)
               | d1 :: l' =>
                   match walkDir (Join path (os.Name d1)) d1 st with
                   | (st', None) => each l' st'
                   | (st', Some SkipDir) => (st', None)
                   | (st', Some Err) => (st', Some Err)
                   end
               end) entries st1
          else
            match fn path (Some d) true st1 with
            | (st2, Some Err) => (st2, Some Err)
            | (st2, _) => (st2, None)
            end
      end
  end.

(** [filepath.WalkDir]; the result is whether it returned an error. *)
Definition WalkDir (fs : os.FS) (root : string) (st : S) : S * bool :=
  let '(st', err) :=
    match os.Stat fs root with
    | None => fn root None true st
    | Some d => walkDir root d st
    end in
  (st', match err with Some Err => true | _ => false end).

End WalkDir.

Section WalkEntries.
Context {S : Type}.
Variable fn : string -> option os.node -> bool -> S -> S * option error.

(** The loop of [walkDir] over the entries of a directory, by itself. *)
Fixpoint walkEntries (path : string) (l : list os.node) (st : S) : S * option error :=
  match l with
  | [] => (st, None)
  | d1 :: l' =>
      match walkDir fn (Join path (os.Name d1)) d1 st with
      | (st', None) => walkEntries path l' st'
      | (st', Some SkipDir) => (st', None)
      | (st', Some Err) => (st', Some Err)
      end
  end.

End WalkEntries.

End filepath.

(* ===================================================================== *)
(** ** The interface of the [time] package *)
(* ===================================================================== *)

(** What the program asks of Go's [time] package: [Time.Compare],
    [Time.In], [Time.Format] and [time.ParseInLocation], whose error is
    [None]. The program is written against this interface; [GoTime] below
    is an instance. *)
Module time.

Class Lib := {
  Time : Type;
  Location : Type;
  Compare : Time -> Time -> Z;
  In : Time -> Location -> Time;
  Format : Time -> string -> string;
  ParseInLocation : string -> string -> Location -> option Time
}.

End time.

(* ===================================================================== *)
(** ** GoTime: the [time] package on numeric layouts *)
(* ===================================================================== *)

Module GoTime.

(** A location is the table of its zone: [zoffset], in seconds east of UTC,
    is the offset in use before the first transition, and [ztx] lists the
    transitions in the order of their instants, each with the offset in use
    from then on. A zone of fixed offset ([time.FixedZone], [time.UTC]) has
    no transition; [time.Local] and the result of [time.LoadLocation] have
    the transitions of their zone file, the rule that extends the file
    beyond its last transition being written out in the table. *)
Record Location := { zname : string; zoffset : Z; ztx : list (Z * Z) }.

(** An instant, as seconds and nanoseconds since the Unix epoch, and the
    location it is presented in. Go's 64-bit range is not modelled. *)
Record Time := { unix : Z; nsec : Z; loc : Location }.

(** [time.FixedZone] and [time.UTC]. *)
Definition FixedZone (name : string) (offset : Z) : Location :=
  {| zname := name; zoffset := offset; ztx := [] |}.

Definition UTC : Location := FixedZone "UTC" 0.

(** [Location.lookup]: the offset in use at the instant [sec], with the
    instants at which that use starts and ends; [None] is no bound. The
    search keeps the offset of the last transition at or before [sec]. *)
Fixpoint lookupFrom (offset : Z) (start : option Z) (tx : list (Z * Z)) (sec : Z)
  : Z * option Z * option Z :=
  match tx with
  | [] => (offset, start, None)
  | (at_, offset') :: tx' =>
      if sec <? at_ then (offset, start, Some at_)
      else lookupFrom offset' (Some at_) tx' sec
  end.

Definition lookup (l : Location) (sec : Z) : Z * option Z * option Z :=
  lookupFrom (zoffset l) None (ztx l) sec.

Definition offsetAt (l : Location) (sec : Z) : Z := (lookup l sec).1.1.

(** [utc < start || utc >= end] for the bounds of a [lookup]. *)
Definition outside (utc : Z) (start end_ : option Z) : bool :=
  match start with Some s => utc <? s | None => false end
  || match end_ with Some e => e <=? utc | None => false end.

(** The offset that [time.Date] takes off the seconds [abs] of a wall
    clock: the offset in use at [abs] read as an instant, when it is still
    in use at the instant it gives, and else the offset in use at that
    instant. *)
Definition dateOffset (l : Location) (abs : Z) : Z :=
  let '(offset, start, end_) := lookup l abs in
  if offset =? 0 then 0
  else
    let utc := abs - offset in
    if outside utc start end_ then offsetAt l utc else offset.



Definition secondsPerMinute : Z := 60.
Definition secondsPerHour : Z := 3600.
Definition secondsPerDay : Z := 86400.

Definition isLeap (year : Z) : bool :=
  (year mod 4 =? 0) && (negb (year mod 100 =? 0) || (year mod 400 =? 0)).

(** [daysBefore[m]]: the days of a non-leap year before month [m+1]. *)
Definition daysBefore (m : Z) : Z :=
  nth (Z.to_nat m) [0; 31; 59; 90; 120; 151; 181; 212; 243; 273; 304; 334; 365] 0.

Definition daysIn (m year : Z) : Z :=
  if (m =? 2) && isLeap year then 29 else daysBefore m - daysBefore (m - 1).

(** Days from 1970-01-01 to the first of January of [year]. *)
Definition daysSinceEpoch (year : Z) : Z :=
  let y := year - 1 in
  365 * y + y / 4 - y / 100 + y / 400 - 719162.

(** [norm hi lo base]: carry [lo] into [hi] so that [0 <= lo < base]. *)
Definition norm (hi lo base : Z) : Z * Z := (hi + lo / base, lo mod base).

(** The first part of [time.Date]: the values are brought into their
    ranges and counted as the seconds of a wall clock since the epoch;
    the nanoseconds are the second component. *)
Definition dateSeconds (year month day hour min sec nsec : Z) : Z * Z :=
  let '(year, m) := norm year (month - 1) 12 in
  let month := m + 1 in
  let '(sec, nsec) := norm sec nsec 1000000000 in
  let '(min, sec) := norm min sec 60 in
  let '(hour, min) := norm hour min 60 in
  let '(day, hour) := norm day hour 24 in
  let d := daysSinceEpoch year + daysBefore (month - 1)
           + (if isLeap year && (3 <=? month) then 1 else 0) + (day - 1) in
  (d * secondsPerDay + hour * secondsPerHour + min * secondsPerMinute + sec, nsec).

(** [time.Date]: the seconds of the wall clock, less the offset of
    [dateOffset]. *)
Definition Date (year month day hour min sec nsec : Z) (l : Location) : Time :=
  let '(abs, nsec) := dateSeconds year month day hour min sec nsec in
  {| unix := abs - dateOffset l abs; nsec := nsec; loc := l |}.

(** The seconds since the epoch of the wall clock of [t] in its location. *)
Definition abs (t : Time) : Z := unix t + offsetAt (loc t) (unix t).

Definition Hour (t : Time) : Z := (abs t mod secondsPerDay) / secondsPerHour.
Definition Minute (t : Time) : Z := (abs t mod secondsPerHour) / secondsPerMinute.

(** [absDate]: year, month and day of a day count, by the cycles of 400,
    100, 4 and 1 years. *)
Definition absDate (days : Z) : Z * Z * Z :=
  let d := days + 719162 in
  let n400 := d / 146097 in
  let d := d - 146097 * n400 in
  let n100 := d / 36524 in
  let n100 := n100 - n100 / 4 in
  let d := d - 36524 * n100 in
  let n4 := d / 1461 in
  let d := d - 1461 * n4 in
  let n := d / 365 in
  let n := n - n / 4 in
  let d := d - 365 * n in
  let year := 400 * n400 + 100 * n100 + 4 * n4 + n + 1 in
  let leap := isLeap year in
  if leap && (d =? 31 + 29 - 1) then (year, 2, 29)
  else
    let day := if leap && (31 + 29 - 1 <? d) then d - 1 else d in
    let month := day / 31 in
    let e := daysBefore (month + 1) in
    let '(month, begin) :=
      if e <=? day then (month + 1, e) else (month, daysBefore month) in
    (year, month + 1, day - begin + 1).

Definition Year (t : Time) : Z := (absDate (abs t / secondsPerDay)).1.1.
Definition Month (t : Time) : Z := (absDate (abs t / secondsPerDay)).1.2.
Definition Day (t : Time) : Z := (absDate (abs t / secondsPerDay)).2.

(** [Time.Compare]: by instant. Times built by [Date] and parsed times
    carry no monotonic clock reading. *)
Definition Compare (t u : Time) : Z :=
  let '(tc, uc) :=
    if unix t =? unix u then (nsec t, nsec u) else (unix t, unix u) in
  if tc <? uc then -1 else if uc <? tc then 1 else 0.

(** [Time.In]: the same instant, presented in another location. *)
Definition In (t : Time) (l : Location) : Time :=
  {| unix := unix t; nsec := nsec t; loc := l |}.

(** *** Layouts *)

(** The layout elements of the model. [nextStdChunk] knows more: month and
    weekday names, two-digit years, seconds and their fractions, the
    day of the year, [_2], [pm] and the zone elements. A layout that
    contains one of those is [Unsupported]: the model gives it no meaning. *)
Inductive std :=
| stdLongYear | stdZeroMonth | stdNumMonth | stdZeroDay | stdDay
| stdHour | stdHour12 | stdZeroHour12 | stdMinute | stdZeroMinute | stdPM.

Inductive chunk :=
| Lit (c : ascii)
| Std (s : std)
| Unsupported.

Definition isDigit (c : ascii) : bool :=
  (Ascii.leb "0" c) && (Ascii.leb c "9").

(** [startsWithLowerCase], and [isDigit] of the first character. *)
Definition startsWithLowerCase (s : string) : bool :=
  match s with
  | String c _ => Ascii.leb "a" c && Ascii.leb c "z"
  | EmptyString => false
  end.

Definition startsWithDigit (s : string) : bool :=
  match s with
  | String c _ => isDigit c
  | EmptyString => false
  end.

(** The text after the first [n] characters. *)
Fixpoint from (n : nat) (s : string) : string :=
  match n, s with
  | O, _ => s
  | S k, String _ r => from k r
  | S _, EmptyString => EmptyString
  end.

(** The length of the run of the character [ch] at the head of [s], and
    the text after it. *)
Fixpoint runOf (ch : ascii) (s : string) : nat * string :=
  match s with
  | String c r =>
      if Ascii.eqb c ch then let '(n, rest) := runOf ch r in (S n, rest)
      else (O, s)
  | EmptyString => (O, EmptyString)
  end.

(** The element that starts at the head of [l], with its length, as the
    cases of [nextStdChunk] find it; [None] when the character is a
    literal. The names of months and weekdays are elements unless a small
    letter follows; [_2006] is a literal [_] before the year; a point or a
    comma before a run of [0] or of [9] is the fraction of a second unless
    a digit follows the run. *)
Definition stdAt (l : string) : option (chunk * nat) :=
  match l with
  | String c r =>
      if Ascii.eqb c "J" then
        if String.prefix "anuary" r then Some (Unsupported, 7%nat)
        else if String.prefix "an" r && negb (startsWithLowerCase (from 2 r))
        then Some (Unsupported, 3%nat) else None
      else if Ascii.eqb c "M" then
        if String.prefix "onday" r then Some (Unsupported, 6%nat)
        else if String.prefix "on" r && negb (startsWithLowerCase (from 2 r))
        then Some (Unsupported, 3%nat)
        else if String.prefix "ST" r then Some (Unsupported, 3%nat) else None
      else if Ascii.eqb c "0" then
        if String.prefix "1" r then Some (Std stdZeroMonth, 2%nat)
        else if String.prefix "2" r then Some (Std stdZeroDay, 2%nat)
        else if String.prefix "3" r then Some (Std stdZeroHour12, 2%nat)
        else if String.prefix "4" r then Some (Std stdZeroMinute, 2%nat)
        else if String.prefix "5" r || String.prefix "6" r
        then Some (Unsupported, 2%nat)
        else if String.prefix "02" r then Some (Unsupported, 3%nat) else None
      else if Ascii.eqb c "1" then
        if String.prefix "5" r then Some (Std stdHour, 2%nat)
        else Some (Std stdNumMonth, 1%nat)
      else if Ascii.eqb c "2" then
        if String.prefix "006" r then Some (Std stdLongYear, 4%nat)
        else Some (Std stdDay, 1%nat)
      else if Ascii.eqb c "_" then
        if String.prefix "2" r then
          if String.prefix "2006" r then None else Some (Unsupported, 2%nat)
        else if String.prefix "_2" r then Some (Unsupported, 3%nat) else None
      else if Ascii.eqb c "3" then Some (Std stdHour12, 1%nat)
      else if Ascii.eqb c "4" then Some (Std stdMinute, 1%nat)
      else if Ascii.eqb c "5" then Some (Unsupported, 1%nat)
      else if Ascii.eqb c "P" then
        if String.prefix "M" r then Some (Std stdPM, 2%nat) else None
      else if Ascii.eqb c "p" then
        if String.prefix "m" r then Some (Unsupported, 2%nat) else None
      else if Ascii.eqb c "-" || Ascii.eqb c "Z" then
        if String.prefix "070000" r then Some (Unsupported, 7%nat)
        else if String.prefix "07:00:00" r then Some (Unsupported, 9%nat)
        else if String.prefix "0700" r then Some (Unsupported, 5%nat)
        else if String.prefix "07:00" r then Some (Unsupported, 6%nat)
        else if String.prefix "07" r then Some (Unsupported, 3%nat) else None
      else if Ascii.eqb c "." || Ascii.eqb c "," then
        match r with
        | String ch _ =>
            if Ascii.eqb ch "0" || Ascii.eqb ch "9" then
              let '(n, rest) := runOf ch r in
              if startsWithDigit rest then None else Some (Unsupported, S n)
            else None
        | EmptyString => None
        end
      else None
  | EmptyString => None
  end.

(** The layout cut into its elements, as repeated calls of [nextStdChunk]
    cut it; [skip] counts the characters that belong to the element found
    last. *)
Fixpoint chunks_from (skip : nat) (l : string) : list chunk :=
  match l with
  | EmptyString => []
  | String c r =>
      match skip with
      | S k => chunks_from k r
      | O =>
          match stdAt l with
          | Some (ch, n) => ch :: chunks_from (n - 1) r
          | None => Lit c :: chunks_from O r
          end
      end
  end.

Definition chunks (layout : string) : list chunk := chunks_from O layout.

Definition supported (cs : list chunk) : bool :=
  forallb (fun c => match c with Unsupported => false | _ => true end) cs.

(** *** Formatting *)

Fixpoint zeros (n : nat) : string :=
  match n with
  | O => EmptyString
  | S k => String "0" (zeros k)
  end.

(** [appendInt]: the decimal form of [x], padded with zeros to [width]
    digits, after a minus sign when [x] is negative. *)
Definition appendInt (x : Z) (width : nat) : string :=
  let ds := NilZero.string_of_uint (N.to_uint (Z.abs_N x)) in
  (if x <? 0 then "-" else "") +:+ zeros (width - String.length ds) +:+ ds.

Definition hour12 (hour : Z) : Z :=
  let hr := hour mod 12 in if hr =? 0 then 12 else hr.

Definition formatStd (s : std) (t : Time) : string :=
  match s with
  | stdLongYear => appendInt (Year t) 4
  | stdZeroMonth => appendInt (Month t) 2
  | stdNumMonth => appendInt (Month t) 0
  | stdZeroDay => appendInt (Day t) 2
  | stdDay => appendInt (Day t) 0
  | stdHour => appendInt (Hour t) 2
  | stdHour12 => appendInt (hour12 (Hour t)) 0
  | stdZeroHour12 => appendInt (hour12 (Hour t)) 2
  | stdMinute => appendInt (Minute t) 0
  | stdZeroMinute => appendInt (Minute t) 2
  | stdPM => if 12 <=? Hour t then "PM" else "AM"
  end.

Fixpoint formatChunks (cs : list chunk) (t : Time) : string :=
  match cs with
  | [] => EmptyString
  | Lit c :: cs' => String c (formatChunks cs' t)
  | Std s :: cs' => formatStd s t +:+ formatChunks cs' t
  | Unsupported :: cs' => formatChunks cs' t
  end.

(** [Time.Format]. *)
Definition Format (t : Time) (layout : string) : string :=
  let cs := chunks layout in
  if supported cs then formatChunks cs t else EmptyString.

(** *** Parsing *)

Definition digit (c : ascii) : Z := Z.of_nat (nat_of_ascii c) - 48.

(** [getnum]: a number of one or two digits, of exactly two when [fixed]. *)
Definition getnum (s : string) (fixed : bool) : option (Z * string) :=
  match s with
  | String a r =>
      if isDigit a then
        match r with
        | String b r' =>
            if isDigit b then Some (digit a * 10 + digit b, r')
            else if fixed then None else Some (digit a, r)
        | EmptyString => if fixed then None else Some (digit a, r)
        end
      else None
  | EmptyString => None
  end.

Fixpoint cutspace (s : string) : string :=
  match s with
  | String c r => if Ascii.eqb c " " then cutspace r else s
  | EmptyString => EmptyString
  end.

(** The time under construction in [parse]. *)
Record fields := {
  f_year : Z; f_month : Z; f_day : Z; f_hour : Z; f_min : Z;
  f_pmSet : bool; f_amSet : bool
}.

Definition fields0 : fields :=
  {| f_year := 0; f_month := -1; f_day := -1; f_hour := 0; f_min := 0;
     f_pmSet := false; f_amSet := false |}.

Definition parseStd (s : std) (value : string) (f : fields)
  : option (fields * string) :=
  match s with
  | stdLongYear =>
      match value with
      | String a (String b (String c (String d r))) =>
          if isDigit a && isDigit b && isDigit c && isDigit d then
            Some ({| f_year := ((digit a * 10 + digit b) * 10 + digit c) * 10 + digit d;
                     f_month := f_month f; f_day := f_day f; f_hour := f_hour f;
                     f_min := f_min f; f_pmSet := f_pmSet f; f_amSet := f_amSet f |}, r)
          else None
      | _ => None
      end
  | stdNumMonth | stdZeroMonth =>
      match getnum value (match s with stdZeroMonth => true | _ => false end) with
      | Some (m, r) =>
          if (m <=? 0) || (12 <? m) then None
          else Some ({| f_year := f_year f; f_month := m; f_day := f_day f;
                        f_hour := f_hour f; f_min := f_min f;
                        f_pmSet := f_pmSet f; f_amSet := f_amSet f |}, r)
      | None => None
      end
  | stdDay | stdZeroDay =>
      match getnum value (match s with stdZeroDay => true | _ => false end) with
      | Some (d, r) =>
          Some ({| f_year := f_year f; f_month := f_month f; f_day := d;
                   f_hour := f_hour f; f_min := f_min f;
                   f_pmSet := f_pmSet f; f_amSet := f_amSet f |}, r)
      | None => None
      end
  | stdHour =>
      match getnum value false with
      | Some (h, r) =>
          if (h <? 0) || (24 <=? h) then None
          else Some ({| f_year := f_year f; f_month := f_month f; f_day := f_day f;
                        f_hour := h; f_min := f_min f;
                        f_pmSet := f_pmSet f; f_amSet := f_amSet f |}, r)
      | None => None
      end
  | stdHour12 | stdZeroHour12 =>
      match getnum value (match s with stdZeroHour12 => true | _ => false end) with
      | Some (h, r) =>
          if (h <? 0) || (12 <? h) then None
          else Some ({| f_year := f_year f; f_month := f_month f; f_day := f_day f;
                        f_hour := h; f_min := f_min f;
                        f_pmSet := f_pmSet f; f_amSet := f_amSet f |}, r)
      | None => None
      end
  | stdMinute | stdZeroMinute =>
      match getnum value (match s with stdZeroMinute => true | _ => false end) with
      | Some (m, r) =>
          if (m <? 0) || (60 <=? m) then None
          else Some ({| f_year := f_year f; f_month := f_month f; f_day := f_day f;
                        f_hour := f_hour f; f_min := m;
                        f_pmSet := f_pmSet f; f_amSet := f_amSet f |}, r)
      | None => None
      end
  | stdPM =>
      match value with
      | String a (String b r) =>
          if String.eqb (String a (String b EmptyString)) "PM" then
            Some ({| f_year := f_year f; f_month := f_month f; f_day := f_day f;
                     f_hour := f_hour f; f_min := f_min f;
                     f_pmSet := true; f_amSet := f_amSet f |}, r)
          else if String.eqb (String a (String b EmptyString)) "AM" then
            Some ({| f_year := f_year f; f_month := f_month f; f_day := f_day f;
                     f_hour := f_hour f; f_min := f_min f;
                     f_pmSet := f_pmSet f; f_amSet := true |}, r)
          else None
      | _ => None
      end
  end.

(** The loop of [parse]: the literal text before an element is skipped in
    the value ([skip]), where a run of spaces of the layout stands for any
    run of spaces of the value; [insp] tells that the literal before was a
    space of the same run. At the end of the layout the value must be
    used up. *)
Fixpoint parseChunks (cs : list chunk) (insp : bool) (value : string) (f : fields)
  : option fields :=
  match cs with
  | [] => match value with EmptyString => Some f | _ => None end
  | Lit c :: cs' =>
      if Ascii.eqb c " " then
        if insp then parseChunks cs' true value f
        else
          match value with
          | String d _ =>
              if Ascii.eqb d " " then parseChunks cs' true (cutspace value) f
              else None
          | EmptyString => parseChunks cs' true value f
          end
      else
        match value with
        | String d r => if Ascii.eqb d c then parseChunks cs' false r f else None
        | EmptyString => None
        end
  | Std s :: cs' =>
      match parseStd s value f with
      | Some (f', r) => parseChunks cs' false r f'
      | None => None
      end
  | Unsupported :: _ => None
  end.

(** The hour on the clock of 24 hours, once [PM] or [AM] is known. *)
Definition hourOf (f : fields) : Z :=
  if f_pmSet f && (f_hour f <? 12) then f_hour f + 12
  else if f_amSet f && (f_hour f =? 12) then 0
  else f_hour f.

(** The end of [parse]: the twelve-hour clock is resolved, the month and
    the day default to 1, the day is checked against the month. *)
Definition finish (f : fields) (l : Location) : option Time :=
  let hour := hourOf f in
  let month := if f_month f <? 0 then 1 else f_month f in
  let day := if f_day f <? 0 then 1 else f_day f in
  if (day <? 1) || (daysIn month (f_year f) <? day) then None
  else Some (Date (f_year f) month day hour (f_min f) 0 0 l).

(** [time.ParseInLocation]. *)
Definition ParseInLocation (layout value : string) (l : Location) : option Time :=
  match parseChunks (chunks layout) false value fields0 with
  | Some f => finish f l
  | None => None
  end.

#[export] Instance lib : time.Lib :=
  time.Build_Lib Time Location Compare In Format ParseInLocation.

(** *** The layout of the sample configuration *)

(** The value of [reminder_datetime_format] in the sample configuration of
    the README, the elements of its date, and its part for the time of
    day, which comes after a space. *)
Definition sampleLayout : string := "2006-01-02 3:04 PM".










(** *** Layouts that show the minute *)

(** The literals, which print one character, and the elements of the time
    of day that print two characters at every time. *)
Definition fixedWidth (c : chunk) : bool :=
  match c with
  | Lit _ => true
  | Std s =>
      match s with
      | stdHour | stdZeroHour12 | stdZeroMinute | stdPM => true
      | _ => false
      end
  | Unsupported => false
  end.

(** An element [04] with nothing but chunks of fixed width after it, or
    with nothing but chunks of fixed width before it. *)
Fixpoint minuteThenFixed (cs : list chunk) : bool :=
  match cs with
  | [] => false
  | c :: cs' =>
      match c with
      | Std stdZeroMinute => forallb fixedWidth cs' || minuteThenFixed cs'
      | _ => minuteThenFixed cs'
      end
  end.

Fixpoint fixedThenMinute (cs : list chunk) : bool :=
  match cs with
  | [] => false
  | c :: cs' =>
      match c with
      | Std stdZeroMinute => true
      | _ => fixedWidth c && fixedThenMinute cs'
      end
  end.

(** A layout of the model in which the minute can be read off the text,
    counting from its end or from its start: "2006-01-02 3:04 PM",
    "2006-01-02 15:04", "02.01.2006 15:04", "15:04 02.01.2006". *)
Definition showsMinute (layout : string) : bool :=
  supported (chunks layout)
  && (minuteThenFixed (chunks layout) || fixedThenMinute (chunks layout)).

End GoTime.

(* ===================================================================== *)
(** ** fsnotify: events *)
(* ===================================================================== *)

Module fsnotify.

(** [fsnotify.Op] is a bit mask. *)
Definition Create : Z := 1.
Definition Write : Z := 2.
Definition Remove : Z := 4.
Definition Rename : Z := 8.
Definition Chmod : Z := 16.

Record Event := { Name : string; Op : Z }.

(** [Event.Has]. *)
Definition Has (e : Event) (op : Z) : bool := negb (Z.land (Op e) op =? 0).

(** [Watcher.Add]: a watcher is the set of the paths it watches; the path
    joins them unless the system refuses it. The boolean is whether an
    error is returned. *)
Definition Add (fs : os.FS) (watcher : gset string) (path : string)
  : gset string * bool :=
  if decide (path ∈ os.unwatchable fs) then (watcher, true)
  else ({[ path ]} ∪ watcher, false).

End fsnotify.

(* ===================================================================== *)
(** ** The program *)
(* ===================================================================== *)

(** The compiled form of the pattern of [parseReminderEntries], which is in
    multi-line mode: at the start of a line any spaces, the text "- [ ]",
    any spaces, the group [title] (any text, greedy), the text " [due:: ",
    the group [remind] (any text, lazy), the text "]", any text, and the
    end of the line. *)
Definition reg : list regexp.inst :=
  [regexp.BeginLine; regexp.Star true (regexp.OneOf " ")]
  ++ regexp.lit "- [ ]"
  ++ [regexp.Star true (regexp.OneOf " ");
      regexp.Cap 2; regexp.Star true regexp.AnyNotNL; regexp.Cap 3]
  ++ regexp.lit " [due:: "
  ++ [regexp.Cap 4; regexp.Star false regexp.AnyNotNL; regexp.Cap 5]
  ++ regexp.lit "]"
  ++ [regexp.Star true regexp.AnyNotNL; regexp.EndLine].

(** The end of the pattern, from the close of the group [title] on. *)
Definition afterTitle : list regexp.inst :=
  [regexp.Cap 3]
  ++ regexp.lit " [due:: "
  ++ [regexp.Cap 4; regexp.Star false regexp.AnyNotNL; regexp.Cap 5]
  ++ regexp.lit "]"
  ++ [regexp.Star true regexp.AnyNotNL; regexp.EndLine].

(** The text of an entry from its field on, and the text of an entry:
    [n] spaces, the box, [k] spaces, the title, the field with the due
    text [dt], and what follows the field on the line. *)
Definition dueField (dt trailer : string) : string :=
  " [due:: " +:+ dt +:+ "]" +:+ trailer.

Definition entryLine (n k : nat) (title dt trailer : string) : string :=
  Strings.Repeat " " n +:+ "- [ ]" +:+ Strings.Repeat " " k +:+ title
  +:+ dueField dt trailer.

(** A text in which no field can start: an opening bracket is at most its
    first character. *)
Definition fieldFree (s : string) : bool :=
  match s with
  | String _ s' => negb (Strings.ContainsRune s' "[")
  | EmptyString => true
  end.

(** The lines the program logs, by the call that writes them. *)
Inductive LogEntry :=
| WarnInvalidDatetime (datetime : string)
| ErrorCreateWatcher
| ErrorWatchDirectory (path : string)
| ErrorInitializeWatch
| ErrorFindingMarkdownFiles
| ErrorReadFile (f : string).

(** The quiet window of the reload timers, [100 * time.Millisecond], in
    nanoseconds. *)
Definition quietWindow : Z := 100 * 1000000.

(** A [*time.Timer] of the table [eventTimers]: stopped (also after it has
    fired), or armed to fire at an instant of the monotonic clock, in
    nanoseconds. *)
Inductive Timer := Stopped | Armed (deadline : Z).

(** The order in which timers fire: by deadline. *)
Definition earlier (x y : string * Z) : Prop := x.2 <= y.2.

#[global] Instance earlier_dec : RelDecision earlier.
Proof. intros x y. unfold earlier. apply _. Defined.

(** Two consecutive events of a burst: the second comes before the timer
    armed by the first is due. *)
Definition withinWindow (a b : Z) : Prop := a <= b < a + quietWindow.

(** Two consecutive events apart by more than the quiet window. *)
Definition isolated (a b : Z) : Prop := a + quietWindow < b.

(** A Create or Write event, without Remove, for a path with the
    extension [.md] that is not a directory. *)
Definition isFileChange (fs : os.FS) (e : fsnotify.Event) : bool :=
  (fsnotify.Has e fsnotify.Create || fsnotify.Has e fsnotify.Write)
  && negb (fsnotify.Has e fsnotify.Remove)
  && String.eqb (filepath.Ext (fsnotify.Name e)) ".md"
  && negb (match os.Stat fs (fsnotify.Name e) with
           | Some info => os.IsDir info
           | None => false
           end).

Fixpoint contains (slice : list string) (s : string) : bool :=
  match slice with
  | [] => false
  | item :: slice' => if String.eqb item s then true else contains slice' s
  end.

Section Program.
Context `{L : time.Lib}.

Record Reminder := { Title : string; Time : time.Time }.

Record Config := {
  NotesDir : string;
  DefaultReminderTimeOfDay : string;
  NotifyCmd : string;
  NotifyCmdArgs : list string;
  ReminderDateTimeFormat : string;
  TimeZoneLocation : string;
  IgnoredDirs : list string;
  TimeZone : time.Location
}.

(** The package variable [config], set once by [readConfig] before
    anything else runs. *)
Variable config : Config.

(** *** parseReminderEntries *)

(** The text given to [time.ParseInLocation] for a match: the trimmed
    second group, followed by the default time of day when it is one word. *)
Definition datetimeOf (m : list string) : string :=
  let datetime := Strings.TrimSpace (nth 2 m EmptyString) in
  if Nat.eqb (length (Strings.Split datetime " ")) 1
  then datetime +:+ " " +:+ DefaultReminderTimeOfDay config
  else datetime.

(** The body of the loop over the matches: [acc] holds the slice
    [reminders] and the lines logged so far. *)
Definition parseEntry (acc : list Reminder * list LogEntry) (m : list string)
  : list Reminder * list LogEntry :=
  let title := nth 1 m EmptyString in
  let datetime := datetimeOf m in
  match time.ParseInLocation (ReminderDateTimeFormat config) datetime
          (TimeZone config) with
  | None => (acc.1, acc.2 ++ [WarnInvalidDatetime datetime])
  | Some datetimeParsed =>
      (acc.1 ++ [{| Title := title; Time := datetimeParsed |}], acc.2)
  end.

Definition parseReminderEntries (fileContents : string)
  : list Reminder * list LogEntry :=
  fold_left parseEntry (regexp.FindAllSubmatch reg 2 fileContents) ([], []).

(** What a match contributes: its entry when its datetime parses, its
    warning when it does not. *)
Definition entryOf (m : list string) : option Reminder :=
  match time.ParseInLocation (ReminderDateTimeFormat config) (datetimeOf m)
          (TimeZone config) with
  | Some datetimeParsed =>
      Some {| Title := nth 1 m EmptyString; Time := datetimeParsed |}
  | None => None
  end.

Definition warningOf (m : list string) : option LogEntry :=
  match entryOf m with
  | Some _ => None
  | None => Some (WarnInvalidDatetime (datetimeOf m))
  end.

(** *** findMarkdownFiles *)

Definition findMarkdownFiles_fn (path : string) (d : option os.node) (err : bool)
    (markdownFiles : list string) : list string * option filepath.error :=
  if err then (markdownFiles, Some filepath.Err)
  else
    match d with
    | None => (markdownFiles, None)
    | Some d =>
        if os.IsDir d then
          if contains (IgnoredDirs config) (os.Name d)
          then (markdownFiles, Some filepath.SkipDir)
          else (markdownFiles, None)
        else if Strings.HasSuffix (os.Name d) ".md"
        then (markdownFiles ++ [path], None)
        else (markdownFiles, None)
    end.

(** [None] is the error. *)
Definition findMarkdownFiles (fs : os.FS) (dirPath : string) : option (list string) :=
  match filepath.WalkDir findMarkdownFiles_fn fs dirPath [] with
  | (_, true) => None
  | (markdownFiles, false) => Some markdownFiles
  end.

(** *** watchDirRecursive *)

(** The closure works on the watcher and on the log: a directory whose
    name is not ignored is added to the watcher, and a line is logged when
    that fails. *)
Definition watchDirRecursive_fn (fs : os.FS) (path : string) (d : option os.node)
    (err : bool) (st : gset string * list LogEntry)
  : (gset string * list LogEntry) * option filepath.error :=
  if err then (st, Some filepath.Err)
  else
    match d with
    | None => (st, None)
    | Some d =>
        if os.IsDir d && negb (contains (IgnoredDirs config) (os.Name d))
        then
          match fsnotify.Add fs st.1 path with
          | (watcher, true) => ((watcher, st.2 ++ [ErrorWatchDirectory path]), None)
          | (watcher, false) => ((watcher, st.2), None)
          end
        else (st, None)
    end.

Definition watchDirRecursive (fs : os.FS) (watcher : gset string) (dirPath : string)
  : gset string * list LogEntry :=
  match filepath.WalkDir (watchDirRecursive_fn fs) fs dirPath (watcher, []) with
  | ((watcher', log), true) => (watcher', log ++ [ErrorInitializeWatch])
  | ((watcher', log), false) => (watcher', log)
  end.

(** *** loadReminders *)

(** The body of the loop over the files. *)
Definition loadFile (fs : os.FS) (acc : list Reminder * list LogEntry) (f : string)
  : list Reminder * list LogEntry :=
  match os.ReadFile fs f with
  | None => (acc.1, acc.2 ++ [ErrorReadFile f])
  | Some fileContents =>
      let '(rs, log) := parseReminderEntries fileContents in
      (acc.1 ++ rs, acc.2 ++ log)
  end.

(** The lines logged, and the result; the result is [None] when
    [log.Fatalf] ends the process. *)
Definition loadReminders (fs : os.FS) (notesDir : string)
  : list LogEntry * option (list Reminder) :=
  match findMarkdownFiles fs notesDir with
  | None => ([ErrorFindingMarkdownFiles], None)
  | Some markdownFiles =>
      let '(rs, log) := fold_left (loadFile fs) markdownFiles ([], []) in
      (log, Some rs)
  end.

(** *** remindLoop *)

(** The loop runs against a clock: [clock k] is what the [k]-th call of
    [time.Now] returns. Its state is the number of calls made and the
    reminders [notify] was called for, in order; the message of a call is
    the title. *)
Variable clock : nat -> time.Time.

Record Sched := { reads : nat; delivered : list Reminder }.

Definition notifications (s : Sched) : list string := map Title (delivered s).

(** The body of the first loop:
    [if reminder.Time.Compare(time.Now()) <= 0 { notify(reminder.Title) }]. *)
Definition overdue (k : nat) (reminder : Reminder) : bool :=
  time.Compare (Time reminder) (clock k) <=? 0.

(** The body of the loop of a tick: the equality of the two formatted
    texts. *)
Definition matchesNow (k : nat) (reminder : Reminder) : bool :=
  String.eqb
    (time.Format (Time reminder) (ReminderDateTimeFormat config))
    (time.Format (time.In (clock k) (TimeZone config))
       (ReminderDateTimeFormat config)).

Definition visit (test : nat -> Reminder -> bool) (s : Sched) (reminder : Reminder)
  : Sched :=
  {| reads := S (reads s);
     delivered := if test (reads s) reminder
                  then delivered s ++ [reminder] else delivered s |}.

(** The reminders of a list that pass a test, each at the clock reading
    made for it, from the reading [k] on. *)
Fixpoint selected (test : nat -> Reminder -> bool) (k : nat) (l : list Reminder)
  : list Reminder :=
  match l with
  | [] => []
  | reminder :: l' =>
      if test k reminder then reminder :: selected test (S k) l'
      else selected test (S k) l'
  end.

(** The first loop, over the value of [reminders] when [remindLoop]
    starts. *)
Definition catchUp (reminders : list Reminder) (s : Sched) : Sched :=
  fold_left (visit overdue) reminders s.

(** One tick: a loop over the value of [reminders] at the tick. *)
Definition tick (reminders : list Reminder) (s : Sched) : Sched :=
  fold_left (visit matchesNow) reminders s.

(** [remindLoop] up to a number of ticks: [initial] is the value of
    [reminders] when the goroutine starts, [atTicks] its value at each of
    the ticks, as the reloads have left it. *)
Definition remindLoop (initial : list Reminder) (atTicks : list (list Reminder))
  : Sched :=
  fold_left (fun s reminders => tick reminders s) atTicks
    (catchUp initial {| reads := O; delivered := [] |}).

(** *** main *)

(** The state of the process: the package variable [reminders], the
    watcher, the table [eventTimers], the lines logged, and the number of
    calls of [loadReminders] so far. *)
Record Proc := {
  reminders : list Reminder;
  watcher : gset string;
  eventTimers : gmap string Timer;
  logs : list LogEntry;
  rebuilds : nat
}.

Inductive Status := Running (p : Proc) | Exited (p : Proc).

Definition proc (st : Status) : Proc :=
  match st with
  | Running p => p
  | Exited p => p
  end.

Definition andThen (st : Status) (k : Proc -> Status) : Status :=
  match st with
  | Running p => k p
  | Exited p => Exited p
  end.

(** The statement [reminders = loadReminders(config.NotesDir)]. *)
Definition rebuild (fs : os.FS) (p : Proc) : Status :=
  match loadReminders fs (NotesDir config) with
  | (log, Some rs) =>
      Running {| reminders := rs; watcher := watcher p;
                 eventTimers := eventTimers p; logs := logs p ++ log;
                 rebuilds := S (rebuilds p) |}
  | (log, None) =>
      Exited {| reminders := reminders p; watcher := watcher p;
                eventTimers := eventTimers p; logs := logs p ++ log;
                rebuilds := S (rebuilds p) |}
  end.

(** The start of [main], after the configuration is read: the first load,
    the creation of the watcher, where [log.Fatalf] ends the process when
    it fails, and the watch on the notes directory. *)
Definition startup (fs : os.FS) : Status :=
  andThen
    (rebuild fs {| reminders := []; watcher := ∅; eventTimers := ∅;
                   logs := []; rebuilds := O |})
    (fun p =>
       if os.noWatcher fs then
         Exited {| reminders := reminders p; watcher := watcher p;
                   eventTimers := eventTimers p;
                   logs := logs p ++ [ErrorCreateWatcher];
                   rebuilds := rebuilds p |}
       else
         let '(w, log) := watchDirRecursive fs (watcher p) (NotesDir config) in
         Running {| reminders := reminders p; watcher := w;
                    eventTimers := eventTimers p; logs := logs p ++ log;
                    rebuilds := rebuilds p |}).

(** The look-up or creation of the timer of a path and its
    [Reset(100 * time.Millisecond)] at the instant [now]. A timer that is
    created is stopped at once, and armed by the reset like one that was
    found. *)
Definition resetTimer (now : Z) (name : string) (p : Proc) : Proc :=
  let timers :=
    match eventTimers p !! name with
    | Some _ => eventTimers p
    | None => <[name := Stopped]> (eventTimers p)
    end in
  {| reminders := reminders p; watcher := watcher p;
     eventTimers := <[name := Armed (now + quietWindow)]> timers;
     logs := logs p; rebuilds := rebuilds p |}.

(** The body of the event loop for an event read from [watcher.Events] at
    the instant [now], the file system being [fs]. What [watcher.Add]
    returns for a directory that was created is not looked at. *)
Definition handleEvent (fs : os.FS) (now : Z) (fsEvent : fsnotify.Event) (p : Proc)
  : Status :=
  let name := fsnotify.Name fsEvent in
  if fsnotify.Has fsEvent fsnotify.Create
     && match os.Stat fs name with
        | Some info => os.IsDir info
        | None => false
        end
  then
    Running {| reminders := reminders p;
               watcher := (fsnotify.Add fs (watcher p) name).1;
               eventTimers := eventTimers p; logs := logs p;
               rebuilds := rebuilds p |}
  else if negb (String.eqb (filepath.Ext name) ".md") then Running p
  else
    andThen
      (if fsnotify.Has fsEvent fsnotify.Remove then rebuild fs p else Running p)
      (fun p =>
         if fsnotify.Has fsEvent fsnotify.Create || fsnotify.Has fsEvent fsnotify.Write
         then Running (resetTimer now name p)
         else Running p).

(** *** Timers and the run of the process *)

(** The file system over time. *)
Variable fsAt : Z -> os.FS.

(** The deadlines of the armed timers. *)
Definition armed (timers : gmap string Timer) : gmap string Z :=
  omap (fun t => match t with Armed d => Some d | Stopped => None end) timers.

(** The timers that have come due by the instant [now], earliest first. *)
Definition due (now : Z) (timers : gmap string Timer) : list (string * Z) :=
  merge_sort earlier
    (map_to_list (filter (fun x : string * Z => x.2 <= now) (armed timers))).

(** A timer fires at its deadline: it is armed no more, and its function
    runs [reminders = loadReminders(config.NotesDir)]. *)
Definition fire (p : Proc) (x : string * Z) : Status :=
  rebuild (fsAt x.2)
    {| reminders := reminders p; watcher := watcher p;
       eventTimers := <[x.1 := Stopped]> (eventTimers p);
       logs := logs p; rebuilds := rebuilds p |}.

(** Time passes up to [now]: the timers due by then fire. *)
Definition advance (now : Z) (p : Proc) : Status :=
  fold_left (fun st x => andThen st (fun p => fire p x))
    (due now (eventTimers p)) (Running p).

(** The event loop on events with the instants they are read at. *)
Definition step (st : Status) (e : Z * fsnotify.Event) : Status :=
  andThen (andThen st (advance e.1)) (handleEvent (fsAt e.1) e.1 e.2).

Definition run (events : list (Z * fsnotify.Event)) (st : Status) : Status :=
  fold_left step events st.

(** No scan of the notes directory fails, at any time. *)
Definition scansSucceed : Prop :=
  forall t, is_Some (findMarkdownFiles (fsAt t) (NotesDir config)).

(** The run of the events, and then the passing of time up to [until]. *)
Definition runUntil (events : list (Z * fsnotify.Event)) (until : Z) (st : Status)
  : Status :=
  andThen (run events st) (advance until).

End Program.

(* ===================================================================== *)
(** ** What the walks and the load compute *)
(* ===================================================================== *)

(** The results of the two walks and of the load, written by recursion on
    the tree; the properties relate the program to them. *)
Section Walks.
Variable ignored : list string.

(** The paths of the files below [d], found at [path], whose names end in
    [.md], in the order of the listings; nothing of a directory whose name
    is ignored. *)
Fixpoint markdownUnder (path : string) (d : os.node) : list string :=
  match d with
  | os.File name _ => if Strings.HasSuffix name ".md" then [path] else []
  | os.Dir name _ entries =>
      if contains ignored name then []
      else flat_map (fun d1 => markdownUnder (filepath.Join path (os.Name d1)) d1)
             entries
  end.

(** Every directory that is reached through directories that are not
    ignored, and is not ignored itself, can be listed. *)
Fixpoint scannable (d : os.node) : bool :=
  match d with
  | os.File _ _ => true
  | os.Dir name readable entries =>
      contains ignored name || (readable && forallb scannable entries)
  end.

(** The paths of the directories of [d], found at [path], whose names are
    not ignored, whatever the names of the directories above them. *)
Fixpoint watchedUnder (path : string) (d : os.node) : list string :=
  match d with
  | os.File _ _ => []
  | os.Dir name _ entries =>
      (if contains ignored name then [] else [path])
      ++ flat_map (fun d1 => watchedUnder (filepath.Join path (os.Name d1)) d1)
           entries
  end.

(** Every directory can be listed. *)
Fixpoint listable (d : os.node) : bool :=
  match d with
  | os.File _ _ => true
  | os.Dir _ readable entries => readable && forallb listable entries
  end.

End Walks.

Section Watches.
Variable fs : os.FS.

(** What [Watcher.Add] for each of [paths] in turn makes of the watcher
    and of the log of [watchDirRecursive]: the paths that the system does
    not refuse are watched, and there is a line for each of the others. *)
Definition watchAll (paths : list string) (st : gset string * list LogEntry)
  : gset string * list LogEntry :=
  (list_to_set (filter (fun path => path ∉ os.unwatchable fs) paths) ∪ st.1,
   st.2 ++ map ErrorWatchDirectory
             (filter (fun path => path ∈ os.unwatchable fs) paths)).

End Watches.

Section Loads.
Context `{L : time.Lib}.
Variable config : Config.

(** What a file adds to [reminders] and to the log in [loadReminders]. *)
Definition fileEntries (fs : os.FS) (f : string) : list Reminder :=
  match os.ReadFile fs f with
  | Some fileContents => (parseReminderEntries config fileContents).1
  | None => []
  end.

Definition fileLog (fs : os.FS) (f : string) : list LogEntry :=
  match os.ReadFile fs f with
  | Some fileContents => (parseReminderEntries config fileContents).2
  | None => [ErrorReadFile f]
  end.

End Loads.

(* ===================================================================== *)
(** ** Sample data *)
(* ===================================================================== *)

(** The sample configuration of the README, in UTC, and small file trees
    and events to run the program on. *)
Module Sample.

Definition config : @Config GoTime.lib :=
  @Build_Config GoTime.lib "/notes" "09:00 AM" "notify-send"
    ["-i"; "calendar"; "Reminder"] GoTime.sampleLayout ""
    [".git"; ".obsidian"; ".trash"; "templates"; ".stfolder"; "Excalidraw"; "assets"]
    GoTime.UTC.



Definition rent : string := "- [ ] Pay rent [due:: 2024-01-01]".

(** The notes directory at the start: two notes. *)
Definition notes0 : os.FS :=
  {| os.noWatcher := false; os.unwatchable := ∅; os.mount := "/notes";
     os.top := os.Dir "notes" true
       [os.File "rent.md" (Some rent);
        os.File "todo.md" (Some "- [ ] Call Ann [due:: tomorrow]")] |}.

(** The notes directory later: a directory [new] with a directory [sub]
    in it, and a directory [templates], have appeared. *)
Definition notes : os.FS :=
  {| os.noWatcher := false; os.unwatchable := ∅; os.mount := "/notes";
     os.top := os.Dir "notes" true
       [os.Dir "new" true
          [os.Dir "sub" true [os.File "plan.md" (Some "- [ ] Plan [due:: 2024-02-01]")]];
        os.File "rent.md" (Some rent);
        os.Dir "templates" true [];
        os.File "todo.md" (Some "- [ ] Call Ann [due:: tomorrow]")] |}.

(** The notes directory when it cannot be listed. *)
Definition unreadable : os.FS :=
  {| os.noWatcher := false; os.unwatchable := ∅; os.mount := "/notes";
     os.top := os.Dir "notes" false [] |}.

(** A notes directory under version control: the directory [.git], a
    name of the ignore-set, holds a directory [hooks] and a note. *)
Definition vault : os.FS :=
  {| os.noWatcher := false; os.unwatchable := ∅; os.mount := "/notes";
     os.top := os.Dir "notes" true
       [os.Dir ".git" true
          [os.File "HEAD.md" (Some "- [ ] Merge [due:: 2024-03-01]");
           os.Dir "hooks" true []];
        os.File "rent.md" (Some rent)] |}.

(** The same directory on a system that refuses to watch [hooks], and on
    a system that has no watcher to give. *)
Definition crowded : os.FS :=
  {| os.mount := "/notes"; os.top := os.top vault; os.noWatcher := false;
     os.unwatchable := {[ "/notes/.git/hooks" ]} |}.

Definition noWatchers : os.FS :=
  {| os.mount := "/notes"; os.top := os.top vault; os.noWatcher := true;
     os.unwatchable := ∅ |}.

(** A notes directory with a note that cannot be read. *)
Definition locked : os.FS :=
  {| os.noWatcher := false; os.unwatchable := ∅; os.mount := "/notes";
     os.top := os.Dir "notes" true
       [os.File "locked.md" None; os.File "rent.md" (Some rent)] |}.

Definition create (name : string) : fsnotify.Event :=
  {| fsnotify.Name := name; fsnotify.Op := fsnotify.Create |}.

Definition write (name : string) : fsnotify.Event :=
  {| fsnotify.Name := name; fsnotify.Op := fsnotify.Write |}.

Definition remove (name : string) : fsnotify.Event :=
  {| fsnotify.Name := name; fsnotify.Op := fsnotify.Remove |}.

Definition ms (n : Z) : Z := n * 1000000.

(** A process with nothing loaded and no timer. *)
Definition idle : @Proc GoTime.lib :=
  @Build_Proc GoTime.lib [] ∅ ∅ [] O.

Definition reminder (title : string) (year month day hour min : Z)
  : @Reminder GoTime.lib :=
  @Build_Reminder GoTime.lib title
    (GoTime.Date year month day hour min 0 0 GoTime.UTC).

Definition payRent : @Reminder GoTime.lib := reminder "Pay rent" 2024 1 1 9 0.
Definition callAnn : @Reminder GoTime.lib := reminder "Call Ann" 2024 1 3 9 0.
Definition standUp : @Reminder GoTime.lib := reminder "Stand up" 2024 1 2 9 0.
Definition coffee : @Reminder GoTime.lib := reminder "Coffee" 2024 1 2 9 1.

(** A clock that shows 2 January 2024, 09:00:20 UTC at every reading. *)
Definition clock (k : nat) : @time.Time GoTime.lib :=
  GoTime.Date 2024 1 2 9 0 20 0 GoTime.UTC.

End Sample.

(* ===================================================================== *)
(** ** Properties of the extraction of entries *)
(* ===================================================================== *)

Section Extraction.
Context `{L : time.Lib}.
Variable config : Config.

(** The loop over the matches, from any accumulator: the entries of the
    matches are appended in order, and so are the warnings. *)
Lemma fold_parseEntry (ms : list (list string)) (acc : list Reminder * list LogEntry) :
  fold_left (parseEntry config) ms acc
  = (acc.1 ++ omap (entryOf config) ms, acc.2 ++ omap (warningOf config) ms).
Proof.
  revert acc. induction ms as [|m ms IH]; intros [rs log]; simpl.
  - by rewrite !app_nil_r.
  - rewrite IH. unfold parseEntry, warningOf, entryOf. simpl.
    destruct (time.ParseInLocation _ _ _); simpl; by rewrite <- ?app_assoc.
Qed.

Lemma parseReminderEntries_omap (fileContents : string) :
  parseReminderEntries config fileContents
  = (omap (entryOf config) (regexp.FindAllSubmatch reg 2 fileContents),
     omap (warningOf config) (regexp.FindAllSubmatch reg 2 fileContents)).
Proof. unfold parseReminderEntries. by rewrite fold_parseEntry. Qed.

Lemma omap_all_None {A B} (f : A -> option B) (l : list A) :
  (forall x, x ∈ l -> f x = None) -> omap f l = [].
Proof.
  induction l as [|x l IH]; intros Hall; [done|]. simpl.
  rewrite (Hall x) by apply list_elem_of_here.
  apply IH. intros y Hy. apply Hall. by apply list_elem_of_further.
Qed.


End Extraction.

(* ===================================================================== *)
(** ** Properties of the scheduler *)
(* ===================================================================== *)

Section Scheduler.
Context `{L : time.Lib}.
Variable config : Config.
Variable clock : nat -> time.Time.

(** A loop of [remindLoop] over a list: one clock reading for each
    reminder, and the reminders that pass the test are delivered in
    order. *)
Lemma fold_visit (test : nat -> Reminder -> bool) (l : list Reminder) (s : Sched) :
  fold_left (visit test) l s
  = {| reads := (reads s + length l)%nat;
       delivered := delivered s ++ selected test (reads s) l |}.
Proof.
  revert s. induction l as [|r l IH]; intros [k ds]; simpl.
  - by rewrite Nat.add_0_r, app_nil_r.
  - rewrite IH. simpl. f_equal; [lia|].
    destruct (test k r); simpl; by rewrite <- ?app_assoc.
Qed.

Lemma elem_of_selected (test : nat -> Reminder -> bool) (l : list Reminder) (k : nat)
    (r : Reminder) :
  r ∈ selected test k l <-> exists i, l !! i = Some r /\ test (k + i)%nat r = true.
Proof.
  revert k. induction l as [|x l IH]; intros k; simpl.
  - split; [by intros ?%elem_of_nil|by intros (i & ? & _)].
  - split.
    + destruct (test k x) eqn:Hx.
      * intros [->|Hin]%elem_of_cons.
        -- exists O. by rewrite Nat.add_0_r.
        -- apply IH in Hin as (i & Hi & Ht). exists (S i).
           by rewrite Nat.add_succ_r.
      * intros Hin. apply IH in Hin as (i & Hi & Ht). exists (S i).
        by rewrite Nat.add_succ_r.
    + intros ([|i] & Hi & Ht); simpl in Hi.
      * injection Hi as ->. rewrite Nat.add_0_r in Ht. rewrite Ht.
        apply list_elem_of_here.
      * rewrite Nat.add_succ_r in Ht.
        assert (r ∈ selected test (S k) l) by (apply IH; eauto).
        destruct (test k x); [by apply list_elem_of_further|done].
Qed.

(** The deliveries of the ticks come after what was delivered before. *)
Lemma ticks_extend (atTicks : list (list Reminder)) (s : Sched) :
  exists later,
    delivered (fold_left (fun s reminders => tick config clock reminders s) atTicks s)
    = delivered s ++ later.
Proof.
  revert s. induction atTicks as [|rs atTicks IH]; intros s; simpl.
  - exists []. by rewrite app_nil_r.
  - destruct (IH (tick config clock rs s)) as [later ->].
    unfold tick. rewrite fold_visit. simpl.
    eexists. by rewrite <- app_assoc.
Qed.

End Scheduler.

(* ===================================================================== *)
(** ** Properties of GoTime *)
(* ===================================================================== *)

Module GoTimeFacts.
Import GoTime.

(** *** Formatting with the sample layout *)

Lemma app_String c a b : String c a +:+ b = String c (a +:+ b).
Proof. reflexivity. Qed.
Lemma app_Empty b : "" +:+ b = b.
Proof. reflexivity. Qed.

Lemma string_app_assoc a b c : a +:+ b +:+ c = (a +:+ b) +:+ c.
Proof. induction a as [|x a IH]; [done|]. rewrite !app_String. by f_equal. Qed.

Lemma list_ascii_of_app (a b : string) :
  list_ascii_of_string (a +:+ b) = list_ascii_of_string a ++ list_ascii_of_string b.
Proof. induction a as [|c a IH]; simpl; [done|]. by rewrite <- IH. Qed.

Lemma forallb_below (P : nat -> bool) (n i : nat) :
  forallb P (seq 0 n) = true -> (i < n)%nat -> P i = true.
Proof.
  intros Hall Hi. rewrite forallb_forall in Hall. apply Hall.
  apply in_seq. lia.
Qed.

Lemma minute_texts :
  forallb (fun i =>
    (String.length (appendInt (Z.of_nat i) 2) =? 2)%nat
    && forallb (fun j =>
         implb (String.eqb (appendInt (Z.of_nat i) 2) (appendInt (Z.of_nat j) 2))
               (i =? j)%nat) (seq 0 60)) (seq 0 60) = true.
Proof. vm_compute. reflexivity. Qed.

Lemma length_list_ascii (s : string) :
  length (list_ascii_of_string s) = String.length s.
Proof. induction s as [|c s IH]; simpl; [done|by rewrite IH]. Qed.

Lemma minute_text_length (m : Z) :
  0 <= m < 60 -> length (list_ascii_of_string (appendInt m 2)) = 2%nat.
Proof.
  intros Hm. rewrite length_list_ascii.
  pose proof (forallb_below _ 60 (Z.to_nat m) minute_texts ltac:(lia)) as H.
  apply andb_true_iff in H as [H _]. rewrite Z2Nat.id in H by lia.
  by apply Nat.eqb_eq in H.
Qed.

Lemma minute_text_inj (m n : Z) :
  0 <= m < 60 -> 0 <= n < 60 -> appendInt m 2 = appendInt n 2 -> m = n.
Proof.
  intros Hm Hn Heq.
  pose proof (forallb_below _ 60 (Z.to_nat m) minute_texts ltac:(lia)) as H.
  apply andb_true_iff in H as [_ H].
  pose proof (forallb_below _ 60 (Z.to_nat n) H ltac:(lia)) as H'. simpl in H'.
  rewrite !Z2Nat.id in H' by lia. rewrite Heq, String.eqb_refl in H'. simpl in H'.
  apply Nat.eqb_eq in H'. lia.
Qed.

Lemma Minute_range t : 0 <= Minute t < 60.
Proof. unfold Minute, secondsPerHour, secondsPerMinute. Z.to_euclidean_division_equations. lia. Qed.

Lemma Hour_range t : 0 <= Hour t < 24.
Proof. unfold Hour, secondsPerDay, secondsPerHour. Z.to_euclidean_division_equations. lia. Qed.

Lemma hour12_range h : 1 <= hour12 h <= 12.
Proof.
  unfold hour12. destruct (Z.eqb_spec (h mod 12) 0); [lia|].
  Z.to_euclidean_division_equations. lia.
Qed.

Lemma formatChunks_app cs1 cs2 t :
  formatChunks (cs1 ++ cs2) t = formatChunks cs1 t +:+ formatChunks cs2 t.
Proof.
  induction cs1 as [|[c|s|] cs1 IH]; cbn [app formatChunks]; [done| | |done].
  - by rewrite IH.
  - by rewrite IH, string_app_assoc.
Qed.

(** The text of chunks of fixed width has the same length at all times. *)
Lemma fixedWidth_length cs t u :
  forallb fixedWidth cs = true ->
  length (list_ascii_of_string (formatChunks cs t))
  = length (list_ascii_of_string (formatChunks cs u)).
Proof.
  induction cs as [|c cs IH]; [done|]. cbn [forallb].
  intros [Hc Hcs]%andb_true_iff. specialize (IH Hcs).
  destruct c as [c|s|]; cbn [formatChunks]; [| |done].
  - cbn [list_ascii_of_string length]. by rewrite IH.
  - rewrite !list_ascii_of_app, !length_app, IH. f_equal.
    pose proof (Hour_range t). pose proof (Hour_range u).
    pose proof (hour12_range (Hour t)). pose proof (hour12_range (Hour u)).
    pose proof (Minute_range t). pose proof (Minute_range u).
    destruct s; try done; cbn [formatStd]; rewrite ?minute_text_length by lia;
      try done.
    by destruct (12 <=? Hour t), (12 <=? Hour u).
Qed.

Lemma minuteThenFixed_split cs :
  minuteThenFixed cs = true ->
  exists pre post,
    cs = pre ++ Std stdZeroMinute :: post /\ forallb fixedWidth post = true.
Proof.
  induction cs as [|c cs IH]; [done|]. cbn [minuteThenFixed].
  assert (minuteThenFixed cs = true ->
          exists pre post,
            c :: cs = pre ++ Std stdZeroMinute :: post
            /\ forallb fixedWidth post = true) as Hrec.
  { intros (pre & post & -> & Hpost)%IH. by exists (c :: pre), post. }
  destruct c as [x|s|]; [done| |done].
  destruct s; try done.
  intros [H|H]%orb_true_iff; [|by apply Hrec].
  by exists [], cs.
Qed.

Lemma fixedThenMinute_split cs :
  fixedThenMinute cs = true ->
  exists pre post,
    cs = pre ++ Std stdZeroMinute :: post /\ forallb fixedWidth pre = true.
Proof.
  induction cs as [|c cs IH]; [done|]. cbn [fixedThenMinute].
  assert (fixedWidth c && fixedThenMinute cs = true ->
          exists pre post,
            c :: cs = pre ++ Std stdZeroMinute :: post
            /\ forallb fixedWidth pre = true) as Hrec.
  { intros [Hc (pre & post & -> & Hpre)%IH]%andb_true_iff.
    exists (c :: pre), post. cbn [forallb]. by rewrite Hc, Hpre. }
  destruct c as [x|s|]; [by apply Hrec| |by apply Hrec].
  destruct s; try (by apply Hrec). intros _. by exists [], cs.
Qed.

(** The text that a layout showing the minute prints determines the
    minute of the hour. *)
Lemma Format_minute (t u : Time) (layout : string) :
  showsMinute layout = true ->
  Format t layout = Format u layout -> Minute t = Minute u.
Proof.
  unfold showsMinute, Format. intros [-> Hm]%andb_true_iff.
  assert (exists pre post,
            chunks layout = pre ++ Std stdZeroMinute :: post
            /\ (forallb fixedWidth post = true \/ forallb fixedWidth pre = true))
    as (pre & post & -> & Hfixed).
  { apply orb_true_iff in Hm as [Hm|Hm].
    - apply minuteThenFixed_split in Hm as (pre & post & ? & ?). eauto 6.
    - apply fixedThenMinute_split in Hm as (pre & post & ? & ?). eauto 6. }
  rewrite !formatChunks_app. cbn [formatChunks].
  intros Heq. apply (f_equal list_ascii_of_string) in Heq.
  rewrite !list_ascii_of_app in Heq.
  assert (list_ascii_of_string (formatStd stdZeroMinute t)
          = list_ascii_of_string (formatStd stdZeroMinute u)) as Hmin.
  { destruct Hfixed as [Hpost|Hpre].
    - apply app_inj_2 in Heq as [_ Heq].
      2:{ rewrite !length_app. cbn [formatStd].
          rewrite !minute_text_length by apply Minute_range.
          by rewrite (fixedWidth_length post t u). }
      apply app_inj_1 in Heq as [Heq _]; [done|].
      cbn [formatStd]. by rewrite !minute_text_length by apply Minute_range.
    - apply app_inj_1 in Heq as [_ Heq]; [|by apply fixedWidth_length].
      apply app_inj_1 in Heq as [Heq _]; [done|].
      cbn [formatStd]. by rewrite !minute_text_length by apply Minute_range. }
  cbn [formatStd] in Hmin.
  apply (f_equal string_of_list_ascii) in Hmin.
  rewrite !string_of_list_ascii_of_string in Hmin.
  apply minute_text_inj in Hmin; auto using Minute_range.
Qed.

(** *** Parsing with the sample layout *)

Lemma Split_nonempty s sep : Strings.Split s sep <> [].
Proof.
  destruct s as [|c s]; simpl; [done|].
  destruct (Ascii.eqb c sep); [done|]. by destruct (Strings.Split s sep).
Qed.





























End GoTimeFacts.

(* ===================================================================== *)
(** ** Properties of the event loop and its timers *)
(* ===================================================================== *)

Lemma last_cons {A} (l : list A) (a d : A) : List.last (a :: l) d = List.last l a.
Proof.
  revert a d. induction l as [|x l IH]; intros a d; [done|].
  change (List.last (a :: x :: l) d) with (List.last (x :: l) d).
  by rewrite !(IH x).
Qed.

Section Reconciler.
Context `{L : time.Lib}.
Variable config : Config.
Variable fsAt : Z -> os.FS.

Lemma rebuild_proc (fs : os.FS) (p : Proc) :
  rebuilds (proc (rebuild config fs p)) = S (rebuilds p)
  /\ eventTimers (proc (rebuild config fs p)) = eventTimers p
  /\ watcher (proc (rebuild config fs p)) = watcher p.
Proof. unfold rebuild. by destruct (loadReminders config fs _) as [log [rs|]]. Qed.

Lemma handleEvent_fileChange (fs : os.FS) (now : Z) (e : fsnotify.Event) (p : Proc) :
  isFileChange fs e = true ->
  handleEvent config fs now e p = Running (resetTimer now (fsnotify.Name e) p).
Proof.
  unfold isFileChange, handleEvent.
  intros [[[Hcw Hrm]%andb_true_iff Hext]%andb_true_iff Hdir]%andb_true_iff.
  apply negb_true_iff in Hrm, Hdir.
  rewrite Hdir, andb_false_r, Hext, Hrm. simpl. by rewrite Hcw.
Qed.

Lemma armed_resetTimer (now : Z) (name : string) (p : Proc) :
  armed (eventTimers (resetTimer now name p))
  = <[name := now + quietWindow]> (armed (eventTimers p)).
Proof.
  unfold resetTimer, armed. simpl.
  destruct (eventTimers p !! name).
  - by rewrite omap_insert_Some with (y := now + quietWindow).
  - rewrite insert_insert_eq. by rewrite omap_insert_Some with (y := now + quietWindow).
Qed.

Lemma due_none (now : Z) (timers : gmap string Timer) :
  armed timers = ∅ -> due now timers = [].
Proof. intros Ha. unfold due. by rewrite Ha, map_filter_empty, map_to_list_empty. Qed.

Lemma due_later (now d : Z) (name : string) (timers : gmap string Timer) :
  armed timers = {[name := d]} -> now < d -> due now timers = [].
Proof.
  intros Ha Hd. unfold due. rewrite Ha, map_filter_singleton_False; [|simpl; lia].
  by rewrite map_to_list_empty.
Qed.

Lemma due_one (now d : Z) (name : string) (timers : gmap string Timer) :
  armed timers = {[name := d]} -> d <= now -> due now timers = [(name, d)].
Proof.
  intros Ha Hd. unfold due. rewrite Ha, map_filter_singleton_True; [|simpl; lia].
  by rewrite map_to_list_singleton.
Qed.


Lemma advance_idle (now : Z) (p : Proc) :
  due now (eventTimers p) = [] -> advance config fsAt now p = Running p.
Proof. unfold advance. by intros ->. Qed.

Lemma advance_one (now d : Z) (name : string) (p : Proc) :
  armed (eventTimers p) = {[name := d]} -> d <= now ->
  advance config fsAt now p = fire config fsAt p (name, d)
  /\ rebuilds (proc (fire config fsAt p (name, d))) = S (rebuilds p)
  /\ armed (eventTimers (proc (fire config fsAt p (name, d)))) = ∅.
Proof.
  intros Ha Hd. unfold advance. rewrite (due_one now d name _ Ha Hd). simpl.
  split; [done|]. unfold fire.
  destruct (rebuild_proc (fsAt (name, d).2)
    {| reminders := reminders p; watcher := watcher p;
       eventTimers := <[(name, d).1 := Stopped]> (eventTimers p);
       logs := logs p; rebuilds := rebuilds p |}) as (-> & -> & _).
  split; [done|]. simpl. unfold armed in *.
  rewrite omap_insert_None by done. by rewrite Ha, delete_singleton_eq.
Qed.

Lemma rebuild_running (fs : os.FS) (p : Proc) :
  is_Some (findMarkdownFiles config fs (NotesDir config)) ->
  exists p', rebuild config fs p = Running p'.
Proof.
  intros [files Hf]. unfold rebuild, loadReminders. rewrite Hf.
  destruct (fold_left _ _ _). eauto.
Qed.

(** An event of a burst: the timer of its path is armed and not yet due,
    or no timer is armed. *)
Lemma step_rearm (t : Z) (e : fsnotify.Event) (p : Proc) :
  isFileChange (fsAt t) e = true ->
  armed (eventTimers p) = ∅
  \/ (exists d, armed (eventTimers p) = {[fsnotify.Name e := d]} /\ t < d) ->
  exists p', step config fsAt (Running p) (t, e) = Running p'
    /\ rebuilds p' = rebuilds p
    /\ armed (eventTimers p') = {[fsnotify.Name e := t + quietWindow]}.
Proof.
  intros He Hp. unfold step. simpl.
  rewrite advance_idle.
  2:{ destruct Hp as [Hp|(d & Hp & Hd)]; [by apply due_none|by eapply due_later]. }
  simpl. rewrite handleEvent_fileChange by done. eexists. split; [done|].
  split; [done|]. rewrite armed_resetTimer.
  destruct Hp as [->|(d & -> & _)]; [done|by rewrite insert_singleton_eq].
Qed.

(** An event that comes after the armed timer is due: the timer fires
    first. *)
Lemma step_fire (t d : Z) (name : string) (e : fsnotify.Event) (p : Proc) :
  scansSucceed config fsAt ->
  isFileChange (fsAt t) e = true ->
  armed (eventTimers p) = {[name := d]} -> d <= t ->
  exists p', step config fsAt (Running p) (t, e) = Running p'
    /\ rebuilds p' = S (rebuilds p)
    /\ armed (eventTimers p') = {[fsnotify.Name e := t + quietWindow]}.
Proof.
  intros Hscan He Hp Hd. unfold step. simpl.
  destruct (advance_one t d name p Hp Hd) as (-> & Hr & Ha).
  unfold fire in *. simpl in *.
  destruct (rebuild_running (fsAt d)
    {| reminders := reminders p; watcher := watcher p;
       eventTimers := <[name := Stopped]> (eventTimers p);
       logs := logs p; rebuilds := rebuilds p |} (Hscan d)) as [p1 Hp1].
  rewrite Hp1 in *. simpl in *.
  rewrite handleEvent_fileChange by done. eexists. split; [done|].
  split; [done|]. by rewrite armed_resetTimer, Ha.
Qed.

Lemma run_burst (name : string) (evs : list (Z * fsnotify.Event)) (p : Proc) (last : Z) :
  armed (eventTimers p) = {[name := last + quietWindow]} ->
  Sorted withinWindow (last :: map fst evs) ->
  Forall (fun x => fsnotify.Name x.2 = name /\ isFileChange (fsAt x.1) x.2 = true) evs ->
  exists p', run config fsAt evs (Running p) = Running p'
    /\ rebuilds p' = rebuilds p
    /\ armed (eventTimers p') = {[name := List.last (map fst evs) last + quietWindow]}.
Proof.
  revert p last. induction evs as [|[t e] evs IH]; intros p last Hp Hs Hall.
  - exists p. by repeat split.
  - apply Forall_cons in Hall as [[Hn He] Hall]. cbn [map fst snd] in *.
    apply Sorted_inv in Hs as [Hs Hh]. apply HdRel_inv in Hh. unfold withinWindow in Hh.
    destruct (step_rearm t e p He) as (p1 & Hstep & Hr1 & Ha1).
    { right. exists (last + quietWindow). rewrite Hn. split; [done|lia]. }
    unfold run in *. cbn [fold_left]. rewrite Hstep. rewrite Hn in Ha1.
    destruct (IH p1 t Ha1 Hs Hall) as (p' & Hrun & Hr & Ha).
    exists p'. split; [done|]. split; [congruence|].
    by rewrite Ha, last_cons.
Qed.

Lemma run_isolated (evs : list (Z * fsnotify.Event)) (p : Proc) (name : string)
    (last : Z) :
  scansSucceed config fsAt ->
  armed (eventTimers p) = {[name := last + quietWindow]} ->
  Sorted isolated (last :: map fst evs) ->
  Forall (fun x => isFileChange (fsAt x.1) x.2 = true) evs ->
  exists p' name', run config fsAt evs (Running p) = Running p'
    /\ rebuilds p' = (rebuilds p + length evs)%nat
    /\ armed (eventTimers p')
       = {[name' := List.last (map fst evs) last + quietWindow]}.
Proof.
  intros Hscan. revert p name last.
  induction evs as [|[t e] evs IH]; intros p name last Hp Hs Hall.
  - exists p, name. rewrite Nat.add_0_r. by repeat split.
  - apply Forall_cons in Hall as [He Hall]. cbn [map fst snd] in *.
    apply Sorted_inv in Hs as [Hs Hh]. apply HdRel_inv in Hh. unfold isolated in Hh.
    destruct (step_fire t (last + quietWindow) name e p Hscan He Hp ltac:(lia))
      as (p1 & Hstep & Hr1 & Ha1).
    unfold run in *. cbn [fold_left]. rewrite Hstep.
    destruct (IH p1 _ t Ha1 Hs Hall) as (p' & name' & Hrun & Hr & Ha).
    exists p', name'. split; [done|]. split; [cbn [length]; lia|].
    by rewrite Ha, last_cons.
Qed.

End Reconciler.

(* ===================================================================== *)
(** ** The extraction of entries: malformed datetimes *)
(* ===================================================================== *)

(** C9: for every text, [parseReminderEntries] returns, in the order of the
    text, exactly the entries of the candidates (the matches of the pattern)
    whose datetime parses with the configured format; a candidate whose
    datetime does not parse is logged and skipped, and the candidates after
    it are still extracted. The function is total: it never fails. A text
    without a candidate whose datetime parses gives the empty sequence. *)
Theorem extraction_skips_unparseable `{L : time.Lib} (config : Config)
    (fileContents : string) :
  let candidates := regexp.FindAllSubmatch reg 2 fileContents in
  let parses m :=
    time.ParseInLocation (ReminderDateTimeFormat config) (datetimeOf config m)
      (TimeZone config) in
  (parseReminderEntries config fileContents).1 = omap (entryOf config) candidates
  /\ (parseReminderEntries config fileContents).2 = omap (warningOf config) candidates
  /\ (forall r, r ∈ (parseReminderEntries config fileContents).1 <->
        exists m t, m ∈ candidates /\ parses m = Some t
                    /\ r = {| Title := nth 1 m EmptyString; Time := t |})
  /\ (forall w, w ∈ (parseReminderEntries config fileContents).2 <->
        exists m, m ∈ candidates /\ parses m = None
                  /\ w = WarnInvalidDatetime (datetimeOf config m))
  /\ ((forall m, m ∈ candidates -> parses m = None) ->
      (parseReminderEntries config fileContents).1 = []).
Proof.
  intros candidates parses. rewrite parseReminderEntries_omap. simpl.
  fold candidates. split; [done|]. split; [done|]. split; [|split].
  - intros r. rewrite list_elem_of_omap. unfold entryOf, parses. split.
    + intros (m & Hm & He). revert He.
      destruct (time.ParseInLocation _ _ _) as [t|] eqn:Hp; [|done].
      intros [= <-]. by exists m, t.
    + intros (m & t & Hm & Hp & ->). exists m. by rewrite Hp.
  - intros w. rewrite list_elem_of_omap. unfold warningOf, entryOf, parses. split.
    + intros (m & Hm & He). revert He.
      destruct (time.ParseInLocation _ _ _) as [t|] eqn:Hp; [done|].
      intros [= <-]. by exists m.
    + intros (m & Hm & Hp & ->). exists m. by rewrite Hp.
  - intros Hnone. apply omap_all_None. intros m Hm. unfold entryOf.
    specialize (Hnone m Hm). unfold parses in Hnone. by rewrite Hnone.
Qed.

(** A text with a well-formed entry between two entries whose datetimes do
    not parse: the first and the last are logged, the second is extracted. *)
Lemma extraction_skips_unparseable_witness :
  (parseReminderEntries Sample.config
     ("- [ ] Call Ann [due:: tomorrow]" +:+ String "010" Sample.rent
      +:+ String "010" "- [ ] Dentist [due:: 2024-13-01 10:00 AM]")).1
  = [Sample.payRent]
  /\ (parseReminderEntries Sample.config "- [ ] Call Ann [due:: tomorrow]").1 = [].
Proof.
  split.
  - etrans; [apply (proj1 (extraction_skips_unparseable Sample.config _))|].
    reflexivity.
  - apply (proj2 (proj2 (proj2 (proj2
      (extraction_skips_unparseable Sample.config "- [ ] Call Ann [due:: tomorrow]"))))).
    intros m Hm. apply list_elem_of_singleton in Hm. subst m. reflexivity.
Defined.

(* ===================================================================== *)
(** ** The scheduler: the pass at the start *)
(* ===================================================================== *)

(** [Time.Compare] of GoTime orders instants: the result is at most 0
    exactly when the first instant is at or before the second. *)
Lemma Compare_le_0 (t u : GoTime.Time) :
  GoTime.Compare t u <= 0 <->
  GoTime.unix t < GoTime.unix u
  \/ (GoTime.unix t = GoTime.unix u /\ GoTime.nsec t <= GoTime.nsec u).
Proof.
  unfold GoTime.Compare.
  destruct (Z.eqb_spec (GoTime.unix t) (GoTime.unix u)) as [Heq|Hne].
  - destruct (Z.ltb_spec (GoTime.nsec t) (GoTime.nsec u));
      [|destruct (Z.ltb_spec (GoTime.nsec u) (GoTime.nsec t))]; lia.
  - destruct (Z.ltb_spec (GoTime.unix t) (GoTime.unix u));
      [|destruct (Z.ltb_spec (GoTime.unix u) (GoTime.unix t))]; lia.
Qed.

(** C6: the first loop of [remindLoop] runs over the reminders loaded at
    the start, before any tick, and delivers exactly those whose due time
    is at or before the instant read for them ([Compare] at most 0), in
    order; a reminder whose due time is after that instant is not
    delivered by this pass. Everything the ticks deliver comes after. In
    GoTime, [Compare] at most 0 is: at or before, as instants. *)
Theorem catch_up_delivers_overdue `{L : time.Lib} (config : Config)
    (clock : nat -> time.Time) (initial : list Reminder)
    (atTicks : list (list Reminder)) :
  let first := catchUp clock initial {| reads := O; delivered := [] |} in
  delivered first = selected (overdue clock) O initial
  /\ (forall r, r ∈ delivered first <->
        exists i, initial !! i = Some r /\ time.Compare (Time r) (clock i) <= 0)
  /\ (exists later,
        delivered (remindLoop config clock initial atTicks) = delivered first ++ later)
  /\ (forall t u : GoTime.Time,
        @time.Compare GoTime.lib t u <= 0 <->
        GoTime.unix t < GoTime.unix u
        \/ (GoTime.unix t = GoTime.unix u /\ GoTime.nsec t <= GoTime.nsec u)).
Proof.
  intros first. unfold first, catchUp. rewrite fold_visit. simpl.
  split; [done|]. split; [|split].
  - intros r. rewrite elem_of_selected. unfold overdue. simpl.
    by setoid_rewrite Z.leb_le.
  - unfold remindLoop, catchUp. rewrite fold_visit. simpl. apply ticks_extend.
  - apply Compare_le_0.
Qed.

(** At the start on 2 January 2024 with a reminder due the day before and
    one due the day after, the first is delivered and the second is not. *)
Lemma catch_up_delivers_overdue_witness :
  delivered
    (catchUp Sample.clock [Sample.payRent; Sample.callAnn]
       {| reads := O; delivered := [] |})
  = [Sample.payRent].
Proof.
  rewrite (proj1 (catch_up_delivers_overdue Sample.config Sample.clock
                    [Sample.payRent; Sample.callAnn] [])).
  reflexivity.
Defined.

(* ===================================================================== *)
(** ** The scheduler: the ticks *)
(* ===================================================================== *)

Section Ticks.
Context `{L : time.Lib}.
Variable config : Config.
Variable clock : nat -> time.Time.

(** What the ticks add to the deliveries passed the test of a tick. *)
Lemma ticks_deliver_matching (atTicks : list (list Reminder)) (s : Sched) :
  exists later,
    delivered (fold_left (fun s reminders => tick config clock reminders s) atTicks s)
    = delivered s ++ later
    /\ Forall (fun x => exists k, matchesNow config clock k x = true) later.
Proof.
  revert s. induction atTicks as [|rs atTicks IH]; intros s; simpl.
  - exists []. by rewrite app_nil_r.
  - destruct (IH (tick config clock rs s)) as (later & -> & Hlater).
    unfold tick. rewrite fold_visit. simpl.
    exists (selected (matchesNow config clock) (reads s) rs ++ later).
    split; [by rewrite <- app_assoc|].
    apply Forall_app. split; [|done].
    apply Forall_forall. intros x Hx.
    apply elem_of_selected in Hx as (i & _ & Hi). eauto.
Qed.

(** The clock readings made by the ticks: one for each reminder in
    [reminders] at each tick. *)
Lemma ticks_reads (atTicks : list (list Reminder)) (s : Sched) :
  reads (fold_left (fun s reminders => tick config clock reminders s) atTicks s)
  = (reads s + length (concat atTicks))%nat.
Proof.
  revert s. induction atTicks as [|rs atTicks IH]; intros s; cbn [fold_left concat].
  - cbn [length]. lia.
  - rewrite IH. unfold tick. rewrite fold_visit. cbn [reads].
    rewrite length_app. lia.
Qed.

End Ticks.

(** Two instants a minute apart are in different minutes of the hour. *)
Lemma Minute_next (t u : GoTime.Time) :
  GoTime.abs t = GoTime.abs u + 60 -> GoTime.Minute t <> GoTime.Minute u.
Proof.
  unfold GoTime.Minute, GoTime.secondsPerHour, GoTime.secondsPerMinute.
  intros ->. Z.to_euclidean_division_equations. lia.
Qed.

(** The fields that the layouts of the model print are those of the
    minute: the seconds do not count. *)
Lemma same_minute_fields (t u : GoTime.Time) :
  GoTime.abs t / 60 = GoTime.abs u / 60 ->
  GoTime.Year t = GoTime.Year u /\ GoTime.Month t = GoTime.Month u
  /\ GoTime.Day t = GoTime.Day u /\ GoTime.Hour t = GoTime.Hour u
  /\ GoTime.Minute t = GoTime.Minute u.
Proof.
  intros Hm.
  assert (GoTime.abs t / 86400 = GoTime.abs u / 86400) as Hd.
  { change 86400 with (60 * 1440). rewrite <- !Z.div_div by lia. by rewrite Hm. }
  unfold GoTime.Year, GoTime.Month, GoTime.Day, GoTime.Hour, GoTime.Minute,
    GoTime.secondsPerDay, GoTime.secondsPerHour, GoTime.secondsPerMinute.
  rewrite Hd. do 3 (split; [done|]).
  split; Z.to_euclidean_division_equations; lia.
Qed.

Lemma Format_same_minute (t u : GoTime.Time) (layout : string) :
  GoTime.abs t / 60 = GoTime.abs u / 60 ->
  GoTime.Format t layout = GoTime.Format u layout.
Proof.
  intros Hm. destruct (same_minute_fields t u Hm) as (Hy & Hmo & Hd & Hh & Hmi).
  unfold GoTime.Format. destruct (GoTime.supported _); [|done].
  induction (GoTime.chunks layout) as [|[c|s|] cs IH];
    cbn [GoTime.formatChunks]; [done| | |done].
  - by rewrite IH.
  - rewrite IH. f_equal.
    destruct s; cbn [GoTime.formatStd]; by rewrite ?Hy, ?Hmo, ?Hd, ?Hh, ?Hmi.
Qed.

(** C7: at each tick [remindLoop] delivers, in order, exactly the
    reminders of the value of [reminders] at that tick whose due time,
    formatted with the configured format, is the same text as the current
    time read for them, formatted with that format in the configured time
    zone: whatever ticks came before, the deliveries up to and with a tick
    are those up to the tick before, followed by these. The test is no
    threshold: in GoTime, with a format made of the elements of the model
    (none of them is finer than the minute), a reminder whose wall clock
    is in the minute of the clock reading is delivered whatever the
    seconds; and with a format that shows the minute (a two-digit minute
    with only literals and two-character elements of the time of day
    after it, as in the format of the sample configuration, or only such
    before it) a reminder whose wall clock shows another minute of the
    hour has another text and is not delivered at that reading, one due
    one minute later in particular. *)
Theorem tick_delivers_equal_text :
  (forall `{L : time.Lib} (config : Config) (clock : nat -> time.Time)
      (initial : list Reminder) (atTicks : list (list Reminder))
      (reminders : list Reminder),
      let before := remindLoop config clock initial atTicks in
      reads before = (length initial + length (concat atTicks))%nat
      /\ delivered (remindLoop config clock initial (atTicks ++ [reminders]))
         = delivered before
           ++ selected (matchesNow config clock) (reads before) reminders
      /\ (forall r, r ∈ selected (matchesNow config clock) (reads before) reminders <->
            exists i, reminders !! i = Some r
              /\ time.Format (Time r) (ReminderDateTimeFormat config)
                 = time.Format (time.In (clock (reads before + i)%nat) (TimeZone config))
                     (ReminderDateTimeFormat config)))
  /\ (forall (config : @Config GoTime.lib) (clock : nat -> GoTime.Time) (k : nat)
        (r : @Reminder GoTime.lib),
        GoTime.supported (GoTime.chunks (ReminderDateTimeFormat config)) = true ->
        GoTime.abs (Time r) / 60
        = GoTime.abs (GoTime.In (clock k) (TimeZone config)) / 60 ->
        matchesNow config clock k r = true)
  /\ (forall (config : @Config GoTime.lib) (clock : nat -> GoTime.Time) (k : nat)
        (r : @Reminder GoTime.lib),
        GoTime.showsMinute (ReminderDateTimeFormat config) = true ->
        (GoTime.Minute (Time r)
         <> GoTime.Minute (GoTime.In (clock k) (TimeZone config)) ->
         matchesNow config clock k r = false)
        /\ (GoTime.abs (Time r)
            = GoTime.abs (GoTime.In (clock k) (TimeZone config)) + 60 ->
            matchesNow config clock k r = false)).
Proof.
  split; [|split].
  - intros L config clock initial atTicks reminders before.
    assert (reads before = (length initial + length (concat atTicks))%nat) as Hreads.
    { unfold before, remindLoop, catchUp. rewrite ticks_reads, fold_visit.
      cbn [reads]. lia. }
    split; [exact Hreads|]. split.
    + unfold remindLoop at 1. rewrite fold_left_app. cbn [fold_left].
      fold (remindLoop config clock initial atTicks). fold before.
      unfold tick. rewrite fold_visit. reflexivity.
    + intros r. rewrite elem_of_selected. unfold matchesNow.
      by setoid_rewrite String.eqb_eq.
  - intros config clock k r _ Hmin. unfold matchesNow.
    apply String.eqb_eq. by apply Format_same_minute.
  - intros config clock k r Hfmt.
    assert (GoTime.Minute (Time r)
            <> GoTime.Minute (GoTime.In (clock k) (TimeZone config)) ->
            matchesNow config clock k r = false) as Hother.
    { intros Hne. unfold matchesNow. apply String.eqb_neq. intros Heq.
      apply Hne. exact (GoTimeFacts.Format_minute _ _ _ Hfmt Heq). }
    split; [exact Hother|]. intros Hnext. apply Hother. by apply Minute_next.
Qed.

(** Ticks at 09:00:20 on 2 January 2024: the reminder due at 09:00 is
    delivered at each, and the one due at 09:01 is not. *)
Lemma tick_delivers_equal_text_witness :
  delivered
    (remindLoop Sample.config Sample.clock []
       ([[Sample.standUp; Sample.coffee]] ++ [[Sample.coffee; Sample.standUp]]))
  = [Sample.standUp; Sample.standUp]
  /\ matchesNow Sample.config Sample.clock O Sample.standUp = true
  /\ matchesNow Sample.config (fun _ => Time Sample.standUp) O Sample.coffee
     = false.
Proof.
  split; [|split].
  - rewrite (proj1 (proj2 (proj1 tick_delivers_equal_text _ Sample.config
                             Sample.clock [] [[Sample.standUp; Sample.coffee]]
                             [Sample.coffee; Sample.standUp]))).
    reflexivity.
  - apply (proj1 (proj2 tick_delivers_equal_text) Sample.config); reflexivity.
  - apply (proj2 (proj2 (proj2 tick_delivers_equal_text) Sample.config
                    (fun _ => Time Sample.standUp) O Sample.coffee eq_refl));
      reflexivity.
Defined.

(** C10: the pass over the overdue reminders is the first thing
    [remindLoop] does, once, over the reminders loaded at the start;
    whatever is delivered after it passed the test of a tick. So a
    reminder that is not among those loaded at the start, and whose
    formatted due time is at no clock reading the formatted current time,
    is never delivered, whatever the reloads have put in [reminders] at the
    ticks, and also when it is overdue. *)
Theorem late_overdue_reminder_never_delivered `{L : time.Lib} (config : Config)
    (clock : nat -> time.Time) (initial : list Reminder)
    (atTicks : list (list Reminder)) (r : Reminder) :
  (exists later,
     delivered (remindLoop config clock initial atTicks)
     = selected (overdue clock) O initial ++ later
     /\ Forall (fun x => exists k, matchesNow config clock k x = true) later)
  /\ (r ∉ initial ->
      (forall k,
         time.Format (Time r) (ReminderDateTimeFormat config)
         <> time.Format (time.In (clock k) (TimeZone config))
              (ReminderDateTimeFormat config)) ->
      r ∉ delivered (remindLoop config clock initial atTicks)).
Proof.
  unfold remindLoop, catchUp. rewrite fold_visit. simpl.
  destruct (ticks_deliver_matching config clock atTicks
              {| reads := (0 + length initial)%nat;
                 delivered := selected (overdue clock) O initial |})
    as (later & Hd & Hlater).
  simpl in Hd. split; [by exists later|].
  intros Hinit Hnever. rewrite Hd. intros [Hin|Hin]%elem_of_app.
  - apply elem_of_selected in Hin as (i & Hi & _).
    apply Hinit. by eapply list_elem_of_lookup_2.
  - rewrite Forall_forall in Hlater. destruct (Hlater r Hin) as [k Hk].
    unfold matchesNow in Hk. apply String.eqb_eq in Hk. by apply (Hnever k).
Qed.

(** The reminder due on 1 January appears in [reminders] only after the
    start, on 2 January: it is overdue at every tick and never delivered. *)
Lemma late_overdue_reminder_never_delivered_witness :
  overdue Sample.clock O Sample.payRent = true
  /\ Sample.payRent ∉
       delivered (remindLoop Sample.config Sample.clock []
                    [[Sample.payRent]; [Sample.payRent; Sample.callAnn]]).
Proof.
  split; [reflexivity|].
  apply (proj2 (late_overdue_reminder_never_delivered Sample.config Sample.clock []
                  [[Sample.payRent]; [Sample.payRent; Sample.callAnn]] Sample.payRent)).
  - apply not_elem_of_nil.
  - intros k. vm_compute. discriminate.
Defined.

(* ===================================================================== *)
(** ** The extraction of entries: a due value with only a date *)
(* ===================================================================== *)






(* ===================================================================== *)
(** ** The event loop: the reload timers *)
(* ===================================================================== *)

(** C4: from a state without an armed timer, one or more Create or Write
    events for the same note, each read before the timer armed by the one
    before is due, lead to exactly one reload: after them one timer is
    armed, that of the note, for the quiet window after the last of them;
    there is no reload before that instant, and one once it has come.
    Events for notes, each read more than the quiet window after the one
    before, lead to as many reloads as there are events, whether the paths
    are distinct or not, as long as no scan of the notes directory fails. *)
Theorem debounce_coalesces `{L : time.Lib} (config : Config) (fsAt : Z -> os.FS) :
  (forall (name : string) (t : Z) (e : fsnotify.Event)
      (evs : list (Z * fsnotify.Event)) (p : Proc) (until : Z),
      armed (eventTimers p) = ∅ ->
      Forall (fun x => fsnotify.Name x.2 = name /\ isFileChange (fsAt x.1) x.2 = true)
        ((t, e) :: evs) ->
      Sorted withinWindow (t :: map fst evs) ->
      let result := runUntil config fsAt ((t, e) :: evs) until (Running p) in
      armed (eventTimers (proc (run config fsAt ((t, e) :: evs) (Running p))))
      = {[ name := List.last (map fst evs) t + quietWindow ]}
      /\ (until < List.last (map fst evs) t + quietWindow ->
          rebuilds (proc result) = rebuilds p)
      /\ (List.last (map fst evs) t + quietWindow <= until ->
          rebuilds (proc result) = S (rebuilds p)))
  /\ (forall (evs : list (Z * fsnotify.Event)) (p : Proc) (until : Z),
        scansSucceed config fsAt ->
        armed (eventTimers p) = ∅ ->
        Forall (fun x => isFileChange (fsAt x.1) x.2 = true) evs ->
        Sorted isolated (map fst evs) ->
        Forall (fun x => x.1 + quietWindow <= until) evs ->
        exists p', runUntil config fsAt evs until (Running p) = Running p'
          /\ rebuilds p' = (rebuilds p + length evs)%nat).
Proof.
  split.
  - intros name t e evs p until Hp Hall Hs result.
    apply Forall_cons in Hall as [[Hn He] Hall]. cbn [map fst snd] in *.
    destruct (step_rearm config fsAt t e p He (or_introl Hp)) as (p1 & Hstep & Hr1 & Ha1).
    rewrite Hn in Ha1.
    destruct (run_burst config fsAt name evs p1 t Ha1 Hs Hall) as (p' & Hrun & Hr & Ha).
    unfold result, runUntil, run in *. cbn [fold_left]. rewrite Hstep, Hrun.
    cbn [andThen]. split; [exact Ha|]. split; intros Hu.
    + rewrite advance_idle by (eapply due_later; [exact Ha|lia]). simpl. congruence.
    + destruct (advance_one config fsAt until _ name p' Ha Hu) as (-> & -> & _).
      congruence.
  - intros evs p until Hscan Hp Hall Hs Hu.
    destruct evs as [|[t e] evs].
    + exists p. unfold runUntil. simpl. rewrite advance_idle by by apply due_none.
      split; [done|lia].
    + apply Forall_cons in Hall as [He Hall]. cbn [map fst snd] in *.
      destruct (step_rearm config fsAt t e p He (or_introl Hp))
        as (p1 & Hstep & Hr1 & Ha1).
      destruct (run_isolated config fsAt evs p1 _ t Hscan Ha1 Hs Hall)
        as (p' & name' & Hrun & Hr & Ha).
      unfold runUntil, run in *. cbn [fold_left]. rewrite Hstep, Hrun. cbn [andThen].
      assert (List.last (map fst evs) t + quietWindow <= until) as Hlast.
      { clear -Hu. revert t e Hu. induction evs as [|[t' e'] evs IH]; intros t e Hu.
        - by apply Forall_cons in Hu as [? _].
        - apply Forall_cons in Hu as [_ Hu]. simpl map. rewrite last_cons. eauto. }
      destruct (advance_one config fsAt until _ name' p' Ha Hlast) as (-> & Hr' & _).
      unfold fire in *. simpl in *.
      destruct (rebuild_running config
        (fsAt (List.last (map fst evs) t + quietWindow))
        {| reminders := reminders p'; watcher := watcher p';
           eventTimers := <[name' := Stopped]> (eventTimers p');
           logs := logs p'; rebuilds := rebuilds p' |} (Hscan _)) as [p2 Hp2].
      rewrite Hp2 in *. exists p2. split; [done|]. cbn [proc length] in *. lia.
Qed.

(** Three writes of one note within 120 ms are followed by one reload; two
    writes of two notes 200 ms apart are followed by two. *)
Lemma debounce_coalesces_witness :
  rebuilds
    (proc (runUntil Sample.config (fun _ => Sample.notes0)
             [(0, Sample.write "/notes/rent.md");
              (Sample.ms 50, Sample.write "/notes/rent.md");
              (Sample.ms 120, Sample.write "/notes/rent.md")]
             (Sample.ms 1000) (Running Sample.idle)))
  = 1%nat
  /\ exists p',
       runUntil Sample.config (fun _ => Sample.notes0)
         [(0, Sample.write "/notes/rent.md");
          (Sample.ms 200, Sample.write "/notes/todo.md")]
         (Sample.ms 1000) (Running Sample.idle)
       = Running p'
       /\ rebuilds p' = 2%nat.
Proof.
  split.
  - edestruct (proj1 (debounce_coalesces Sample.config (fun _ => Sample.notes0))
                 "/notes/rent.md" 0 (Sample.write "/notes/rent.md")
                 [(Sample.ms 50, Sample.write "/notes/rent.md");
                  (Sample.ms 120, Sample.write "/notes/rent.md")]
                 Sample.idle (Sample.ms 1000)) as (_ & _ & H).
    + reflexivity.
    + repeat constructor; vm_compute; reflexivity.
    + repeat constructor; unfold withinWindow, quietWindow, Sample.ms; simpl; lia.
    + apply H. unfold quietWindow, Sample.ms. simpl. lia.
  - apply (proj2 (debounce_coalesces Sample.config (fun _ => Sample.notes0))
             [(0, Sample.write "/notes/rent.md");
              (Sample.ms 200, Sample.write "/notes/todo.md")]
             Sample.idle (Sample.ms 1000)).
    + intros t. vm_compute. eauto.
    + reflexivity.
    + repeat constructor; vm_compute; reflexivity.
    + repeat constructor; unfold isolated, quietWindow, Sample.ms; simpl; lia.
    + repeat constructor; unfold quietWindow, Sample.ms; simpl; lia.
Defined.

(* ===================================================================== *)
(** ** The event loop: Remove events *)
(* ===================================================================== *)

(** An event that is a Remove and nothing else, for a path with the
    extension [.md]: the step of the event loop is the reload. *)
Lemma handleEvent_remove `{L : time.Lib} (config : Config) (fs : os.FS)
    (now : Z) (e : fsnotify.Event) (p : Proc) :
  fsnotify.Op e = fsnotify.Remove -> filepath.Ext (fsnotify.Name e) = ".md" ->
  handleEvent config fs now e p = rebuild config fs p.
Proof.
  intros Hop Hext. unfold handleEvent, fsnotify.Has. rewrite Hop, Hext. simpl.
  by destruct (rebuild config fs p).
Qed.

(** C5: an event with the Remove bit for a path with the extension [.md]
    (and that is not the creation of a directory) runs
    [reminders = loadReminders(config.NotesDir)] in the step that handles
    it, before anything else is read. An event that is a Remove and
    nothing else does only that: the step is the reload, on the file
    system as it is when the event is handled, and the table of timers is
    left as it was, so that no timer is created or armed. *)
Theorem remove_reloads_at_once `{L : time.Lib} (config : Config) (fs : os.FS)
    (now : Z) (e : fsnotify.Event) (p : Proc) :
  filepath.Ext (fsnotify.Name e) = ".md" ->
  (fsnotify.Has e fsnotify.Remove = true ->
   fsnotify.Has e fsnotify.Create
   && match os.Stat fs (fsnotify.Name e) with
      | Some info => os.IsDir info
      | None => false
      end = false ->
   rebuilds (proc (handleEvent config fs now e p)) = S (rebuilds p))
  /\ (fsnotify.Op e = fsnotify.Remove ->
      handleEvent config fs now e p = rebuild config fs p
      /\ eventTimers (proc (handleEvent config fs now e p)) = eventTimers p
      /\ rebuilds (proc (handleEvent config fs now e p)) = S (rebuilds p)).
Proof.
  intros Hext. split.
  - intros Hrm Hnd. unfold handleEvent. rewrite Hnd, Hext, Hrm. simpl.
    pose proof (rebuild_proc config fs p) as (Hr & _ & _).
    destruct (rebuild config fs p) as [p1|p1]; simpl in *; [|done].
    by destruct (_ || _).
  - intros Hop.
    rewrite (handleEvent_remove config fs now e p Hop Hext).
    pose proof (rebuild_proc config fs p) as (Hr & Ht & _). by repeat split.
Qed.

(** The note [rent.md] is removed: the event reloads at once, and the
    reminder of the note is gone from [reminders]. *)
Lemma remove_reloads_at_once_witness :
  let fs' := {| os.noWatcher := false; os.unwatchable := ∅;
                os.mount := "/notes"; os.top := os.Dir "notes" true [] |} in
  let p := proc (startup Sample.config Sample.notes0) in
  reminders p = [Sample.payRent]
  /\ handleEvent Sample.config fs' 0 (Sample.remove "/notes/rent.md") p
     = rebuild Sample.config fs' p
  /\ reminders (proc (handleEvent Sample.config fs' 0
                        (Sample.remove "/notes/rent.md") p)) = []
  /\ rebuilds (proc (handleEvent Sample.config fs' 0
                       (Sample.remove "/notes/rent.md") p)) = 2%nat.
Proof.
  intros fs' p. split; [reflexivity|].
  destruct (proj2 (remove_reloads_at_once Sample.config fs' 0
                     (Sample.remove "/notes/rent.md") p eq_refl) eq_refl)
    as (H1 & H2 & H3).
  split; [exact H1|]. rewrite H1. split; reflexivity.
Defined.

(* ===================================================================== *)
(** ** The event loop: a scan that fails *)
(* ===================================================================== *)

(** C1, as the claim states it, fails: the notes are loaded at the start,
    then the notes directory cannot be listed any more; the Remove event
    that comes next ends the process. *)
Lemma scan_failure_after_startup_exits :
  let p := proc (startup Sample.config Sample.notes0) in
  startup Sample.config Sample.notes0 = Running p
  /\ reminders p = [Sample.payRent]
  /\ findMarkdownFiles Sample.config Sample.unreadable (NotesDir Sample.config) = None
  /\ handleEvent Sample.config Sample.unreadable 0 (Sample.remove "/notes/rent.md") p
     = Exited {| reminders := reminders p; watcher := watcher p;
                 eventTimers := eventTimers p;
                 logs := logs p ++ [ErrorFindingMarkdownFiles];
                 rebuilds := 2 |}
  /\ ~ (exists p', handleEvent Sample.config Sample.unreadable 0
                     (Sample.remove "/notes/rent.md") p = Running p').
Proof.
  intros p.
  assert (handleEvent Sample.config Sample.unreadable 0
            (Sample.remove "/notes/rent.md") p
          = Exited {| reminders := reminders p; watcher := watcher p;
                      eventTimers := eventTimers p;
                      logs := logs p ++ [ErrorFindingMarkdownFiles];
                      rebuilds := 2 |}) as H by reflexivity.
  do 3 (split; [reflexivity|]). split; [exact H|].
  intros [p' Hp']. rewrite H in Hp'. discriminate Hp'.
Qed.

(** C1, amended: when the scan of the notes directory fails, a reload
    logs the failure and ends the process, whether it is the load at the
    start of [main], the reload of a Remove event, or the reload of a
    timer; [reminders] is not assigned. *)
Theorem scan_failure_ends_process `{L : time.Lib} (config : Config)
    (fsAt : Z -> os.FS) (fs : os.FS) (p : Proc) :
  findMarkdownFiles config fs (NotesDir config) = None ->
  let exited :=
    Exited {| reminders := reminders p; watcher := watcher p;
              eventTimers := eventTimers p;
              logs := logs p ++ [ErrorFindingMarkdownFiles];
              rebuilds := S (rebuilds p) |} in
  loadReminders config fs (NotesDir config) = ([ErrorFindingMarkdownFiles], None)
  /\ rebuild config fs p = exited
  /\ startup config fs
     = Exited {| reminders := []; watcher := ∅; eventTimers := ∅;
                 logs := [ErrorFindingMarkdownFiles]; rebuilds := 1 |}
  /\ (forall now e,
        fsnotify.Op e = fsnotify.Remove -> filepath.Ext (fsnotify.Name e) = ".md" ->
        handleEvent config fs now e p = exited)
  /\ (forall x,
        fsAt x.2 = fs ->
        exists p', fire config fsAt p x = Exited p'
          /\ reminders p' = reminders p
          /\ logs p' = logs p ++ [ErrorFindingMarkdownFiles]).
Proof.
  intros Hscan exited.
  assert (loadReminders config fs (NotesDir config)
          = ([ErrorFindingMarkdownFiles], None)) as Hload.
  { unfold loadReminders. by rewrite Hscan. }
  assert (forall q, rebuild config fs q
            = Exited {| reminders := reminders q; watcher := watcher q;
                        eventTimers := eventTimers q;
                        logs := logs q ++ [ErrorFindingMarkdownFiles];
                        rebuilds := S (rebuilds q) |}) as Hrebuild.
  { intros q. unfold rebuild. by rewrite Hload. }
  split; [done|]. split; [apply Hrebuild|]. split; [|split].
  - unfold startup. by rewrite Hrebuild.
  - intros now e Hop Hext.
    rewrite (handleEvent_remove config fs now e p Hop Hext). apply Hrebuild.
  - intros x Hx. unfold fire. rewrite Hx, Hrebuild. eexists. by repeat split.
Qed.

(** The load at the start and a reload by a timer, when the notes
    directory cannot be listed. *)
Lemma scan_failure_ends_process_witness :
  startup Sample.config Sample.unreadable
  = Exited {| reminders := []; watcher := ∅; eventTimers := ∅;
              logs := [ErrorFindingMarkdownFiles]; rebuilds := 1 |}
  /\ exists p',
       fire Sample.config (fun _ => Sample.unreadable)
         (proc (startup Sample.config Sample.notes0)) ("/notes/rent.md", 100)
       = Exited p'
       /\ reminders p' = [Sample.payRent].
Proof.
  pose proof (scan_failure_ends_process Sample.config (fun _ => Sample.unreadable)
                Sample.unreadable (proc (startup Sample.config Sample.notes0))
                eq_refl) as (_ & _ & Hstart & _ & Hfire).
  split; [exact Hstart|].
  destruct (Hfire ("/notes/rent.md", 100) eq_refl) as (p' & Hp' & Hr & _).
  exists p'. split; [exact Hp'|]. rewrite Hr. reflexivity.
Defined.

(* ===================================================================== *)
(** ** The event loop: the creation of a directory *)
(* ===================================================================== *)

(** What the event loop does for a Create event whose path is a
    directory: the path itself is added to the watcher, unless the system
    refuses it, whatever its name and whatever is beneath it, and nothing
    else happens. *)
Lemma create_directory_adds_path `{L : time.Lib} (config : Config) (fs : os.FS)
    (now : Z) (e : fsnotify.Event) (p : Proc) (info : os.node) :
  fsnotify.Has e fsnotify.Create = true ->
  os.Stat fs (fsnotify.Name e) = Some info -> os.IsDir info = true ->
  handleEvent config fs now e p
  = Running {| reminders := reminders p;
               watcher := if decide (fsnotify.Name e ∈ os.unwatchable fs)
                          then watcher p
                          else {[ fsnotify.Name e ]} ∪ watcher p;
               eventTimers := eventTimers p; logs := logs p;
               rebuilds := rebuilds p |}.
Proof.
  intros Hc Hs Hd. unfold handleEvent, fsnotify.Add. rewrite Hc, Hs, Hd.
  by destruct (decide _).
Qed.

(** C3, on the code: the notes directory is watched from the start; a
    directory [new] that holds a directory [sub] appears, and the Create
    event for [new] adds [new] to the watcher and not [sub], which
    [watchDirRecursive] on [new] would have added; a directory [templates],
    a name of the ignore-set, appears, and its Create event adds it to the
    watcher, where [watchDirRecursive] would have left it out. *)
Lemma create_directory_is_not_recursive :
  let p := proc (startup Sample.config Sample.notes0) in
  let p1 :=
    proc (handleEvent Sample.config Sample.notes 0 (Sample.create "/notes/new") p) in
  let p2 :=
    proc (handleEvent Sample.config Sample.notes 0
            (Sample.create "/notes/templates") p1) in
  watcher p = {[ "/notes" ]}
  /\ (os.IsDir <$> os.Stat Sample.notes "/notes/new/sub") = Some true
  /\ watcher p1 = {[ "/notes/new" ]} ∪ {[ "/notes" ]}
  /\ ("/notes/new/sub" ∉ watcher p1)
  /\ (watchDirRecursive Sample.config Sample.notes (watcher p) "/notes/new").1
     = {[ "/notes/new/sub" ]} ∪ ({[ "/notes/new" ]} ∪ {[ "/notes" ]})
  /\ contains (IgnoredDirs Sample.config) "templates" = true
  /\ ("/notes/templates" ∈ watcher p2)
  /\ (watchDirRecursive Sample.config Sample.notes (watcher p1) "/notes/templates").1
     = watcher p1.
Proof.
  intros p p1 p2.
  assert (watcher p = {[ "/notes" ]}) as Hp by (vm_compute; reflexivity).
  assert (watcher p1 = {[ "/notes/new" ]} ∪ {[ "/notes" ]}) as Hp1
    by (vm_compute; reflexivity).
  assert (watcher p2 = {[ "/notes/templates" ]} ∪ watcher p1) as Hp2
    by (vm_compute; reflexivity).
  split; [exact Hp|]. split; [vm_compute; reflexivity|]. split; [exact Hp1|].
  split.
  { rewrite Hp1. intros [H|H]%elem_of_union; apply elem_of_singleton in H;
      discriminate H. }
  split; [vm_compute; reflexivity|]. split; [vm_compute; reflexivity|].
  split; [rewrite Hp2; apply elem_of_union_l; by apply elem_of_singleton|].
  vm_compute. reflexivity.
Qed.

(* ===================================================================== *)
(** ** The entry pattern: texts without the marks of an entry *)
(* ===================================================================== *)

(** A pattern with a literal text in it matches only where the text
    occurs: it finds nothing in a text that does not contain the literal. *)
Section NeedsLiteral.
Import regexp.
Variable w : string.

Lemma Contains_tail c s :
  Strings.Contains (String c s) w = false -> Strings.Contains s w = false.
Proof. simpl. by intros [_ H]%orb_false_iff. Qed.

Lemma Contains_prefix s :
  Strings.Contains s w = false -> String.prefix w s = false.
Proof. destruct s; simpl; by intros [H _]%orb_false_iff. Qed.

Lemma star_greedy_None (rest : option ascii -> nat -> string -> option slots) k s :
  (forall s', Strings.Contains s' w = false -> forall prev pos, rest prev pos s' = None) ->
  Strings.Contains s w = false ->
  forall prev pos, star_greedy rest k prev pos s = None.
Proof.
  intros Hrest. induction s as [|c s IH]; intros Hs prev pos; simpl.
  - by apply Hrest.
  - rewrite (Hrest _ Hs). rewrite IH by (by eapply Contains_tail).
    by destruct (class_matches k c).
Qed.

Lemma star_lazy_None (rest : option ascii -> nat -> string -> option slots) k s :
  (forall s', Strings.Contains s' w = false -> forall prev pos, rest prev pos s' = None) ->
  Strings.Contains s w = false ->
  forall prev pos, star_lazy rest k prev pos s = None.
Proof.
  intros Hrest. induction s as [|c s IH]; intros Hs prev pos; simpl.
  - by rewrite (Hrest _ Hs).
  - rewrite (Hrest _ Hs). rewrite IH by (by eapply Contains_tail).
    by destruct (class_matches k c).
Qed.

(** A pattern that starts with the literal matches at a position only when
    the literal is there. *)
Lemma run_lit_prefix (p : list inst) cs prev pos s r :
  run (lit w ++ p) cs prev pos s = Some r -> String.prefix w s = true.
Proof.
  revert cs prev pos s. induction w as [|a w' IH]; intros cs prev pos s; simpl.
  - by destruct s.
  - destruct s as [|d s]; [done|].
    destruct (Ascii.eqb_spec d a) as [->|]; [|done].
    intros H%IH. simpl. by destruct (ascii_dec a a).
Qed.

Lemma run_needs_literal (p1 p2 : list inst) cs prev pos s :
  Strings.Contains s w = false -> run (p1 ++ lit w ++ p2) cs prev pos s = None.
Proof.
  revert cs prev pos s. induction p1 as [|i p1 IH]; intros cs prev pos s Hs.
  - simpl. destruct (run _ _ _ _ _) eqn:E; [|done].
    apply run_lit_prefix in E. by rewrite (Contains_prefix s Hs) in E.
  - destruct i as [c|[] k| | |j]; simpl.
    + destruct s as [|d s]; [done|].
      destruct (Ascii.eqb d c); [|done]. apply IH. by eapply Contains_tail.
    + apply star_greedy_None; [|done]. intros. by apply IH.
    + apply star_lazy_None; [|done]. intros. by apply IH.
    + destruct (at_bol prev); [by apply IH|done].
    + destruct (at_eol s); [by apply IH|done].
    + by apply IH.
Qed.

Lemma matches_from_needs_literal (p1 p2 : list inst) s :
  Strings.Contains s w = false ->
  forall prev pos skip, matches_from (p1 ++ lit w ++ p2) prev pos skip s = [].
Proof.
  induction s as [|c s IH]; intros Hs prev pos skip; simpl.
  - destruct skip; [|done]. by rewrite run_needs_literal.
  - rewrite IH by (by eapply Contains_tail).
    destruct skip; [|done]. by rewrite run_needs_literal.
Qed.

End NeedsLiteral.

(** The two literals of the entry pattern: the box and the start of the
    field. *)
Lemma reg_box :
  reg = [regexp.BeginLine; regexp.Star true (regexp.OneOf " ")]
        ++ regexp.lit "- [ ]"
        ++ regexp.Star true (regexp.OneOf " ") :: regexp.Cap 2
           :: regexp.Star true regexp.AnyNotNL :: afterTitle.
Proof. reflexivity. Qed.

Lemma reg_field :
  reg = ([regexp.BeginLine; regexp.Star true (regexp.OneOf " ")]
         ++ regexp.lit "- [ ]"
         ++ [regexp.Star true (regexp.OneOf " "); regexp.Cap 2;
             regexp.Star true regexp.AnyNotNL; regexp.Cap 3])
        ++ regexp.lit " [due:: "
        ++ List.skipn 9 afterTitle.
Proof. reflexivity. Qed.

(** X1: a text in which the box "- [ ]" does not occur, or in which the
    start of a field " [due:: " does not occur, has no match of the entry
    pattern: [parseReminderEntries] returns no reminder and logs nothing.
    So a text of checked tasks only, or of tasks without a due field, gives
    no reminders. *)
Theorem no_marker_no_entries `{L : time.Lib} (config : Config) (fileContents : string) :
  Strings.Contains fileContents "- [ ]" = false
  \/ Strings.Contains fileContents " [due:: " = false ->
  regexp.FindAllSubmatch reg 2 fileContents = []
  /\ parseReminderEntries config fileContents = ([], []).
Proof.
  intros H.
  assert (regexp.FindAllSubmatch reg 2 fileContents = []) as Hm.
  { unfold regexp.FindAllSubmatch. destruct H as [H|H].
    - rewrite reg_box. by rewrite matches_from_needs_literal.
    - rewrite reg_field. by rewrite matches_from_needs_literal. }
  split; [done|]. unfold parseReminderEntries. by rewrite Hm.
Qed.

(** A text of checked tasks, and a text of a task without a field. *)
Lemma no_marker_no_entries_witness :
  parseReminderEntries Sample.config
    ("- [x] Pay rent [due:: 2024-01-01]" +:+ String "010" "- [X] Call Ann")
  = ([], [])
  /\ parseReminderEntries Sample.config "- [ ] Call Ann (due tomorrow)" = ([], []).
Proof.
  split.
  - apply (no_marker_no_entries Sample.config). left. reflexivity.
  - apply (no_marker_no_entries Sample.config). right. reflexivity.
Defined.

(* ===================================================================== *)
(** ** The entry pattern: one line at a time *)
(* ===================================================================== *)

(** The anchors and the classes of the entry pattern keep a match within
    a line: what follows the first line feed of a text has no part in the
    matches of the first line, and is matched as a text of its own. *)
Section Lines.
Import regexp.

Lemma class_matches_nl g k :
  lineInst (Star g k) = true -> class_matches k "010"%char = false.
Proof.
  destruct k as [c|]; unfold lineInst, class_matches; [|done].
  intros H%negb_true_iff. by rewrite Ascii.eqb_sym.
Qed.

Lemma ContainsRune_cons c s r :
  Strings.ContainsRune (String c s) r = false ->
  Ascii.eqb c r = false /\ Strings.ContainsRune s r = false.
Proof. simpl. by intros [? ?]%orb_false_iff. Qed.

Lemma star_greedy_line rest k tail :
  class_matches k "010"%char = false ->
  (forall l prev pos, Strings.ContainsRune l "010"%char = false ->
     rest prev pos (l +:+ String "010"%char tail) = rest prev pos l) ->
  forall l prev pos, Strings.ContainsRune l "010"%char = false ->
  star_greedy rest k prev pos (l +:+ String "010"%char tail) = star_greedy rest k prev pos l.
Proof.
  intros Hk Hrest. induction l as [|c l IH]; intros prev pos Hl.
  - rewrite GoTimeFacts.app_Empty. simpl. rewrite Hk.
    by rewrite <- (Hrest "" prev pos).
  - rewrite GoTimeFacts.app_String. simpl.
    apply ContainsRune_cons in Hl as Hl'. destruct Hl' as [_ Hl'].
    rewrite IH by done. rewrite <- GoTimeFacts.app_String. by rewrite Hrest.
Qed.

Lemma star_lazy_line rest k tail :
  class_matches k "010"%char = false ->
  (forall l prev pos, Strings.ContainsRune l "010"%char = false ->
     rest prev pos (l +:+ String "010"%char tail) = rest prev pos l) ->
  forall l prev pos, Strings.ContainsRune l "010"%char = false ->
  star_lazy rest k prev pos (l +:+ String "010"%char tail) = star_lazy rest k prev pos l.
Proof.
  intros Hk Hrest. induction l as [|c l IH]; intros prev pos Hl.
  - rewrite GoTimeFacts.app_Empty. simpl. rewrite Hk.
    by rewrite <- (Hrest "" prev pos).
  - rewrite GoTimeFacts.app_String. simpl.
    apply ContainsRune_cons in Hl as Hl'. destruct Hl' as [_ Hl'].
    rewrite IH by done. rewrite <- GoTimeFacts.app_String. by rewrite Hrest.
Qed.

(** A pattern that cannot match a line feed sees of a text its first line
    only. *)
Lemma run_line p tail :
  forallb lineInst p = true ->
  forall cs prev pos l, Strings.ContainsRune l "010"%char = false ->
  run p cs prev pos (l +:+ String "010"%char tail) = run p cs prev pos l.
Proof.
  induction p as [|i p IH]; intros Hp cs prev pos l Hl; [done|].
  apply andb_true_iff in Hp as [Hi Hp]. specialize (IH Hp).
  destruct i as [c|g k| | |j].
  - unfold lineInst in Hi. apply negb_true_iff in Hi.
    destruct l as [|d l].
    + rewrite GoTimeFacts.app_Empty. cbn [run]. by rewrite Ascii.eqb_sym, Hi.
    + rewrite GoTimeFacts.app_String. cbn [run].
      apply ContainsRune_cons in Hl as [_ Hl]. by rewrite IH.
  - apply class_matches_nl in Hi.
    destruct g; simpl.
    + apply star_greedy_line; auto.
    + apply star_lazy_line; auto.
  - simpl. by rewrite IH.
  - simpl. rewrite IH by done.
    destruct l; [by rewrite GoTimeFacts.app_Empty|by rewrite GoTimeFacts.app_String].
  - simpl. by rewrite IH.
Qed.

(** A repetition that matches hands over to what follows it at a later
    position of the same text. *)
Lemma star_greedy_Some rest k s : forall prev pos r,
  star_greedy rest k prev pos s = Some r ->
  exists prev' pos' s', rest prev' pos' s' = Some r
    /\ (pos <= pos')%nat /\ (pos' + String.length s' = pos + String.length s)%nat.
Proof.
  induction s as [|c s IH]; intros prev pos r; simpl.
  - intros H. exists prev, pos, "". by repeat split.
  - assert (rest prev pos (String c s) = Some r ->
      exists prev' pos' s', rest prev' pos' s' = Some r
        /\ (pos <= pos')%nat
        /\ (pos' + String.length s' = pos + S (String.length s))%nat) as Hhere.
    { intros H. exists prev, pos, (String c s). by repeat split. }
    destruct (class_matches k c); [|done].
    destruct (star_greedy rest k (Some c) (S pos) s) as [r'|] eqn:E; [|done].
    intros [= <-]. apply IH in E as (prev' & pos' & s' & ? & ? & ?).
    exists prev', pos', s'. split; [done|]. lia.
Qed.

Lemma star_lazy_Some rest k s : forall prev pos r,
  star_lazy rest k prev pos s = Some r ->
  exists prev' pos' s', rest prev' pos' s' = Some r
    /\ (pos <= pos')%nat /\ (pos' + String.length s' = pos + String.length s)%nat.
Proof.
  induction s as [|c s IH]; intros prev pos r; simpl.
  - destruct (rest prev pos "") eqn:E; [|done]. intros [= <-].
    exists prev, pos, "". by repeat split.
  - destruct (rest prev pos (String c s)) eqn:E.
    { intros [= <-]. exists prev, pos, (String c s). by repeat split. }
    destruct (class_matches k c); [|done].
    intros (prev' & pos' & s' & ? & ? & ?)%IH.
    exists prev', pos', s'. split; [done|]. lia.
Qed.

(** The slots of a match: the end of the match, then the captures of the
    pattern, the last one first, then the slots given; every position lies
    in the text that was matched against. *)
Lemma run_slots p : forall cs prev pos s r,
  run p cs prev pos s = Some r ->
  exists new, r = new ++ cs /\ map fst new = 1%nat :: rev (caps p)
    /\ Forall (fun x => (pos <= x.2 <= pos + String.length s)%nat) new.
Proof.
  induction p as [|i p IH]; intros cs prev pos s r.
  - simpl. intros [= <-]. exists [(1%nat, pos)]. repeat split.
    apply Forall_singleton. simpl. lia.
  - assert (forall prev' pos' s',
      run p cs prev' pos' s' = Some r ->
      (pos <= pos')%nat -> (pos' + String.length s' <= pos + String.length s)%nat ->
      exists new, r = new ++ cs /\ map fst new = 1%nat :: rev (caps p)
        /\ Forall (fun x => (pos <= x.2 <= pos + String.length s)%nat) new) as Hsub.
    { intros prev' pos' s' (new & -> & Hk & Hb)%IH ? ?.
      exists new. repeat split; [done|]. eapply Forall_impl; [exact Hb|].
      simpl. intros. lia. }
    destruct i as [c|g k| | |j]; simpl.
    + destruct s as [|d s]; [done|]. destruct (Ascii.eqb d c); [|done].
      intros H. apply Hsub in H; simpl; [done|lia|lia].
    + destruct g.
      * intros (prev' & pos' & s' & H & ? & ?)%star_greedy_Some.
        apply Hsub in H; [done|lia|lia].
      * intros (prev' & pos' & s' & H & ? & ?)%star_lazy_Some.
        apply Hsub in H; [done|lia|lia].
    + destruct (at_bol prev); [|done]. intros H. apply Hsub in H; [done|lia|lia].
    + destruct (at_eol s); [|done]. intros H. apply Hsub in H; [done|lia|lia].
    + intros (new & -> & Hk & Hb)%IH.
      exists (new ++ [(j, pos)]). rewrite <- app_assoc. split; [done|].
      split.
      * rewrite map_app, Hk. simpl. done.
      * apply Forall_app. split; [done|]. apply Forall_singleton. simpl. lia.
Qed.

Lemma star_greedy_shift n rest1 rest2 k :
  (forall prev1 prev2 pos s, at_bol prev1 = at_bol prev2 ->
     rest1 prev1 (n + pos)%nat s = shift n <$> rest2 prev2 pos s) ->
  forall s prev1 prev2 pos, at_bol prev1 = at_bol prev2 ->
  star_greedy rest1 k prev1 (n + pos)%nat s = shift n <$> star_greedy rest2 k prev2 pos s.
Proof.
  intros Hrest. induction s as [|c s IH]; intros prev1 prev2 pos Hprev; simpl.
  - by apply Hrest.
  - rewrite <- Nat.add_succ_r. rewrite (IH (Some c) (Some c)) by done.
    rewrite (Hrest prev1 prev2) by done.
    destruct (class_matches k c); [|done].
    by destruct (star_greedy rest2 k (Some c) (S pos) s).
Qed.

Lemma star_lazy_shift n rest1 rest2 k :
  (forall prev1 prev2 pos s, at_bol prev1 = at_bol prev2 ->
     rest1 prev1 (n + pos)%nat s = shift n <$> rest2 prev2 pos s) ->
  forall s prev1 prev2 pos, at_bol prev1 = at_bol prev2 ->
  star_lazy rest1 k prev1 (n + pos)%nat s = shift n <$> star_lazy rest2 k prev2 pos s.
Proof.
  intros Hrest. induction s as [|c s IH]; intros prev1 prev2 pos Hprev; simpl.
  - rewrite (Hrest prev1 prev2) by done. by destruct (rest2 prev2 pos "").
  - rewrite <- Nat.add_succ_r. rewrite (IH (Some c) (Some c)) by done.
    rewrite (Hrest prev1 prev2) by done.
    destruct (rest2 prev2 pos (String c s)); [done|].
    by destruct (class_matches k c).
Qed.

(** A match does not depend on where the text starts, but for its
    positions. *)
Lemma run_shift n p : forall cs prev1 prev2 pos s,
  at_bol prev1 = at_bol prev2 ->
  run p (shift n cs) prev1 (n + pos)%nat s = shift n <$> run p cs prev2 pos s.
Proof.
  induction p as [|i p IH]; intros cs prev1 prev2 pos s Hprev; [done|].
  destruct i as [c|g k| | |j]; simpl.
  - destruct s as [|d s]; [done|]. destruct (Ascii.eqb d c); [|done].
    rewrite <- Nat.add_succ_r. by apply IH.
  - destruct g.
    + apply star_greedy_shift; [|done]. intros. by apply IH.
    + apply star_lazy_shift; [|done]. intros. by apply IH.
  - rewrite Hprev. destruct (at_bol prev2) eqn:E; [apply IH; congruence|done].
  - destruct (at_eol s); [by apply IH|done].
  - by apply (IH ((j, pos) :: cs)).
Qed.

(** A match ends within the text. *)
Lemma run_end p cs prev pos s r :
  run p cs prev pos s = Some r ->
  exists e r', r = (1%nat, e) :: r' /\ (pos <= e <= pos + String.length s)%nat.
Proof.
  intros (new & -> & Hk & Hb)%run_slots.
  destruct new as [|[k e] new]; [done|]. simpl in Hk. injection Hk as -> _.
  apply Forall_cons in Hb as [Hb _]. by exists e, (new ++ cs).
Qed.

Lemma matches_from_shift n p s : forall prev1 prev2 pos skip,
  at_bol prev1 = at_bol prev2 ->
  matches_from p prev1 (n + pos)%nat skip s
  = map (shift n) (matches_from p prev2 pos skip s).
Proof.
  induction s as [|c s IH]; intros prev1 prev2 pos skip Hprev; simpl.
  - destruct skip; [|done].
    rewrite (run_shift n p [(O, pos)] prev1 prev2) by done.
    by destruct (run p [(O, pos)] prev2 pos "").
  - rewrite <- Nat.add_succ_r. destruct skip.
    + rewrite (run_shift n p [(O, pos)] prev1 prev2) by done.
      destruct (run p [(O, pos)] prev2 pos (String c s)) as [cs|] eqn:E; simpl.
      * f_equal. apply run_end in E as (e & r' & -> & He). simpl.
        replace (n + e - (n + pos) - 1)%nat with (e - pos - 1)%nat by lia.
        by apply IH.
      * by apply IH.
    + by apply IH.
Qed.

(** Inside a line nothing matches a pattern that starts with [^]. *)
Lemma matches_from_inside p l tail : forall prev pos skip,
  at_bol prev = false -> Strings.ContainsRune l "010"%char = false ->
  matches_from (BeginLine :: p) prev pos skip l = []
  /\ ((skip <= S (String.length l))%nat ->
      matches_from (BeginLine :: p) prev pos skip (l +:+ String "010"%char tail)
      = matches_from (BeginLine :: p) (Some "010"%char) (S (pos + String.length l)) 0 tail).
Proof.
  induction l as [|c l IH]; intros prev pos skip Hprev Hl.
  - rewrite GoTimeFacts.app_Empty. simpl. rewrite Hprev. split.
    + by destruct skip.
    + intros Hskip. rewrite Nat.add_0_r.
      replace (skip - 1)%nat with O by lia. by destruct skip.
  - rewrite GoTimeFacts.app_String. simpl. rewrite Hprev.
    apply ContainsRune_cons in Hl as [Hc Hl].
    destruct (IH (Some c) (S pos) (skip - 1)%nat Hc Hl) as [IH1 IH2].
    split.
    + by destruct skip.
    + intros Hskip. rewrite IH2 by lia.
      replace (S (S pos + String.length l)) with (S (pos + S (String.length l))) by lia.
      by destruct skip.
Qed.

(** The matches of a text are those of its first line and those of the
    lines after it. *)
Lemma matches_from_line p l tail :
  forallb lineInst p = true -> Strings.ContainsRune l "010"%char = false ->
  matches_from (BeginLine :: p) None 0 0 (l +:+ String "010"%char tail)
  = matches_from (BeginLine :: p) None 0 0 l
    ++ map (shift (S (String.length l))) (matches_from (BeginLine :: p) None 0 0 tail).
Proof.
  intros Hp Hl.
  assert (forallb lineInst (BeginLine :: p) = true) as Hp' by done.
  assert (forall n, matches_from (BeginLine :: p) (Some "010"%char) n 0 tail
          = map (shift n) (matches_from (BeginLine :: p) None 0 0 tail)) as Htail.
  { intros n. rewrite <- (Nat.add_0_r n) at 1. by apply matches_from_shift. }
  destruct l as [|c l].
  - rewrite GoTimeFacts.app_Empty.
    cbn [matches_from].
    change (String "010"%char tail) with ("" +:+ String "010"%char tail) at 1.
    rewrite (run_line _ tail Hp' [(O, O)] None O "") by done.
    destruct (run (BeginLine :: p) [(O, O)] None 0 "") as [cs|] eqn:E.
    + apply run_end in E as (e & r' & -> & He). simpl in He.
      replace e with O by lia. cbn [slot Nat.eqb]. simpl. f_equal. apply Htail.
    + simpl. apply Htail.
  - rewrite GoTimeFacts.app_String.
    cbn [matches_from].
    rewrite <- GoTimeFacts.app_String.
    rewrite (run_line _ tail Hp' [(O, O)] None O (String c l)) by done.
    apply ContainsRune_cons in Hl as [Hc Hl].
    destruct (run (BeginLine :: p) [(O, O)] None 0 (String c l)) as [cs|] eqn:E.
    + apply run_end in E as (e & r' & -> & He). simpl in He.
      cbn [slot Nat.eqb].
      destruct (matches_from_inside p l tail (Some c) 1 (e - 0 - 1)%nat Hc Hl)
        as [-> ->]; [|lia].
      simpl. f_equal. apply Htail.
    + destruct (matches_from_inside p l tail (Some c) 1 (0 - 1)%nat Hc Hl)
        as [-> ->]; [|simpl; lia].
      simpl. apply Htail.
Qed.

End Lines.

(** The texts of the groups, for the matches of the first line and for
    those of the lines after it. *)
Section Groups.
Import regexp.

Lemma substring_app_l a len x y :
  (a + len <= String.length x)%nat ->
  substring a len (x +:+ y) = substring a len x.
Proof.
  revert a len. induction x as [|c x IH]; intros a len H; simpl in H.
  - assert (a = O) as -> by lia. assert (len = O) as -> by lia.
    rewrite GoTimeFacts.app_Empty. by destruct y.
  - rewrite GoTimeFacts.app_String. destruct a as [|a]; simpl.
    + destruct len as [|len]; [done|]. rewrite IH by lia. done.
    + apply IH. lia.
Qed.

Lemma substring_app_r a len x y :
  substring (String.length x + a) len (x +:+ y) = substring a len y.
Proof.
  induction x as [|c x IH]; [done|]. rewrite GoTimeFacts.app_String. simpl. apply IH.
Qed.

Lemma string_length_app (x y : string) :
  String.length (x +:+ y) = (String.length x + String.length y)%nat.
Proof.
  induction x as [|c x IH]; [done|]. rewrite GoTimeFacts.app_String. simpl. by rewrite IH.
Qed.

(** Every match that is found is a match of the pattern at some position
    of the text. *)
Lemma matches_from_run p s : forall prev pos skip cs,
  cs ∈ matches_from p prev pos skip s ->
  exists prev' pos' s', run p [(O, pos')] prev' pos' s' = Some cs
    /\ (pos <= pos')%nat /\ (pos' + String.length s' = pos + String.length s)%nat.
Proof.
  induction s as [|c s IH]; intros prev pos skip cs.
  - simpl. destruct skip; [|by intros ?%elem_of_nil].
    destruct (run p [(O, pos)] prev pos "") as [r|] eqn:E; [|by intros ?%elem_of_nil].
    intros ->%list_elem_of_singleton. exists prev, pos, "". by repeat split.
  - cbn [matches_from].
    assert (forall k, cs ∈ matches_from p (Some c) (S pos) k s ->
      exists prev' pos' s', run p [(O, pos')] prev' pos' s' = Some cs
        /\ (pos <= pos')%nat
        /\ (pos' + String.length s' = pos + String.length (String c s))%nat) as Hrec.
    { intros k (prev' & pos' & s' & ? & ? & ?)%IH. exists prev', pos', s'.
      split; [done|]. simpl. lia. }
    destruct skip; [|by apply Hrec].
    destruct (run p [(O, pos)] prev pos (String c s)) as [r|] eqn:E; [|by apply Hrec].
    intros [->|Hin]%elem_of_cons; [|by eapply Hrec].
    exists prev, pos, (String c s). by repeat split.
Qed.

(** The slots of a match of the entry pattern. *)
Lemma reg_slots prev pos s cs :
  run reg [(O, pos)] prev pos s = Some cs ->
  exists e p5 p4 p3 p2,
    cs = [(1, e); (5, p5); (4, p4); (3, p3); (2, p2); (0, pos)]%nat
    /\ Forall (fun x => (pos <= x <= pos + String.length s)%nat) [e; p5; p4; p3; p2].
Proof.
  intros (new & -> & Hk & Hb)%run_slots.
  change (rev (caps reg)) with [5; 4; 3; 2]%nat in Hk.
  destruct new as [|[k1 e] [|[k2 p5] [|[k3 p4] [|[k4 p3] [|[k5 p2] [|? ?]]]]]];
    try discriminate Hk.
  injection Hk as -> -> -> -> ->.
  exists e, p5, p4, p3, p2. split; [done|].
  repeat (apply Forall_cons in Hb as [? Hb]). repeat (apply Forall_cons; split; [done|]).
  done.
Qed.

Lemma groups_first_line l y cs :
  cs ∈ matches_from reg None 0 0 l ->
  map (group (l +:+ y) cs) (seq 0 3) = map (group l cs) (seq 0 3).
Proof.
  intros (prev' & pos' & s' & Hrun & _ & Hlen)%matches_from_run.
  apply reg_slots in Hrun as (e & p5 & p4 & p3 & p2 & -> & Hb).
  repeat (apply Forall_cons in Hb as [? Hb]).
  cbn [seq map]. unfold group. cbn [slot Nat.eqb Nat.mul Nat.add].
  rewrite !substring_app_l by lia. done.
Qed.

Lemma groups_shift x y cs :
  cs ∈ matches_from reg None 0 0 y ->
  map (group (x +:+ y) (shift (String.length x) cs)) (seq 0 3)
  = map (group y cs) (seq 0 3).
Proof.
  intros (prev' & pos' & s' & Hrun & _ & Hlen)%matches_from_run.
  apply reg_slots in Hrun as (e & p5 & p4 & p3 & p2 & -> & Hb).
  cbn [seq map]. unfold group, shift. cbn [map fst snd slot Nat.eqb Nat.mul Nat.add].
  rewrite !substring_app_r.
  by replace (String.length x + e - (String.length x + pos'))%nat with (e - pos')%nat by lia;
  replace (String.length x + p3 - (String.length x + p2))%nat with (p3 - p2)%nat by lia;
  replace (String.length x + p5 - (String.length x + p4))%nat with (p5 - p4)%nat by lia.
Qed.

Lemma FindAllSubmatch_line (l tail : string) :
  Strings.ContainsRune l "010" = false ->
  FindAllSubmatch reg 2 (l +:+ String "010" tail)
  = FindAllSubmatch reg 2 l ++ FindAllSubmatch reg 2 tail.
Proof.
  intros Hl. unfold FindAllSubmatch.
  change reg with (BeginLine :: List.tl reg) at 1.
  rewrite matches_from_line by done.
  change (BeginLine :: List.tl reg) with reg.
  rewrite map_app. f_equal.
  - apply map_ext_in. intros cs Hcs%list_elem_of_In. by apply groups_first_line.
  - rewrite map_map. apply map_ext_in. intros cs Hcs%list_elem_of_In.
    replace (l +:+ String "010" tail) with ((l +:+ String "010" "") +:+ tail).
    2:{ rewrite <- GoTimeFacts.string_app_assoc. done. }
    replace (S (String.length l)) with (String.length (l +:+ String "010" "")).
    2:{ rewrite string_length_app. simpl. lia. }
    by apply groups_shift.
Qed.

End Groups.

(** X2: the entry pattern works one line at a time. The matches of a text
    are the matches of its first line followed by the matches of the text
    after the first line feed, with the same groups; so the reminders and
    the warnings of [parseReminderEntries] for the text are those of the
    first line followed by those of the rest. *)
Theorem entries_line_by_line `{L : time.Lib} (config : Config) (line rest : string) :
  Strings.ContainsRune line "010" = false ->
  regexp.FindAllSubmatch reg 2 (line +:+ String "010" rest)
  = regexp.FindAllSubmatch reg 2 line ++ regexp.FindAllSubmatch reg 2 rest
  /\ (parseReminderEntries config (line +:+ String "010" rest)).1
     = (parseReminderEntries config line).1 ++ (parseReminderEntries config rest).1
  /\ (parseReminderEntries config (line +:+ String "010" rest)).2
     = (parseReminderEntries config line).2 ++ (parseReminderEntries config rest).2.
Proof.
  intros Hl. pose proof (FindAllSubmatch_line line rest Hl) as Hm.
  split; [done|]. rewrite !parseReminderEntries_omap, Hm. simpl.
  by rewrite !omap_app.
Qed.

(** Two entries on two lines. *)
Lemma entries_line_by_line_witness :
  regexp.FindAllSubmatch reg 2
    ("- [ ] Call Ann [due:: tomorrow]" +:+ String "010" Sample.rent)
  = regexp.FindAllSubmatch reg 2 "- [ ] Call Ann [due:: tomorrow]"
    ++ regexp.FindAllSubmatch reg 2 Sample.rent.
Proof.
  apply (entries_line_by_line Sample.config "- [ ] Call Ann [due:: tomorrow]"
           Sample.rent eq_refl).
Defined.

(* ===================================================================== *)
(** ** The entry pattern: the line of an entry *)
(* ===================================================================== *)

(** The run of the pattern on the line of an entry, from the end of the
    line backwards: the trailer, the due text, the field, the title, the
    box. *)
Section EntryLine.
Import regexp.

Lemma matchesAll_dot a :
  Strings.ContainsRune a "010" = false -> matchesAll AnyNotNL a.
Proof.
  unfold matchesAll. induction a as [|c a IH]; simpl; [constructor|].
  intros [Hc Ha]%orb_false_iff. constructor; [|by apply IH].
  unfold class_matches. by rewrite Hc.
Qed.

Lemma matchesAll_Repeat c n : matchesAll (OneOf c) (Strings.Repeat c n).
Proof.
  unfold matchesAll. induction n as [|n IH]; simpl; constructor; [|done].
  unfold class_matches. apply Ascii.eqb_refl.
Qed.

Lemma length_Repeat c n : String.length (Strings.Repeat c n) = n.
Proof. induction n as [|n IH]; simpl; [done|by rewrite IH]. Qed.

Lemma ContainsRune_app a b r :
  Strings.ContainsRune (a +:+ b) r
  = Strings.ContainsRune a r || Strings.ContainsRune b r.
Proof.
  induction a as [|c a IH]; [done|]. rewrite GoTimeFacts.app_String. simpl.
  by rewrite IH, orb_assoc.
Qed.

Lemma ContainsRune_Repeat c n r :
  Ascii.eqb c r = false -> Strings.ContainsRune (Strings.Repeat c n) r = false.
Proof. intros H. induction n as [|n IH]; simpl; [done|by rewrite H, IH]. Qed.

(** A greedy repetition goes through a text it can match when what
    follows matches from there. *)
Lemma star_greedy_through rest k a b r :
  matchesAll k a ->
  forall pos,
  (forall prev, star_greedy rest k prev (pos + String.length a)%nat b = Some r) ->
  forall prev, star_greedy rest k prev pos (a +:+ b) = Some r.
Proof.
  unfold matchesAll. induction a as [|c a IH]; simpl; intros Ha pos Hb prev.
  - rewrite GoTimeFacts.app_Empty. rewrite <- (Hb prev). by rewrite Nat.add_0_r.
  - apply Forall_cons in Ha as [-> Ha].
    rewrite (IH Ha (S pos)); [done|].
    intros prev'. rewrite <- (Hb prev'). f_equal. lia.
Qed.

(** A greedy repetition finds nothing where what follows it matches
    nowhere. *)
Lemma star_greedy_fails rest k (ok : string -> bool) :
  (forall c s, ok (String c s) = true -> ok s = true) ->
  (forall prev pos s, ok s = true -> rest prev pos s = None) ->
  forall s prev pos, ok s = true -> star_greedy rest k prev pos s = None.
Proof.
  intros Htail Hrest. induction s as [|c s IH]; intros prev pos Hs; simpl.
  - by apply Hrest.
  - rewrite IH by (by eapply Htail). rewrite Hrest by done.
    by destruct (class_matches k c).
Qed.

Lemma fieldFree_tail c s : fieldFree (String c s) = true -> fieldFree s = true.
Proof.
  simpl. intros H%negb_true_iff. destruct s as [|d s]; [done|].
  simpl in *. apply orb_false_iff in H as [_ ->]. done.
Qed.

(** Two lists of slots with the same keys are equal when their positions
    are. *)
Ltac slots_eq :=
  repeat match goal with
         | |- Some _ = Some _ => f_equal
         | |- _ :: _ = _ :: _ => f_equal
         | |- (_, _) = (_, _) => f_equal
         end; try done; try (simpl; lia).

(** The equations of the matcher. *)
Lemma run_Cap i p cs prev pos s :
  run (Cap i :: p) cs prev pos s = run p ((i, pos) :: cs) prev pos s.
Proof. done. Qed.

Lemma run_Char c p cs prev pos d s :
  run (Char c :: p) cs prev pos (String d s)
  = if Ascii.eqb d c then run p cs (Some d) (S pos) s else None.
Proof. done. Qed.

Lemma run_Star_greedy k p cs prev pos s :
  run (Star true k :: p) cs prev pos s = star_greedy (run p cs) k prev pos s.
Proof. done. Qed.

Lemma run_Star_lazy k p cs prev pos s :
  run (Star false k :: p) cs prev pos s = star_lazy (run p cs) k prev pos s.
Proof. done. Qed.

Lemma run_EndLine cs prev pos :
  run [EndLine] cs prev pos "" = Some ((1%nat, pos) :: cs).
Proof. done. Qed.

Lemma star_greedy_nil rest k prev pos :
  star_greedy rest k prev pos "" = rest prev pos "".
Proof. done. Qed.

Lemma star_greedy_cons rest k prev pos c s :
  star_greedy rest k prev pos (String c s)
  = if class_matches k c then
      match star_greedy rest k (Some c) (S pos) s with
      | Some r => Some r
      | None => rest prev pos (String c s)
      end
    else rest prev pos (String c s).
Proof. done. Qed.

Lemma star_lazy_eq rest k prev pos s :
  star_lazy rest k prev pos s
  = match rest prev pos s with
    | Some r => Some r
    | None =>
        match s with
        | String c s' =>
            if class_matches k c then star_lazy rest k (Some c) (S pos) s' else None
        | EmptyString => None
        end
    end.
Proof. by destruct s. Qed.

Variables (title dt trailer : string).
Hypothesis Htitle : Strings.ContainsRune title "010" = false.
Hypothesis Hstart : Strings.HasPrefix title " " = false.
Hypothesis Hdt : Strings.ContainsRune dt "010" = false.
Hypothesis Hdt1 : Strings.ContainsRune dt "[" = false.
Hypothesis Hdt2 : Strings.ContainsRune dt "]" = false.
Hypothesis Htr : Strings.ContainsRune trailer "010" = false.
Hypothesis Htr1 : Strings.ContainsRune trailer "[" = false.

(** The last repetition takes the trailer to the end of the line. *)
Lemma run_trailer cs : forall prev pos,
  run [Star true AnyNotNL; EndLine] cs prev pos trailer
  = Some ((1%nat, (pos + String.length trailer)%nat) :: cs).
Proof.
  clear Htr1. revert Htr. intros Ht prev pos. rewrite run_Star_greedy.
  revert Ht prev pos.
  induction trailer as [|c t IH]; intros Ht prev pos.
  - rewrite star_greedy_nil, run_EndLine. simpl. by rewrite Nat.add_0_r.
  - apply ContainsRune_cons in Ht as [Hc Ht]. rewrite star_greedy_cons.
    unfold class_matches at 1. rewrite Hc. cbn [negb].
    rewrite (IH Ht). slots_eq.
Qed.

(** The lazy repetition takes the due text up to the first closing
    bracket. *)
Lemma run_due cs : forall prev pos,
  run [Star false AnyNotNL; Cap 5; Char "]"; Star true AnyNotNL; EndLine] cs prev pos
    (dt +:+ "]" +:+ trailer)
  = Some ((1%nat, (pos + String.length dt + 1 + String.length trailer)%nat)
          :: (5%nat, (pos + String.length dt)%nat) :: cs).
Proof.
  clear Hdt1. revert Hdt Hdt2. intros Hd Hd2 prev pos. rewrite run_Star_lazy.
  revert Hd Hd2 prev pos.
  induction dt as [|c d IH]; intros Hd Hd2 prev pos.
  - rewrite GoTimeFacts.app_Empty, GoTimeFacts.app_String, GoTimeFacts.app_Empty.
    rewrite star_lazy_eq, run_Cap, run_Char. cbn [Ascii.eqb Bool.eqb].
    rewrite run_trailer. slots_eq.
  - apply ContainsRune_cons in Hd as [Hc Hd]. apply ContainsRune_cons in Hd2 as [Hc2 Hd2].
    rewrite GoTimeFacts.app_String. rewrite star_lazy_eq, run_Cap, run_Char, Hc2.
    unfold class_matches at 1. rewrite Hc. cbn [negb].
    rewrite (IH Hd Hd2 (Some c) (S pos)). slots_eq.
Qed.
Lemma afterTitle_list :
  afterTitle
  = [Cap 3; Char " "; Char "["; Char "d"; Char "u"; Char "e"; Char ":"; Char ":";
     Char " "; Cap 4; Star false AnyNotNL; Cap 5; Char "]"; Star true AnyNotNL;
     EndLine].
Proof. done. Qed.

Lemma run_dueField cs prev pos :
  run afterTitle cs prev pos (dueField dt trailer)
  = Some ((1%nat, (pos + 8 + String.length dt + 1 + String.length trailer)%nat)
          :: (5%nat, (pos + 8 + String.length dt)%nat)
          :: (4%nat, (pos + 8)%nat) :: (3%nat, pos) :: cs).
Proof.
  rewrite afterTitle_list. unfold dueField.
  rewrite !GoTimeFacts.app_String, GoTimeFacts.app_Empty.
  rewrite run_Cap.
  do 8 (rewrite run_Char; cbn [Ascii.eqb Bool.eqb andb]).
  rewrite run_Cap, run_due. slots_eq.
Qed.

(** No field starts in a text that has no opening bracket after its first
    character. *)
Lemma run_afterTitle_None cs prev pos s :
  fieldFree s = true -> run afterTitle cs prev pos s = None.
Proof.
  rewrite afterTitle_list, run_Cap. destruct s as [|c [|d s]]; [done| |].
  - intros _. rewrite run_Char. by destruct (Ascii.eqb c " ").
  - intros H. rewrite run_Char. destruct (Ascii.eqb c " "); [|done].
    rewrite run_Char. simpl in H. apply negb_true_iff, orb_false_iff in H as [-> _].
    done.
Qed.

Lemma fieldFree_dueField :
  fieldFree (String "[" ("due:: " +:+ dt +:+ "]" +:+ trailer)) = true.
Proof.
  unfold fieldFree. rewrite !ContainsRune_app, Hdt1, Htr1. done.
Qed.

(** The greedy repetition of the title goes to the end of the line and
    comes back to the last place where a field starts. *)
Lemma run_title cs prev pos :
  run (Star true AnyNotNL :: afterTitle) cs prev pos (title +:+ dueField dt trailer)
  = Some ((1%nat, (pos + String.length title + 8 + String.length dt + 1
                   + String.length trailer)%nat)
          :: (5%nat, (pos + String.length title + 8 + String.length dt)%nat)
          :: (4%nat, (pos + String.length title + 8)%nat)
          :: (3%nat, (pos + String.length title)%nat) :: cs).
Proof.
  rewrite run_Star_greedy. apply star_greedy_through; [by apply matchesAll_dot|].
  intros prev'. rewrite <- run_dueField with (prev := prev').
  unfold dueField at 1. rewrite GoTimeFacts.app_String, star_greedy_cons.
  change (class_matches AnyNotNL " ") with true. cbv iota.
  rewrite (star_greedy_fails _ _ fieldFree fieldFree_tail); [done| |].
  - intros. by apply run_afterTitle_None.
  - apply fieldFree_dueField.
Qed.

Lemma reg_afterTitle :
  reg = BeginLine :: Star true (OneOf " ") :: Char "-" :: Char " " :: Char "["
        :: Char " " :: Char "]" :: Star true (OneOf " ") :: Cap 2
        :: Star true AnyNotNL :: afterTitle.
Proof. done. Qed.

Lemma run_BeginLine p cs pos s :
  run (BeginLine :: p) cs None pos s = run p cs None pos s.
Proof. done. Qed.

(** The slots of the match of the line of an entry. *)
Lemma run_entryLine (n k : nat) :
  run reg [(O, O)] None 0 (entryLine n k title dt trailer)
  = Some [(1, n + 5 + k + String.length title + 8 + String.length dt + 1
              + String.length trailer);
          (5, n + 5 + k + String.length title + 8 + String.length dt);
          (4, n + 5 + k + String.length title + 8);
          (3, n + 5 + k + String.length title);
          (2, n + 5 + k); (0, 0)]%nat.
Proof.
  unfold entryLine. rewrite reg_afterTitle, run_BeginLine, run_Star_greedy.
  apply star_greedy_through; [apply matchesAll_Repeat|].
  intros prev1. rewrite length_Repeat.
  rewrite !GoTimeFacts.app_String, GoTimeFacts.app_Empty.
  rewrite star_greedy_cons. change (class_matches (OneOf " ") "-") with false.
  cbv iota.
  do 5 (rewrite run_Char; cbn [Ascii.eqb Bool.eqb andb]).
  rewrite run_Star_greedy.
  apply star_greedy_through; [apply matchesAll_Repeat|].
  intros prev2. rewrite length_Repeat.
  pose proof (run_title [(2, 0 + 5 + n + k); (0, 0)]%nat prev2 (0 + 5 + n + k)%nat)
    as Hgo.
  assert (run (Cap 2 :: Star true AnyNotNL :: afterTitle) [(O, O)] prev2
            (S (S (S (S (S (0 + n))))) + k)%nat (title +:+ dueField dt trailer)
          = Some [(1, n + 5 + k + String.length title + 8 + String.length dt + 1
              + String.length trailer);
          (5, n + 5 + k + String.length title + 8 + String.length dt);
          (4, n + 5 + k + String.length title + 8);
          (3, n + 5 + k + String.length title);
          (2, n + 5 + k); (0, 0)]%nat) as Hrest.
  { rewrite run_Cap.
    replace (S (S (S (S (S (0 + n))))) + k)%nat with (0 + 5 + n + k)%nat by lia.
    rewrite Hgo. slots_eq. }
  assert (title = "" \/ exists c t, title = String c t /\ Ascii.eqb c " " = false)
    as [Et|(c & t & Et & Hc)].
  { revert Hstart. unfold Strings.HasPrefix.
    destruct title as [|c t]; [by left|]. right. exists c, t. split; [done|].
    revert Hstart. simpl. destruct (ascii_dec " " c) as [<-|Hc]; [by destruct t|].
    intros _. apply Ascii.eqb_neq. congruence. }
  - rewrite Et in Hrest |- *. rewrite GoTimeFacts.app_Empty in *. unfold dueField in *.
    rewrite !GoTimeFacts.app_String, GoTimeFacts.app_Empty in *.
    rewrite star_greedy_cons. change (class_matches (OneOf " ") " ") with true.
    cbv iota. rewrite star_greedy_cons.
    change (class_matches (OneOf " ") "[") with false. cbv iota.
    rewrite run_Cap, run_Star_greedy.
    rewrite (star_greedy_fails _ _ fieldFree fieldFree_tail); [exact Hrest| |].
    + intros. by apply run_afterTitle_None.
    + apply fieldFree_dueField.
  - rewrite Et in Hrest |- *.
    rewrite GoTimeFacts.app_String in *. rewrite star_greedy_cons.
    unfold class_matches at 1. rewrite Hc. exact Hrest.
Qed.

End EntryLine.

(** The groups of the match of the line of an entry. *)
Section EntryLineGroups.
Import regexp.

Lemma substring_all s : substring 0 (String.length s) s = s.
Proof. induction s as [|c s IH]; simpl; [done|by rewrite IH]. Qed.

Lemma substring_mid pre mid post :
  substring (String.length pre) (String.length mid) (pre +:+ mid +:+ post) = mid.
Proof.
  rewrite <- (Nat.add_0_r (String.length pre)), substring_app_r.
  rewrite substring_app_l by lia. apply substring_all.
Qed.

Lemma matches_from_single p text r :
  Strings.ContainsRune text "010" = false ->
  run (BeginLine :: p) [(O, O)] None 0 text = Some r ->
  matches_from (BeginLine :: p) None 0 0 text = [r].
Proof.
  intros Ht Hr. destruct text as [|c s]; cbn [matches_from]; rewrite Hr; [done|].
  apply ContainsRune_cons in Ht as [Hc Ht]. f_equal.
  by apply (matches_from_inside p s "").
Qed.

Lemma FindAllSubmatch_entryLine (n k : nat) (title dt trailer : string) :
  Strings.ContainsRune title "010" = false ->
  Strings.HasPrefix title " " = false ->
  Strings.ContainsRune dt "010" = false ->
  Strings.ContainsRune dt "[" = false ->
  Strings.ContainsRune dt "]" = false ->
  Strings.ContainsRune trailer "010" = false ->
  Strings.ContainsRune trailer "[" = false ->
  FindAllSubmatch reg 2 (entryLine n k title dt trailer)
  = [[entryLine n k title dt trailer; title; dt]].
Proof.
  intros Ht Hs Hd Hd1 Hd2 Hr Hr1.
  pose proof (run_entryLine title dt trailer Ht Hs Hd Hd1 Hd2 Hr Hr1 n k) as Hrun.
  unfold FindAllSubmatch.
  assert (Strings.ContainsRune (entryLine n k title dt trailer) "010" = false)
    as Hline.
  { unfold entryLine, dueField. rewrite !ContainsRune_app, Ht, Hd, Hr.
    by rewrite !ContainsRune_Repeat. }
  pose proof (matches_from_single (List.tl reg) _ _ Hline Hrun) as Hone.
  change (BeginLine :: List.tl reg) with reg in Hone. rewrite Hone. clear Hone Hrun.
  cbn [map seq]. unfold group. cbn [slot Nat.eqb Nat.mul Nat.add].
  do 2 f_equal; [|f_equal; [|f_equal]].
  - rewrite Nat.sub_0_r.
    replace (_ + _)%nat with (String.length (entryLine n k title dt trailer)).
    { apply substring_all. }
    unfold entryLine, dueField. rewrite !string_length_app, !length_Repeat. simpl. lia.
  - replace (_ - _)%nat with (String.length title) by lia.
    replace (entryLine n k title dt trailer)
      with ((Strings.Repeat " " n +:+ "- [ ]" +:+ Strings.Repeat " " k)
            +:+ title +:+ dueField dt trailer).
    2:{ unfold entryLine. by rewrite <- !GoTimeFacts.string_app_assoc. }
    replace (n + 5 + k)%nat
      with (String.length (Strings.Repeat " " n +:+ "- [ ]" +:+ Strings.Repeat " " k)).
    { apply substring_mid. }
    rewrite !string_length_app, !length_Repeat. simpl. lia.
  - replace (_ - _)%nat with (String.length dt) by lia.
    replace (entryLine n k title dt trailer)
      with ((Strings.Repeat " " n +:+ "- [ ]" +:+ Strings.Repeat " " k +:+ title
             +:+ " [due:: ") +:+ dt +:+ "]" +:+ trailer).
    2:{ unfold entryLine, dueField. by rewrite <- !GoTimeFacts.string_app_assoc. }
    replace (n + 5 + k + String.length title + 8)%nat
      with (String.length
              (Strings.Repeat " " n +:+ "- [ ]" +:+ Strings.Repeat " " k +:+ title
               +:+ " [due:: ")).
    { apply substring_mid. }
    rewrite !string_length_app, !length_Repeat. simpl. lia.
Qed.

End EntryLineGroups.

(** X3: the line of an entry is read back as it was written. Let a line
    be made of [n] spaces, the box "- [ ]", [k] spaces, a title, the field
    " [due:: dt]" and a trailer, where the title is on one line and does not
    start with a space, the due text [dt] has no line feed and no bracket,
    and the trailer has no line feed and no opening bracket. Then the
    pattern matches the line once, the group [title] is the title (with the
    spaces at its end, and with the fields it may contain: the last field
    of a line is the one that counts) and the group [remind] is [dt]; and
    [parseReminderEntries] returns the one reminder of that title when the
    datetime parses, and one warning when it does not. *)
Theorem entry_line_extracted `{L : time.Lib} (config : Config) (n k : nat)
    (title dt trailer : string) :
  Strings.ContainsRune title "010" = false ->
  Strings.HasPrefix title " " = false ->
  Strings.ContainsRune dt "010" = false ->
  Strings.ContainsRune dt "[" = false ->
  Strings.ContainsRune dt "]" = false ->
  Strings.ContainsRune trailer "010" = false ->
  Strings.ContainsRune trailer "[" = false ->
  let line :=
    Strings.Repeat " " n +:+ "- [ ]" +:+ Strings.Repeat " " k +:+ title
    +:+ " [due:: " +:+ dt +:+ "]" +:+ trailer in
  regexp.FindAllSubmatch reg 2 line = [[line; title; dt]]
  /\ parseReminderEntries config line
     = match time.ParseInLocation (ReminderDateTimeFormat config)
               (datetimeOf config [line; title; dt]) (TimeZone config) with
       | Some t => ([{| Title := title; Time := t |}], [])
       | None => ([], [WarnInvalidDatetime (datetimeOf config [line; title; dt])])
       end.
Proof.
  intros Ht Hs Hd Hd1 Hd2 Hr Hr1 line.
  pose proof (FindAllSubmatch_entryLine n k title dt trailer Ht Hs Hd Hd1 Hd2 Hr Hr1)
    as Hm.
  change (entryLine n k title dt trailer) with line in Hm.
  split; [done|]. unfold parseReminderEntries. rewrite Hm. cbn [fold_left].
  unfold parseEntry. cbn [nth]. by destruct (time.ParseInLocation _ _ _).
Qed.

(** An indented entry with two fields and a tag after them: the first
    field is part of the title. *)
Lemma entry_line_extracted_witness :
  regexp.FindAllSubmatch reg 2
    "  - [ ] Pay rent [due:: old] [due:: 2024-01-01] #home"
  = [["  - [ ] Pay rent [due:: old] [due:: 2024-01-01] #home";
      "Pay rent [due:: old]"; "2024-01-01"]].
Proof.
  apply (entry_line_extracted Sample.config 2 1 "Pay rent [due:: old]" "2024-01-01"
           " #home" eq_refl eq_refl eq_refl eq_refl eq_refl eq_refl eq_refl).
Defined.

(* ===================================================================== *)
(** ** The default time of day *)
(* ===================================================================== *)

(** [strings.Split] at spaces gives one field exactly for a text without a
    space. *)
Lemma Split_one (s : string) :
  Nat.eqb (length (Strings.Split s " ")) 1 = negb (Strings.ContainsRune s " ").
Proof.
  induction s as [|c s IH]; [done|]. cbn [Strings.Split Strings.ContainsRune].
  destruct (Ascii.eqb c " "); cbn [orb negb].
  - pose proof (GoTimeFacts.Split_nonempty s " ").
    by destruct (Strings.Split s " ").
  - rewrite <- IH. pose proof (GoTimeFacts.Split_nonempty s " ").
    by destruct (Strings.Split s " ").
Qed.

(** X4: the default time of day is appended to the due text of a match
    exactly when the due text, with the white space at its ends trimmed,
    holds no space character; a space and the default follow it then. A due
    text with a space in it is parsed as it is. (The test counts the fields
    that [strings.Split] cuts at spaces: a tab does not separate.) *)
Theorem default_time_of_one_word `{L : time.Lib} (config : Config) (m : list string) :
  let due := Strings.TrimSpace (nth 2 m EmptyString) in
  datetimeOf config m
  = if Strings.ContainsRune due " " then due
    else due +:+ " " +:+ DefaultReminderTimeOfDay config.
Proof.
  intros due. unfold datetimeOf. fold due. rewrite Split_one.
  by destruct (Strings.ContainsRune due " ").
Qed.

(* ===================================================================== *)
(** ** The white space around a due text *)
(* ===================================================================== *)

(** The reverse of a text. *)
Section Reverse.

Lemma String_rev_app_acc (s acc : string) :
  String.rev_app s acc = String.rev_app s "" +:+ acc.
Proof.
  revert acc. induction s as [|c s IH]; intros acc; [done|]. simpl.
  rewrite (IH (String c acc)), (IH (String c "")).
  rewrite <- GoTimeFacts.string_app_assoc. done.
Qed.

Lemma String_rev_app_app (a b acc : string) :
  String.rev_app (a +:+ b) acc = String.rev_app b (String.rev_app a acc).
Proof.
  revert acc. induction a as [|c a IH]; intros acc; [done|].
  rewrite GoTimeFacts.app_String. simpl. apply IH.
Qed.

Lemma String_rev_app_length (s acc : string) :
  String.length (String.rev_app s acc) = (String.length s + String.length acc)%nat.
Proof.
  revert acc. induction s as [|c s IH]; intros acc; [done|]. simpl.
  rewrite IH. simpl. lia.
Qed.

Lemma String_rev_app (a b : string) :
  String.rev (a +:+ b) = String.rev b +:+ String.rev a.
Proof.
  unfold String.rev. rewrite String_rev_app_app. apply String_rev_app_acc.
Qed.

Lemma String_rev_length (s : string) :
  String.length (String.rev s) = String.length s.
Proof. unfold String.rev. rewrite String_rev_app_length. simpl. lia. Qed.

End Reverse.

(** [strings.TrimSpace] on a text with white space around it. *)
Section Trim.

Lemma lead_cases x :
  Strings.lead x = true -> In x ["009"; "010"; "011"; "012"; "013"; " "; "194"; "225"; "226"; "227"]%char.
Proof.
  unfold Strings.lead. rewrite !orb_true_iff, !Ascii.eqb_eq.
  intros [[[[H| ->]| ->]| ->]| ->]; simpl; auto 12.
  destruct x as [[] [] [] [] [] [] [] []]; try discriminate H; simpl; auto 12.
Qed.


Lemma isSpace2_lead c d : Strings.isSpace2 c d = true -> Strings.lead d = false.
Proof.
  unfold Strings.isSpace2. rewrite andb_true_iff, orb_true_iff, !Ascii.eqb_eq.
  by intros [_ [->| ->]].
Qed.

Lemma isSpace3_lead c d e :
  Strings.isSpace3 c d e = true -> Strings.lead d = false /\ Strings.lead e = false.
Proof.
  unfold Strings.isSpace3.
  rewrite !orb_true_iff, !andb_true_iff, !orb_true_iff, !andb_true_iff, !Ascii.eqb_eq.
  intros H. split.
  - destruct H as [[[[[_ ->] _]|[[_ ->] _]]|[[_ ->] _]]|[[_ ->] _]]; done.
  - destruct (Strings.lead e) eqn:He; [|done]. exfalso.
    apply lead_cases in He. simpl in He.
    destruct H as [[[[[_ _] ->]|[[_ _] H]]|[[_ _] ->]]|[[_ _] ->]];
      try (by repeat destruct He as [He|He]).
    repeat (destruct He as [<-|He]; [by destruct H as [[[[? ?]|?]|?]|?]|]).
    done.
Qed.

(** A text of white space is empty or starts with the first byte of a
    white space. *)
Lemma allSpace_lead b :
  Strings.allSpace b -> b = "" \/ exists x r, b = String x r /\ Strings.lead x = true.
Proof.
  intros [|w s Hw _]; [by left|]. right.
  unfold Strings.whiteSpace in Hw. simpl in Hw.
  repeat (destruct Hw as [<-|Hw]; [by eexists _, _|]). done.
Qed.

Lemma trim_white (w s : string) :
  In w Strings.whiteSpace -> Strings.trim false (w +:+ s) = Strings.trim false s.
Proof.
  unfold Strings.whiteSpace. simpl. intros Hw.
  repeat (destruct Hw as [<-|Hw]; [done|]). done.
Qed.

Lemma trim_back_white (w s : string) :
  In w Strings.whiteSpace ->
  Strings.trim true (String.rev w +:+ s) = Strings.trim true s.
Proof.
  unfold Strings.whiteSpace. simpl. intros Hw.
  repeat (destruct Hw as [<-|Hw]; [done|]). done.
Qed.

Lemma TrimLeft_pad (a s : string) :
  Strings.allSpace a -> Strings.TrimLeft (a +:+ s) = Strings.TrimLeft s.
Proof.
  unfold Strings.TrimLeft. induction 1 as [|w a Hw Ha IH]; [done|].
  by rewrite <- GoTimeFacts.string_app_assoc, trim_white.
Qed.

Lemma trim_back_pad (b x : string) :
  Strings.allSpace b ->
  Strings.trim true (String.rev b +:+ x) = Strings.trim true x.
Proof.
  intros Hb. revert x. induction Hb as [|w b Hw Hb IH]; intros x; [done|].
  rewrite String_rev_app, <- GoTimeFacts.string_app_assoc, IH.
  by apply trim_back_white.
Qed.

Lemma TrimRight_pad (s b : string) :
  Strings.allSpace b -> Strings.TrimRight (s +:+ b) = Strings.TrimRight s.
Proof.
  intros Hb. unfold Strings.TrimRight. by rewrite String_rev_app, trim_back_pad.
Qed.

(** What [trim] returns is the text itself or a shorter one. *)
Lemma trim_shorter (back : bool) (n : nat) : forall s : string,
  (String.length s <= n)%nat ->
  Strings.trim back s = s
  \/ (String.length (Strings.trim back s) < String.length s)%nat.
Proof.
  induction n as [|n IH]; intros s Hn.
  - destruct s; [by left|simpl in Hn; lia].
  - assert (forall r : string, (String.length r <= n)%nat ->
              (String.length (Strings.trim back r) <= String.length r)%nat) as Hle.
    { intros r Hr. destruct (IH r Hr) as [->|?]; lia. }
    destruct s as [|c s1]; [by left|]. cbn [String.length] in Hn.
    cbn [Strings.trim]. destruct (Strings.isSpace c).
    { right. specialize (Hle s1). cbn [String.length]. lia. }
    destruct s1 as [|d s2]; [by left|]. cbn [String.length] in Hn.
    destruct (if back then _ else _).
    { right. specialize (Hle s2). cbn [String.length]. lia. }
    destruct s2 as [|e s3]; [by left|]. cbn [String.length] in Hn.
    destruct (if back then _ else _); [|by left].
    right. specialize (Hle s3). cbn [String.length]. lia.
Qed.

Lemma trim_length (back : bool) (s : string) :
  (String.length (Strings.trim back s) <= String.length s)%nat.
Proof. destruct (trim_shorter back _ s (le_n _)) as [->|?]; lia. Qed.

Lemma trim_full (back : bool) (s : string) :
  (String.length s <= String.length (Strings.trim back s))%nat ->
  Strings.trim back s = s.
Proof. intros H. destruct (trim_shorter back _ s (le_n _)) as [?|?]; [done|lia]. Qed.

(** A text that [strings.TrimSpace] leaves as it is neither starts nor
    ends with white space. *)
Lemma TrimSpace_fixed (s : string) :
  Strings.TrimSpace s = s ->
  Strings.TrimLeft s = s /\ Strings.TrimRight s = s.
Proof.
  unfold Strings.TrimSpace, Strings.TrimRight, Strings.TrimLeft. intros H.
  pose proof (f_equal String.length H) as Hlen.
  rewrite String_rev_length in Hlen.
  pose proof (trim_length true (String.rev (Strings.trim false s))) as H1.
  rewrite String_rev_length in H1.
  pose proof (trim_length false s) as H2.
  assert (Strings.trim false s = s) as Hl by (apply trim_full; lia).
  split; [done|]. by rewrite Hl in H.
Qed.

(** White space after a text that starts with none brings none to its
    start. *)
Lemma TrimLeft_keeps (s b : string) :
  s <> "" -> Strings.TrimLeft s = s -> Strings.allSpace b ->
  Strings.TrimLeft (s +:+ b) = s +:+ b.
Proof.
  unfold Strings.TrimLeft. intros Hs Hl Hb%allSpace_lead.
  destruct s as [|c s1]; [done|]. clear Hs.
  cbn [Strings.trim] in Hl. rewrite GoTimeFacts.app_String. cbn [Strings.trim].
  destruct (Strings.isSpace c).
  { pose proof (trim_length false s1) as H. rewrite Hl in H. simpl in H. lia. }
  destruct s1 as [|d s2].
  { rewrite GoTimeFacts.app_Empty.
    destruct Hb as [->|(x & r & -> & Hx)]; [done|].
    destruct (Strings.isSpace2 c x) eqn:H2.
    { apply isSpace2_lead in H2. congruence. }
    destruct r as [|y r]; [done|].
    destruct (Strings.isSpace3 c x y) eqn:H3; [|done].
    apply isSpace3_lead in H3 as [H3 _]. congruence. }
  rewrite GoTimeFacts.app_String.
  destruct (Strings.isSpace2 c d).
  { pose proof (trim_length false s2) as H. rewrite Hl in H. simpl in H. lia. }
  destruct s2 as [|e s3].
  { rewrite GoTimeFacts.app_Empty.
    destruct Hb as [->|(x & r & -> & Hx)]; [done|].
    destruct (Strings.isSpace3 c d x) eqn:H3; [|done].
    apply isSpace3_lead in H3 as [_ H3]. congruence. }
  rewrite GoTimeFacts.app_String.
  destruct (Strings.isSpace3 c d e); [|done].
  pose proof (trim_length false s3) as H. rewrite Hl in H. simpl in H. lia.
Qed.

Lemma TrimLeft_allSpace (b : string) : Strings.allSpace b -> Strings.TrimLeft b = "".
Proof.
  intros Hb. pose proof (TrimLeft_pad b "" Hb) as H.
  assert (b +:+ "" = b) as Hnil.
  { clear. induction b as [|c b IH]; [done|]. by rewrite GoTimeFacts.app_String, IH. }
  by rewrite Hnil in H.
Qed.

Lemma TrimSpace_pad (a s b : string) :
  Strings.allSpace a -> Strings.allSpace b -> Strings.TrimSpace s = s ->
  Strings.TrimSpace (a +:+ s +:+ b) = s.
Proof.
  intros Ha Hb Hs. destruct (TrimSpace_fixed s Hs) as [Hl Hr].
  unfold Strings.TrimSpace. rewrite TrimLeft_pad by done.
  destruct (decide (s = "")) as [->|Hne].
  - rewrite GoTimeFacts.app_Empty. by rewrite TrimLeft_allSpace.
  - by rewrite TrimLeft_keeps, TrimRight_pad.
Qed.

End Trim.

(** X15: the white space around the due text of a match does not count,
    whichever characters of [unicode.IsSpace] it is made of. A due text
    that [strings.TrimSpace] leaves as it is, written with white space
    before it and after it, gives the same text to [time.ParseInLocation]
    as the due text by itself; so it gets the default time of day when it
    is one word, whatever white space surrounds it in the field. *)
Theorem due_text_is_trimmed `{L : time.Lib} (config : Config) (whole title a dt b : string) :
  Strings.allSpace a -> Strings.allSpace b -> Strings.TrimSpace dt = dt ->
  datetimeOf config [whole; title; a +:+ dt +:+ b] = datetimeOf config [whole; title; dt].
Proof.
  intros Ha Hb Hdt. unfold datetimeOf. cbn [nth].
  by rewrite (TrimSpace_pad a dt b Ha Hb Hdt), Hdt.
Qed.

(** A date after a no-break space and a space, and before a tab and an
    em space. *)
Lemma due_text_is_trimmed_witness :
  datetimeOf Sample.config
    ["- [ ] Pay rent [due:: 2024-01-01 ]"; "Pay rent";
     String "194" (String "160" " ") +:+ "2024-01-01"
     +:+ String "009" (String "226" (String "128" (String "131" "")))]
  = "2024-01-01 09:00 AM".
Proof.
  etrans.
  - apply (due_text_is_trimmed Sample.config "- [ ] Pay rent [due:: 2024-01-01 ]"
             "Pay rent" (String "194" (String "160" " ")) "2024-01-01"
             (String "009" (String "226" (String "128" (String "131" ""))))).
    + apply (Strings.allSpace_cons (String "194" (String "160" "")) " ");
        [simpl; auto 30|].
      apply (Strings.allSpace_cons " " ""); [simpl; auto 30|]. constructor.
    + apply (Strings.allSpace_cons (String "009" "")
               (String "226" (String "128" (String "131" "")))); [simpl; auto 30|].
      apply (Strings.allSpace_cons (String "226" (String "128" (String "131" ""))) "");
        [simpl; auto 30|]. constructor.
    + reflexivity.
  - reflexivity.
Defined.

(* ===================================================================== *)
(** ** The walks of the notes directory *)
(* ===================================================================== *)

(** Induction on a file tree, with the property for the entries of a
    directory. *)
Lemma node_ind' (P : os.node -> Prop) :
  (forall name contents, P (os.File name contents)) ->
  (forall name readable entries, Forall P entries -> P (os.Dir name readable entries)) ->
  forall d, P d.
Proof.
  intros HF HD. fix IH 1. intros [name contents|name readable entries].
  - apply HF.
  - apply HD. induction entries as [|d entries IHe]; constructor; [apply IH|exact IHe].
Qed.

(** [walkDir] on a directory: the callback, then the loop over the
    entries. *)
Section WalkDirFacts.
Import filepath filepath.
Context {S : Type}.
Variable fn : string -> option os.node -> bool -> S -> S * option error.

Lemma walkDir_Dir path name readable entries st :
  walkDir fn path (os.Dir name readable entries) st
  = match fn path (Some (os.Dir name readable entries)) false st with
    | (st1, Some SkipDir) => (st1, None)
    | (st1, Some Err) => (st1, Some Err)
    | (st1, None) =>
        if readable then walkEntries fn path entries st1
        else
          match fn path (Some (os.Dir name readable entries)) true st1 with
          | (st2, Some Err) => (st2, Some Err)
          | (st2, _) => (st2, None)
          end
    end.
Proof.
  cbn [walkDir]. destruct (fn path _ false st) as [st1 [[]|]]; [done..|].
  destruct readable; [|done].
  generalize st1. induction entries as [|d1 l IH]; intros st'; [done|].
  cbn [walkEntries]. destruct (walkDir fn _ d1 st') as [st2 [[]|]]; [done..|].
  apply IH.
Qed.

End WalkDirFacts.

(** The walk of [findMarkdownFiles]. *)
Section Scan.
Context `{L : time.Lib}.
Variable config : Config.

Lemma findMarkdownFiles_fn_Dir path name readable entries st :
  findMarkdownFiles_fn config path (Some (os.Dir name readable entries)) false st
  = if contains (IgnoredDirs config) name then (st, Some filepath.SkipDir)
    else (st, None).
Proof. done. Qed.

Lemma findMarkdownFiles_fn_err path d st :
  findMarkdownFiles_fn config path d true st = (st, Some filepath.Err).
Proof. done. Qed.

Lemma walkDir_findMarkdownFiles (d : os.node) : forall path st,
  if scannable (IgnoredDirs config) d
  then filepath.walkDir (findMarkdownFiles_fn config) path d st
       = (st ++ markdownUnder (IgnoredDirs config) path d, None)
  else (filepath.walkDir (findMarkdownFiles_fn config) path d st).2
       = Some filepath.Err.
Proof.
  induction d as [name contents|name readable entries IH] using node_ind';
    intros path st.
  - cbn [filepath.walkDir scannable markdownUnder].
    unfold findMarkdownFiles_fn. cbn [os.IsDir os.Name].
    destruct (Strings.HasSuffix name ".md"); [done|]. by rewrite app_nil_r.
  - rewrite walkDir_Dir, findMarkdownFiles_fn_Dir. cbn [scannable markdownUnder].
    destruct (contains (IgnoredDirs config) name); cbn [orb].
    { by rewrite app_nil_r. }
    destruct readable; cbn [andb]; [|by rewrite findMarkdownFiles_fn_err].
    revert st. induction IH as [|d1 entries Hd1 _ IHe]; intros st.
    + simpl. by rewrite app_nil_r.
    + cbn [forallb flat_map filepath.walkEntries].
      specialize (Hd1 (filepath.Join path (os.Name d1)) st).
      destruct (scannable (IgnoredDirs config) d1); cbn [andb].
      * rewrite Hd1. specialize (IHe (st ++ markdownUnder (IgnoredDirs config)
                                     (filepath.Join path (os.Name d1)) d1)).
        destruct (forallb _ entries); [|done].
        by rewrite IHe, app_assoc.
      * destruct (filepath.walkDir _ _ d1 st) as [st' [[]|]]; simpl in Hd1; done.
Qed.

Lemma findMarkdownFiles_scan (fs : os.FS) (dirPath : string) :
  findMarkdownFiles config fs dirPath
  = match os.Stat fs dirPath with
    | Some d =>
        if scannable (IgnoredDirs config) d
        then Some (markdownUnder (IgnoredDirs config) dirPath d)
        else None
    | None => None
    end.
Proof.
  unfold findMarkdownFiles, filepath.WalkDir.
  destruct (os.Stat fs dirPath) as [d|]; [|done].
  pose proof (walkDir_findMarkdownFiles d dirPath []) as H.
  destruct (scannable (IgnoredDirs config) d).
  - by rewrite H.
  - destruct (filepath.walkDir _ _ d []) as [st' [[]|]]; simpl in H; done.
Qed.

End Scan.

(** [strings.HasSuffix] and [filepath.Ext], by the reversed path. *)
Section Suffix.

Lemma String_prefix_app (x a b : string) :
  String.prefix x a = true -> String.prefix x (a +:+ b) = true.
Proof.
  revert a. induction x as [|c x IH]; intros a.
  - intros _. by destruct (a +:+ b).
  - destruct a as [|d a]; [done|]. rewrite GoTimeFacts.app_String. simpl.
    destruct (ascii_dec c d); [apply IH|done].
Qed.

Lemma String_prefix_cons (c : ascii) (x r : string) :
  String.prefix (String c x) r = true ->
  exists r', r = String c r' /\ String.prefix x r' = true.
Proof.
  destruct r as [|d r]; [done|]. cbn [String.prefix].
  destruct (ascii_dec c d) as [<-|]; [|done]. intros H. by exists r.
Qed.

(** A suffix of a name is a suffix of every path that ends in the name. *)
Lemma HasSuffix_app (dir name suffix : string) :
  Strings.HasSuffix name suffix = true ->
  Strings.HasSuffix (dir +:+ name) suffix = true.
Proof.
  unfold Strings.HasSuffix, String.rev. rewrite String_rev_app_app. intros H.
  rewrite (String_rev_app_acc name). by apply String_prefix_app.
Qed.

(** What the loop of [filepath.Ext] returns: nothing, or the dot it stopped
    at and the text it had passed. *)
Lemma ext_scan_spec (r acc : string) :
  filepath.ext_scan r acc = ""
  \/ exists m r', r = m +:+ String "." r'
       /\ filepath.ext_scan r acc = String "." (String.rev_app m acc).
Proof.
  revert acc. induction r as [|c r IH]; intros acc; [by left|].
  cbn [filepath.ext_scan].
  destruct (Ascii.eqb_spec c "/") as [->|Hs]; [by left|].
  destruct (Ascii.eqb_spec c ".") as [->|Hd].
  - right. by exists "", r.
  - destruct (IH (String c acc)) as [->|(m & r' & -> & ->)]; [by left|].
    right. by exists (String c m), r'.
Qed.

(** A path that ends in [.md] has the extension [.md]. *)
Lemma Ext_of_HasSuffix_md (path : string) :
  Strings.HasSuffix path ".md" = true -> filepath.Ext path = ".md".
Proof.
  unfold filepath.Ext, Strings.HasSuffix. generalize (String.rev path). intros r.
  change (String.rev ".md") with "dm.".
  intros (r1 & -> & H1)%String_prefix_cons.
  apply String_prefix_cons in H1 as (r2 & -> & H2).
  by apply String_prefix_cons in H2 as (r3 & -> & _).
Qed.

End Suffix.

(** The paths that the scan returns end as the names of their files do. *)
Section Files.
Context `{L : time.Lib}.
Variable config : Config.

Lemma markdownUnder_suffix (d : os.node) : forall path f,
  (os.IsDir d = false -> Strings.HasSuffix (os.Name d) ".md" = true ->
   Strings.HasSuffix path ".md" = true) ->
  f ∈ markdownUnder (IgnoredDirs config) path d ->
  Strings.HasSuffix f ".md" = true.
Proof.
  induction d as [name contents|name readable entries IH] using node_ind';
    intros path f Hpath; cbn [markdownUnder].
  - destruct (Strings.HasSuffix name ".md") eqn:Hn; [|by intros ?%elem_of_nil].
    intros ->%list_elem_of_singleton. by apply Hpath.
  - destruct (contains (IgnoredDirs config) name); [by intros ?%elem_of_nil|].
    intros (d1 & Hd1 & Hf)%list_elem_of_In%in_flat_map.
    rewrite Forall_forall in IH. apply list_elem_of_In in Hd1, Hf.
    apply (IH d1 Hd1 (filepath.Join path (os.Name d1)) f); [|done].
    intros _ Hn. unfold filepath.Join. rewrite GoTimeFacts.string_app_assoc.
    by apply HasSuffix_app.
Qed.

End Files.

(** The walk of [watchDirRecursive]. *)
Section Watch.
Context `{L : time.Lib}.
Variable config : Config.
Variable fs : os.FS.

Lemma watchAll_nil (st : gset string * list LogEntry) : watchAll fs [] st = st.
Proof.
  destruct st as [w log]. unfold watchAll. cbn [filter list_filter list_to_set map fst snd].
  by rewrite (left_id_L ∅ (∪)), app_nil_r.
Qed.

Lemma watchAll_app (paths1 paths2 : list string) (st : gset string * list LogEntry) :
  watchAll fs (paths1 ++ paths2) st = watchAll fs paths2 (watchAll fs paths1 st).
Proof.
  destruct st as [w log]. unfold watchAll. cbn [fst snd].
  rewrite !filter_app, map_app, list_to_set_app_L, app_assoc. f_equal.
  rewrite (assoc_L (∪)). f_equal. apply (comm_L (∪)).
Qed.

Lemma watchDirRecursive_fn_Dir path name readable entries
    (st : gset string * list LogEntry) :
  watchDirRecursive_fn config fs path (Some (os.Dir name readable entries)) false st
  = (watchAll fs (if contains (IgnoredDirs config) name then [] else [path]) st, None).
Proof.
  unfold watchDirRecursive_fn. cbn [os.IsDir os.Name andb].
  destruct (contains (IgnoredDirs config) name); cbn [negb].
  - by rewrite watchAll_nil.
  - destruct st as [w log]. unfold fsnotify.Add, watchAll. cbn [fst snd].
    rewrite !filter_cons, !filter_nil.
    destruct (decide (path ∈ os.unwatchable fs)) as [Hin|Hout].
    + rewrite decide_False by (intros H; by apply H).
      cbn [list_to_set map]. by rewrite (left_id_L ∅ (∪)).
    + rewrite decide_True by done. cbn [list_to_set map].
      by rewrite (right_id_L ∅ (∪)), app_nil_r.
Qed.

Lemma watchDirRecursive_fn_err path d (st : gset string * list LogEntry) :
  watchDirRecursive_fn config fs path d true st = (st, Some filepath.Err).
Proof. done. Qed.

Lemma walkDir_watchDirRecursive (d : os.node) :
  forall path (st : gset string * list LogEntry),
  if listable d
  then filepath.walkDir (watchDirRecursive_fn config fs) path d st
       = (watchAll fs (watchedUnder (IgnoredDirs config) path d) st, None)
  else (filepath.walkDir (watchDirRecursive_fn config fs) path d st).2
       = Some filepath.Err.
Proof.
  induction d as [name contents|name readable entries IH] using node_ind';
    intros path st.
  - cbn [filepath.walkDir listable watchedUnder].
    unfold watchDirRecursive_fn. cbn [os.IsDir andb]. by rewrite watchAll_nil.
  - rewrite walkDir_Dir, watchDirRecursive_fn_Dir. cbn [listable watchedUnder].
    destruct readable; cbn [andb]; [|by rewrite watchDirRecursive_fn_err].
    assert (forall st0 : gset string * list LogEntry,
      if forallb listable entries
      then filepath.walkEntries (watchDirRecursive_fn config fs) path entries st0
           = (watchAll fs (flat_map (fun d1 => watchedUnder (IgnoredDirs config)
                             (filepath.Join path (os.Name d1)) d1) entries) st0, None)
      else (filepath.walkEntries (watchDirRecursive_fn config fs) path entries st0).2
           = Some filepath.Err) as Hloop.
    { induction IH as [|d1 entries Hd1 _ IHe]; intros st0.
      - simpl. by rewrite watchAll_nil.
      - cbn [forallb flat_map filepath.walkEntries].
        specialize (Hd1 (filepath.Join path (os.Name d1)) st0).
        destruct (listable d1); cbn [andb].
        + rewrite Hd1.
          specialize (IHe (watchAll fs (watchedUnder (IgnoredDirs config)
                             (filepath.Join path (os.Name d1)) d1) st0)).
          destruct (forallb _ entries); [|done].
          by rewrite IHe, watchAll_app.
        + destruct (filepath.walkDir _ _ d1 st0) as [st' [[]|]]; simpl in Hd1; done. }
    specialize (Hloop (watchAll fs
                         (if contains (IgnoredDirs config) name then [] else [path]) st)).
    destruct (forallb listable entries); [|done].
    by rewrite Hloop, watchAll_app.
Qed.

(** Whatever the walk meets, what it has done when it ends is a number of
    calls of [Watcher.Add]. *)
Lemma walkDir_watch_some (d : os.node) :
  forall path (st : gset string * list LogEntry),
  exists paths,
    (filepath.walkDir (watchDirRecursive_fn config fs) path d st).1
    = watchAll fs paths st.
Proof.
  induction d as [name contents|name readable entries IH] using node_ind';
    intros path st.
  - exists []. by rewrite watchAll_nil.
  - rewrite walkDir_Dir, watchDirRecursive_fn_Dir.
    set (first := if contains (IgnoredDirs config) name then [] else [path]).
    destruct readable.
    2:{ rewrite watchDirRecursive_fn_err. by exists first. }
    assert (forall st1, exists paths,
              (filepath.walkEntries (watchDirRecursive_fn config fs) path entries st1).1
              = watchAll fs paths st1) as Hloop.
    { induction IH as [|d1 entries Hd1 _ IHe]; intros st1.
      - exists []. by rewrite watchAll_nil.
      - cbn [filepath.walkEntries].
        destruct (Hd1 (filepath.Join path (os.Name d1)) st1) as [paths1 H1].
        destruct (filepath.walkDir _ _ d1 st1) as [st2 [[]|]]; simpl in H1; subst st2.
        + by exists paths1.
        + by exists paths1.
        + destruct (IHe (watchAll fs paths1 st1)) as [paths2 H2].
          exists (paths1 ++ paths2). by rewrite watchAll_app. }
    destruct (Hloop (watchAll fs first st)) as [paths Hp].
    exists (first ++ paths). by rewrite watchAll_app.
Qed.

End Watch.


(** X5: what [findMarkdownFiles] returns. It fails when the path does not
    exist or when some directory it has to list cannot be listed; the
    directories it has to list are those that are not ignored and are
    reached through directories that are not ignored. Otherwise it returns,
    in the order of the listings, the paths of the files whose names end in
    [.md] and that lie in no ignored directory: an ignored directory takes
    away what is beneath it and nothing else, the entries after it are
    still visited. *)
Theorem scan_result `{L : time.Lib} (config : Config) (fs : os.FS) (dirPath : string) :
  findMarkdownFiles config fs dirPath
  = match os.Stat fs dirPath with
    | Some d =>
        if scannable (IgnoredDirs config) d
        then Some (markdownUnder (IgnoredDirs config) dirPath d)
        else None
    | None => None
    end.
Proof.
  unfold findMarkdownFiles, filepath.WalkDir.
  destruct (os.Stat fs dirPath) as [d|]; [|done].
  pose proof (walkDir_findMarkdownFiles config d dirPath []) as H.
  destruct (scannable (IgnoredDirs config) d).
  - by rewrite H.
  - destruct (filepath.walkDir _ _ d []) as [st' [[]|]]; simpl in H; done.
Qed.

(** X6: the two tests for Markdown files agree. [filepath.Ext], by which
    the event loop filters the paths of events, gives [.md] exactly for the
    paths that [strings.HasSuffix], by which [findMarkdownFiles] filters
    the names of entries, finds to end in [.md]. *)
Theorem markdown_extension_is_suffix (path : string) :
  filepath.Ext path = ".md" <-> Strings.HasSuffix path ".md" = true.
Proof.
  split; [|apply Ext_of_HasSuffix_md].
  unfold filepath.Ext, Strings.HasSuffix. generalize (String.rev path). intros r.
  change (String.rev ".md") with "dm.". intros H.
  destruct (ext_scan_spec r "") as [E|(m & r' & -> & E)]; rewrite E in H; [done|].
  injection H as H.
  assert (m = "dm") as ->.
  { pose proof (String_rev_app_length m "") as Hl. rewrite H in Hl. simpl in Hl.
    destruct m as [|a [|b [|c m]]]; simpl in Hl; try lia.
    simpl in H.
    assert (b = "m"%char /\ a = "d"%char) as [-> ->] by (split; congruence).
    done. }
  simpl. by destruct r'.
Qed.

(** X7: when [findMarkdownFiles] is given a directory and succeeds, every
    path it returns ends in [.md], and has the extension [.md] that the
    event loop asks of the path of an event: the files that are read are
    among those whose changes are acted on. *)
Theorem scanned_files_are_markdown `{L : time.Lib} (config : Config) (fs : os.FS)
    (dirPath : string) (d : os.node) (files : list string) :
  os.Stat fs dirPath = Some d -> os.IsDir d = true ->
  findMarkdownFiles config fs dirPath = Some files ->
  forall f, f ∈ files ->
    Strings.HasSuffix f ".md" = true /\ filepath.Ext f = ".md".
Proof.
  intros Hd Hdir Hfiles f Hf. rewrite findMarkdownFiles_scan, Hd in Hfiles.
  destruct (scannable (IgnoredDirs config) d); [|done]. injection Hfiles as <-.
  assert (Strings.HasSuffix f ".md" = true) as Hs.
  { eapply markdownUnder_suffix; [|exact Hf]. intros Hnd. by rewrite Hdir in Hnd. }
  split; [done|]. by apply Ext_of_HasSuffix_md.
Qed.

(** The three notes of the sample tree. *)
Lemma scanned_files_are_markdown_witness :
  findMarkdownFiles Sample.config Sample.notes "/notes"
  = Some ["/notes/new/sub/plan.md"; "/notes/rent.md"; "/notes/todo.md"]
  /\ Strings.HasSuffix "/notes/new/sub/plan.md" ".md" = true
  /\ filepath.Ext "/notes/new/sub/plan.md" = ".md".
Proof.
  split; [reflexivity|].
  apply (scanned_files_are_markdown Sample.config Sample.notes "/notes"
           (os.top Sample.notes) _ eq_refl eq_refl eq_refl).
  apply list_elem_of_here.
Defined.

(** X8: what [watchDirRecursive] does to the watcher and to the log. When
    the path does not exist, the walk fails at once: the line for that is
    logged and the watcher is as before. When the path exists and every
    directory of the tree can be listed, [Watcher.Add] is called for every
    directory whose own name is not ignored, in the order of the walk: the
    watcher gains those of these paths that the system does not refuse,
    and the log gets a line for each path that it refuses, and no other
    line. A directory beneath an ignored directory is among them when its
    own name is not ignored, since the walk does not skip an ignored
    directory. When some directory cannot be listed, the walk fails, and
    the log ends with the line for that, after lines for refused paths
    only. In all cases the paths watched before are still watched. *)
Theorem watch_result `{L : time.Lib} (config : Config) (fs : os.FS)
    (w : gset string) (dirPath : string) :
  (os.Stat fs dirPath = None ->
   watchDirRecursive config fs w dirPath = (w, [ErrorInitializeWatch]))
  /\ (forall d : os.node,
        os.Stat fs dirPath = Some d ->
        let dirs := watchedUnder (IgnoredDirs config) dirPath d in
        (listable d = true ->
         watchDirRecursive config fs w dirPath
         = (list_to_set (filter (fun path => path ∉ os.unwatchable fs) dirs) ∪ w,
            map ErrorWatchDirectory
              (filter (fun path => path ∈ os.unwatchable fs) dirs)))
        /\ (listable d = false ->
            exists paths,
              (watchDirRecursive config fs w dirPath).2
              = map ErrorWatchDirectory paths ++ [ErrorInitializeWatch]))
  /\ w ⊆ (watchDirRecursive config fs w dirPath).1.
Proof.
  unfold watchDirRecursive, filepath.WalkDir.
  destruct (os.Stat fs dirPath) as [d|]; [|by repeat split].
  pose proof (walkDir_watchDirRecursive config fs d dirPath (w, [])) as H.
  destruct (walkDir_watch_some config fs d dirPath (w, [])) as [paths Hp].
  destruct (filepath.walkDir _ _ d (w, [])) as [[w' log] err]. cbn [fst] in Hp.
  unfold watchAll in Hp. cbn [fst snd app] in Hp. injection Hp as -> ->.
  split; [done|]. split.
  - intros d' [= <-]. split.
    + intros Hl. rewrite Hl in H. unfold watchAll in H. cbn [fst snd app] in H.
      by injection H as -> -> ->.
    + intros Hl. rewrite Hl in H. cbn [snd] in H. subst err. cbn [snd].
      by eexists.
  - destruct err as [[]|]; cbn [fst]; apply union_subseteq_r.
Qed.

(** A notes directory with a directory [.git]: [.git] is not watched, the
    directory [hooks] in it is, unless the system refuses it, and then
    there is a line in the log; the note in [.git] is not scanned. *)
Lemma watch_result_witness :
  watchDirRecursive Sample.config Sample.vault ∅ "/notes"
  = (list_to_set ["/notes"; "/notes/.git/hooks"] ∪ ∅, [])
  /\ watchDirRecursive Sample.config Sample.crowded ∅ "/notes"
     = (list_to_set ["/notes"] ∪ ∅, [ErrorWatchDirectory "/notes/.git/hooks"])
  /\ watchDirRecursive Sample.config Sample.vault ∅ "/nowhere"
     = (∅, [ErrorInitializeWatch])
  /\ findMarkdownFiles Sample.config Sample.vault "/notes" = Some ["/notes/rent.md"].
Proof.
  split; [|split; [|split; [|reflexivity]]].
  - apply (proj1 (proj1 (proj2 (watch_result Sample.config Sample.vault ∅ "/notes"))
                    (os.top Sample.vault) eq_refl) eq_refl).
  - apply (proj1 (proj1 (proj2 (watch_result Sample.config Sample.crowded ∅ "/notes"))
                    (os.top Sample.vault) eq_refl) eq_refl).
  - apply (proj1 (watch_result Sample.config Sample.vault ∅ "/nowhere") eq_refl).
Defined.

(* ===================================================================== *)
(** ** The load of the reminders and the start of the process *)
(* ===================================================================== *)

(** The loop of [loadReminders] over the files, from any accumulator; and
    a tree that can be listed throughout can be scanned. *)
Section Loading.
Context `{L : time.Lib}.
Variable config : Config.

Lemma fold_loadFile (fs : os.FS) (files : list string)
    (acc : list Reminder * list LogEntry) :
  fold_left (loadFile config fs) files acc
  = (acc.1 ++ flat_map (fileEntries config fs) files,
     acc.2 ++ flat_map (fileLog config fs) files).
Proof.
  revert acc. induction files as [|f files IH]; intros [rs log]; simpl.
  - by rewrite !app_nil_r.
  - rewrite IH. unfold loadFile, fileEntries, fileLog. simpl.
    destruct (os.ReadFile fs f) as [c|]; simpl.
    + destruct (parseReminderEntries config c) as [rs' log']. simpl.
      by rewrite <- !app_assoc.
    + by rewrite <- !app_assoc.
Qed.

Lemma listable_scannable (d : os.node) :
  listable d = true -> scannable (IgnoredDirs config) d = true.
Proof.
  induction d as [name contents|name readable entries IH] using node_ind'; [done|].
  cbn [listable scannable]. intros [-> Hall]%andb_true_iff.
  apply orb_true_iff. right. cbn [andb].
  rewrite forallb_forall in Hall. apply forallb_forall. intros d1 Hd1.
  rewrite Forall_forall in IH. apply IH; [by apply list_elem_of_In|by apply Hall].
Qed.

End Loading.

(** X9: once the scan has succeeded [loadReminders] does not fail. Its
    result is, file after file in the order of the scan, the reminders of
    the files that can be read; a file that cannot be read adds no reminder
    and one line to the log, and the files after it are still read. *)
Theorem unreadable_file_is_skipped `{L : time.Lib} (config : Config) (fs : os.FS)
    (notesDir : string) (files : list string) :
  findMarkdownFiles config fs notesDir = Some files ->
  loadReminders config fs notesDir
  = (flat_map (fileLog config fs) files, Some (flat_map (fileEntries config fs) files)).
Proof.
  intros Hf. unfold loadReminders. rewrite Hf, fold_loadFile. done.
Qed.

(** A note that cannot be read, before a note with an entry. *)
Lemma unreadable_file_is_skipped_witness :
  loadReminders Sample.config Sample.locked "/notes"
  = ([ErrorReadFile "/notes/locked.md"], Some [Sample.payRent]).
Proof.
  etrans.
  - apply (unreadable_file_is_skipped Sample.config Sample.locked "/notes"
             ["/notes/locked.md"; "/notes/rent.md"] eq_refl).
  - reflexivity.
Defined.

(** X10: the start of [main] on a notes directory all of whose directories
    can be listed. [loadReminders] runs once: [reminders] holds the
    reminders of the Markdown files outside the ignored directories, and
    the log the lines of these files. When the system has no watcher to
    give, the process then ends with the line for that. Otherwise it runs:
    the watcher holds the directories whose names are not ignored, those
    excepted that the system refuses to watch, for each of which there is
    a line in the log after those of the files; and no timer exists. *)
Theorem startup_loads_and_watches `{L : time.Lib} (config : Config) (fs : os.FS)
    (d : os.node) :
  os.Stat fs (NotesDir config) = Some d -> listable d = true ->
  let files := markdownUnder (IgnoredDirs config) (NotesDir config) d in
  let dirs := watchedUnder (IgnoredDirs config) (NotesDir config) d in
  startup config fs
  = if os.noWatcher fs then
      Exited {| reminders := flat_map (fileEntries config fs) files;
                watcher := ∅;
                eventTimers := ∅;
                logs := flat_map (fileLog config fs) files ++ [ErrorCreateWatcher];
                rebuilds := 1 |}
    else
      Running {| reminders := flat_map (fileEntries config fs) files;
                 watcher := list_to_set
                              (filter (fun path => path ∉ os.unwatchable fs) dirs);
                 eventTimers := ∅;
                 logs := flat_map (fileLog config fs) files
                         ++ map ErrorWatchDirectory
                              (filter (fun path => path ∈ os.unwatchable fs) dirs);
                 rebuilds := 1 |}.
Proof.
  intros Hd Hl files dirs. unfold startup, rebuild.
  assert (findMarkdownFiles config fs (NotesDir config) = Some files) as Hf.
  { rewrite findMarkdownFiles_scan, Hd. by rewrite listable_scannable. }
  unfold loadReminders. rewrite Hf, fold_loadFile. cbn [andThen fst snd app].
  cbn [watcher reminders eventTimers logs rebuilds].
  destruct (os.noWatcher fs); [done|].
  unfold watchDirRecursive, filepath.WalkDir. rewrite Hd.
  pose proof (walkDir_watchDirRecursive config fs d (NotesDir config) (∅, [])) as Hw.
  rewrite Hl in Hw. rewrite Hw. unfold watchAll. cbn [fst snd app].
  by rewrite (right_id_L ∅ (∪)).
Qed.

(** The start on the notes directory with a directory [.git]; on a system
    that refuses to watch the directory [hooks]; and on a system that has
    no watcher to give. *)
Lemma startup_loads_and_watches_witness :
  startup Sample.config Sample.vault
  = Running {| reminders := [Sample.payRent];
               watcher := list_to_set ["/notes"; "/notes/.git/hooks"];
               eventTimers := ∅; logs := []; rebuilds := 1 |}
  /\ startup Sample.config Sample.crowded
     = Running {| reminders := [Sample.payRent];
                  watcher := list_to_set ["/notes"];
                  eventTimers := ∅;
                  logs := [ErrorWatchDirectory "/notes/.git/hooks"];
                  rebuilds := 1 |}
  /\ startup Sample.config Sample.noWatchers
     = Exited {| reminders := [Sample.payRent]; watcher := ∅;
                 eventTimers := ∅; logs := [ErrorCreateWatcher]; rebuilds := 1 |}.
Proof.
  split; [|split].
  - etrans.
    + apply (startup_loads_and_watches Sample.config Sample.vault
               (os.top Sample.vault) eq_refl eq_refl).
    + reflexivity.
  - etrans.
    + apply (startup_loads_and_watches Sample.config Sample.crowded
               (os.top Sample.vault) eq_refl eq_refl).
    + reflexivity.
  - etrans.
    + apply (startup_loads_and_watches Sample.config Sample.noWatchers
               (os.top Sample.vault) eq_refl eq_refl).
    + reflexivity.
Defined.

(* ===================================================================== *)
(** ** The event loop: the table of timers, and the events it leaves alone *)
(* ===================================================================== *)

(** A reset of a timer keeps the entries of the table and adds the one of
    its path. *)
Section TimerTable.
Context `{L : time.Lib}.

Lemma resetTimer_timers (now : Z) (name : string) (p : Proc) :
  dom (eventTimers p) ⊆ dom (eventTimers (resetTimer now name p)).
Proof.
  unfold resetTimer. cbn [eventTimers]. destruct (eventTimers p !! name).
  - apply dom_insert_subseteq.
  - etrans; [|apply dom_insert_subseteq]. apply dom_insert_subseteq.
Qed.

Lemma resetTimer_name (now : Z) (name : string) (p : Proc) :
  name ∈ dom (eventTimers (resetTimer now name p)).
Proof. unfold resetTimer. cbn [eventTimers]. rewrite dom_insert. set_solver. Qed.

End TimerTable.

(** No step of the process takes an entry out of the table. *)
Section Timers.
Context `{L : time.Lib}.
Variable config : Config.
Variable fsAt : Z -> os.FS.

Lemma andThen_timers (p : Proc) (st : Status) (k : Proc -> Status) :
  dom (eventTimers p) ⊆ dom (eventTimers (proc st)) ->
  (forall q, dom (eventTimers q) ⊆ dom (eventTimers (proc (k q)))) ->
  dom (eventTimers p) ⊆ dom (eventTimers (proc (andThen st k))).
Proof.
  intros Hst Hk. destruct st as [q|q]; simpl in *; [|done].
  etrans; [exact Hst|apply Hk].
Qed.

Lemma fire_timers (p : Proc) (x : string * Z) :
  dom (eventTimers p) ⊆ dom (eventTimers (proc (fire config fsAt p x))).
Proof.
  unfold fire.
  destruct (rebuild_proc config (fsAt x.2)
    {| reminders := reminders p; watcher := watcher p;
       eventTimers := <[x.1 := Stopped]> (eventTimers p);
       logs := logs p; rebuilds := rebuilds p |}) as (_ & -> & _).
  simpl. apply dom_insert_subseteq.
Qed.

Lemma advance_timers (now : Z) (p : Proc) :
  dom (eventTimers p) ⊆ dom (eventTimers (proc (advance config fsAt now p))).
Proof.
  unfold advance. generalize (due now (eventTimers p)). intros l.
  change p with (proc (Running p)) at 1. generalize (Running p).
  induction l as [|x l IH]; intros st; [done|]. cbn [fold_left].
  etrans; [|apply IH]. apply andThen_timers; [done|]. intros q. apply fire_timers.
Qed.

Lemma handleEvent_timers (fs : os.FS) (now : Z) (e : fsnotify.Event) (p : Proc) :
  dom (eventTimers p) ⊆ dom (eventTimers (proc (handleEvent config fs now e p))).
Proof.
  unfold handleEvent.
  destruct (_ && _); [done|]. destruct (negb _); [done|].
  apply andThen_timers.
  - destruct (fsnotify.Has e fsnotify.Remove); [|done].
    by destruct (rebuild_proc config fs p) as (_ & -> & _).
  - intros q. destruct (_ || _); [|done]. apply resetTimer_timers.
Qed.

Lemma step_timers (st : Status) (e : Z * fsnotify.Event) :
  dom (eventTimers (proc st))
  ⊆ dom (eventTimers (proc (step config fsAt st e))).
Proof.
  unfold step. apply andThen_timers.
  - destruct st as [p|p]; simpl; [apply advance_timers|done].
  - intros q. apply handleEvent_timers.
Qed.

Lemma run_timers (events : list (Z * fsnotify.Event)) (st : Status) :
  dom (eventTimers (proc st))
  ⊆ dom (eventTimers (proc (run config fsAt events st))).
Proof.
  revert st. induction events as [|e events IH]; intros st; [done|].
  unfold run in *. cbn [fold_left]. etrans; [apply step_timers|apply IH].
Qed.

Lemma run_events_app (events1 events2 : list (Z * fsnotify.Event)) (st : Status) :
  run config fsAt (events1 ++ events2) st
  = run config fsAt events2 (run config fsAt events1 st).
Proof. unfold run. apply fold_left_app. Qed.

Lemma step_Running (st : Status) (t : Z) (e : fsnotify.Event) (q : Proc) :
  step config fsAt st (t, e) = Running q ->
  exists q0, handleEvent config (fsAt t) t e q0 = Running q.
Proof.
  unfold step. simpl. destruct (andThen st (advance config fsAt t)) as [q0|q0]; [|done].
  simpl. eauto.
Qed.

End Timers.

(** X11: the table [eventTimers] only grows. Whatever events are read, a
    path that has a timer keeps it, fired or not; and once the event loop
    has handled a Create or Write event for a Markdown file, the path of
    the file has a timer for the rest of the run. *)
Theorem timers_are_never_removed `{L : time.Lib} (config : Config) (fsAt : Z -> os.FS)
    (before after : list (Z * fsnotify.Event)) (t : Z) (e : fsnotify.Event)
    (p q : Proc) :
  dom (eventTimers p)
  ⊆ dom (eventTimers (proc (run config fsAt before (Running p))))
  /\ (isFileChange (fsAt t) e = true ->
      run config fsAt (before ++ [(t, e)]) (Running p) = Running q ->
      fsnotify.Name e ∈ dom (eventTimers (proc (run config fsAt after (Running q))))).
Proof.
  split; [apply (run_timers config fsAt before (Running p))|].
  intros He Hrun. apply (run_timers config fsAt after (Running q)). simpl.
  rewrite run_events_app in Hrun. unfold run at 1 in Hrun. cbn [fold_left] in Hrun.
  apply step_Running in Hrun as [q0 Hq]. rewrite handleEvent_fileChange in Hq by done.
  injection Hq as <-. apply resetTimer_name.
Qed.

(** The note [rent.md] is written, its timer fires, the note is removed:
    its timer is still in the table. *)
Lemma timers_are_never_removed_witness :
  "/notes/rent.md"
  ∈ dom (eventTimers
           (proc (run Sample.config (fun _ => Sample.notes0)
                    [(Sample.ms 500, Sample.write "/notes/todo.md");
                     (Sample.ms 900, Sample.remove "/notes/rent.md")]
                    (Running (resetTimer 0 "/notes/rent.md" Sample.idle))))).
Proof.
  apply (proj2 (timers_are_never_removed Sample.config (fun _ => Sample.notes0) []
                  [(Sample.ms 500, Sample.write "/notes/todo.md");
                   (Sample.ms 900, Sample.remove "/notes/rent.md")]
                  0 (Sample.write "/notes/rent.md") Sample.idle
                  (resetTimer 0 "/notes/rent.md" Sample.idle))).
  - vm_compute. reflexivity.
  - reflexivity.
Defined.

(** An event without the three bits. *)
Section Others.
Context `{L : time.Lib}.
Variable config : Config.
Variable fsAt : Z -> os.FS.

Lemma Has_none (e : fsnotify.Event) :
  Z.land (fsnotify.Op e)
    (Z.lor fsnotify.Create (Z.lor fsnotify.Write fsnotify.Remove)) = 0 ->
  fsnotify.Has e fsnotify.Create = false
  /\ fsnotify.Has e fsnotify.Write = false
  /\ fsnotify.Has e fsnotify.Remove = false.
Proof.
  rewrite !Z.land_lor_distr_r, !Z.lor_eq_0_iff. intros (Hc & Hw & Hr).
  unfold fsnotify.Has. by rewrite Hc, Hw, Hr.
Qed.

End Others.

(** X12: an event that carries none of Create, Write and Remove (a Rename,
    a Chmod, or both) changes nothing, whatever its path: no reload, no
    timer, no watch. *)
Theorem rename_and_chmod_are_ignored `{L : time.Lib} (config : Config) (fs : os.FS)
    (now : Z) (e : fsnotify.Event) (p : Proc) :
  Z.land (fsnotify.Op e)
    (Z.lor fsnotify.Create (Z.lor fsnotify.Write fsnotify.Remove)) = 0 ->
  handleEvent config fs now e p = Running p.
Proof.
  intros (Hc & Hw & Hr)%Has_none. unfold handleEvent. rewrite Hc, Hw, Hr. simpl.
  by destruct (negb _).
Qed.

(** A note is renamed. *)
Lemma rename_and_chmod_are_ignored_witness :
  handleEvent Sample.config Sample.notes0 0
    {| fsnotify.Name := "/notes/rent.md"; fsnotify.Op := fsnotify.Rename |} Sample.idle
  = Running Sample.idle.
Proof.
  apply (rename_and_chmod_are_ignored Sample.config Sample.notes0 0
           {| fsnotify.Name := "/notes/rent.md"; fsnotify.Op := fsnotify.Rename |}
           Sample.idle eq_refl).
Defined.

(** An event for a path without the extension [.md] adds at most a watch. *)
Lemma handleEvent_other `{L : time.Lib} (config : Config) (fs : os.FS) (now : Z)
    (e : fsnotify.Event) (p : Proc) :
  filepath.Ext (fsnotify.Name e) <> ".md" ->
  exists w, handleEvent config fs now e p
            = Running {| reminders := reminders p; watcher := w;
                         eventTimers := eventTimers p; logs := logs p;
                         rebuilds := rebuilds p |}
            /\ watcher p ⊆ w.
Proof.
  intros He%String.eqb_neq. unfold handleEvent. rewrite He. cbn [negb].
  destruct (_ && _).
  - eexists. split; [done|]. unfold fsnotify.Add.
    destruct (decide _); cbn [fst]; [done|apply union_subseteq_r].
  - exists (watcher p). by destruct p.
Qed.

(** X13: events for paths whose extension is not [.md] never reload. From
    a state in which no timer is armed, after any number of such events the
    process runs with the same reminders, the same timers and the same log,
    and [loadReminders] has not been called; only the watcher may have
    gained the directories that were created. *)
Theorem other_files_never_reload `{L : time.Lib} (config : Config) (fsAt : Z -> os.FS)
    (events : list (Z * fsnotify.Event)) (p : Proc) :
  armed (eventTimers p) = ∅ ->
  Forall (fun x => filepath.Ext (fsnotify.Name x.2) <> ".md") events ->
  exists w,
    run config fsAt events (Running p)
    = Running {| reminders := reminders p; watcher := w;
                 eventTimers := eventTimers p; logs := logs p;
                 rebuilds := rebuilds p |}
    /\ watcher p ⊆ w.
Proof.
  intros Ha Hall. revert p Ha.
  induction Hall as [|[t e] events He _ IH]; intros p Ha.
  - exists (watcher p). by destruct p.
  - change (run config fsAt ((t, e) :: events) (Running p))
      with (run config fsAt events
              (andThen (advance config fsAt t p) (handleEvent config (fsAt t) t e))).
    rewrite advance_idle by (by apply due_none). cbn [andThen].
    destruct (handleEvent_other config (fsAt t) t e p He) as (w1 & -> & Hw1).
    destruct (IH {| reminders := reminders p; watcher := w1;
                    eventTimers := eventTimers p; logs := logs p;
                    rebuilds := rebuilds p |} Ha) as (w & -> & Hw).
    exists w. split; [done|]. simpl in Hw. set_solver.
Qed.

(** An image is written, a directory is created, a backup is removed. *)
Lemma other_files_never_reload_witness :
  exists w,
    run Sample.config (fun _ => Sample.notes)
      [(0, Sample.write "/notes/cover.png");
       (Sample.ms 10, Sample.create "/notes/new");
       (Sample.ms 20, Sample.remove "/notes/todo.md.bak")]
      (Running Sample.idle)
    = Running {| reminders := []; watcher := w; eventTimers := ∅; logs := [];
                 rebuilds := 0 |}.
Proof.
  destruct (other_files_never_reload Sample.config (fun _ => Sample.notes)
              [(0, Sample.write "/notes/cover.png");
               (Sample.ms 10, Sample.create "/notes/new");
               (Sample.ms 20, Sample.remove "/notes/todo.md.bak")]
              Sample.idle) as (w & Hw & _).
  - reflexivity.
  - repeat constructor; vm_compute; discriminate.
  - exists w. exact Hw.
Defined.

(* ===================================================================== *)
(** ** The event loop: a burst on several paths *)
(* ===================================================================== *)

(** Timers of several paths: none is due during the burst, all are due
    after it. *)
Section Paths.
Context `{L : time.Lib}.
Variable config : Config.
Variable fsAt : Z -> os.FS.

Lemma due_quiet (t : Z) (timers : gmap string Timer) :
  (forall name d, armed timers !! name = Some d -> t < d) -> due t timers = [].
Proof.
  intros Hq. unfold due. rewrite map_empty_filter_2; [by rewrite map_to_list_empty|].
  intros name d Hd. simpl. apply Hq in Hd. lia.
Qed.

Lemma due_all (t : Z) (timers : gmap string Timer) :
  (forall name d, armed timers !! name = Some d -> d <= t) ->
  due t timers ≡ₚ map_to_list (armed timers).
Proof.
  intros Ha. unfold due. rewrite merge_sort_Permutation.
  rewrite map_filter_id; [done|]. intros name d Hd. simpl. by eapply Ha.
Qed.

(** The timers of a list fire one after the other: each firing is one
    reload, and each timer is armed no more. *)
Lemma fire_all (l : list (string * Z)) : forall p,
  scansSucceed config fsAt ->
  exists p',
    fold_left (fun st x => andThen st (fun p => fire config fsAt p x)) l (Running p)
    = Running p'
    /\ rebuilds p' = (rebuilds p + length l)%nat
    /\ armed (eventTimers p')
       = fold_left (fun m x => delete x.1 m) l (armed (eventTimers p)).
Proof.
  intros p Hscan. revert p. induction l as [|x l IH]; intros p.
  - exists p. rewrite Nat.add_0_r. by repeat split.
  - cbn [fold_left andThen]. unfold fire at 2.
    destruct (rebuild_running config (fsAt x.2)
      {| reminders := reminders p; watcher := watcher p;
         eventTimers := <[x.1 := Stopped]> (eventTimers p);
         logs := logs p; rebuilds := rebuilds p |} (Hscan x.2)) as [p1 Hp1].
    destruct (rebuild_proc config (fsAt x.2)
      {| reminders := reminders p; watcher := watcher p;
         eventTimers := <[x.1 := Stopped]> (eventTimers p);
         logs := logs p; rebuilds := rebuilds p |}) as (Hr & Ht & _).
    rewrite Hp1 in *. simpl in Hr, Ht.
    destruct (IH p1) as (p' & -> & Hr' & Ha').
    exists p'. split; [done|]. split; [simpl; lia|].
    rewrite Ha', Ht. unfold armed at 1. by rewrite omap_insert_None.
Qed.

Lemma fold_delete_None (l : list (string * Z)) : forall (m : gmap string Z) i,
  m !! i = None -> fold_left (fun m x => delete x.1 m) l m !! i = None.
Proof.
  induction l as [|x l IH]; intros m i Hi; [done|]. simpl. apply IH.
  rewrite lookup_delete_None. by right.
Qed.

Lemma fold_delete_elem (l : list (string * Z)) : forall (m : gmap string Z) i d,
  (i, d) ∈ l -> fold_left (fun m x => delete x.1 m) l m !! i = None.
Proof.
  induction l as [|x l IH]; intros m i d Hi; [by apply elem_of_nil in Hi|].
  simpl. apply elem_of_cons in Hi as [<-|Hi].
  - apply fold_delete_None. simpl. apply lookup_delete_eq.
  - by eapply IH.
Qed.

(** When time passes beyond every deadline, every armed timer fires. *)
Lemma advance_all (until : Z) (p : Proc) :
  scansSucceed config fsAt ->
  (forall name d, armed (eventTimers p) !! name = Some d -> d <= until) ->
  exists p', advance config fsAt until p = Running p'
    /\ rebuilds p' = (rebuilds p + size (armed (eventTimers p)))%nat
    /\ armed (eventTimers p') = ∅.
Proof.
  intros Hscan Hall. unfold advance.
  pose proof (due_all until (eventTimers p) Hall) as Hperm.
  destruct (fire_all (due until (eventTimers p)) p Hscan) as (p' & -> & Hr & Ha).
  exists p'. split; [done|]. split.
  - rewrite Hr, Hperm, length_map_to_list. done.
  - rewrite Ha. apply map_empty. intros i.
    destruct (armed (eventTimers p) !! i) as [d|] eqn:Hi.
    + apply (fold_delete_elem _ _ i d). rewrite Hperm. by apply elem_of_map_to_list.
    + by apply fold_delete_None.
Qed.

(** A burst: no timer comes due while its events are read. *)
Lemma run_quiet (first until : Z) (events : list (Z * fsnotify.Event)) : forall p,
  (forall name d, armed (eventTimers p) !! name = Some d ->
     first + quietWindow <= d <= until) ->
  Forall (fun x => isFileChange (fsAt x.1) x.2 = true
                   /\ first <= x.1 < first + quietWindow
                   /\ x.1 + quietWindow <= until) events ->
  exists p1, run config fsAt events (Running p) = Running p1
    /\ rebuilds p1 = rebuilds p
    /\ dom (armed (eventTimers p1))
       = dom (armed (eventTimers p))
         ∪ list_to_set (map (fun x => fsnotify.Name x.2) events)
    /\ (forall name d, armed (eventTimers p1) !! name = Some d ->
          first + quietWindow <= d <= until).
Proof.
  induction events as [|[t e] events IH]; intros p Hp Hall.
  - exists p. split; [done|]. split; [done|]. split; [|done].
    simpl. by rewrite (right_id_L ∅ (∪)).
  - apply Forall_cons in Hall as [(He & Ht & Hu) Hall]. simpl in He, Ht, Hu.
    change (run config fsAt ((t, e) :: events) (Running p))
      with (run config fsAt events
              (andThen (advance config fsAt t p) (handleEvent config (fsAt t) t e))).
    rewrite advance_idle.
    2:{ apply due_quiet. intros name d Hd%Hp. lia. }
    cbn [andThen]. rewrite handleEvent_fileChange by done.
    destruct (IH (resetTimer t (fsnotify.Name e) p)) as (p1 & -> & Hr & Hd & Hi);
      [|done|].
    { intros name d. rewrite armed_resetTimer.
      destruct (decide (name = fsnotify.Name e)) as [->|Hne].
      - rewrite lookup_insert_eq. intros [= <-]. lia.
      - rewrite lookup_insert_ne by done. apply Hp. }
    exists p1. split; [done|]. split; [done|]. split; [|done].
    rewrite Hd, armed_resetTimer, dom_insert_L. cbn [map list_to_set snd].
    by rewrite (comm_L (∪) {[fsnotify.Name e]}), <- (assoc_L (∪)).
Qed.

End Paths.

(** X14: the quiet window is kept for each path by itself. When no scan
    fails and no timer is armed, a burst of Create and Write events for
    Markdown files, all read within one quiet window, calls [loadReminders]
    not at all while the events are read, and arms one timer for each
    distinct path; once the timers have fired [loadReminders] has been
    called once for each distinct path of the burst. *)
Theorem burst_reloads_once_per_path `{L : time.Lib} (config : Config)
    (fsAt : Z -> os.FS) (events : list (Z * fsnotify.Event)) (first until : Z)
    (p : Proc) :
  scansSucceed config fsAt ->
  armed (eventTimers p) = ∅ ->
  Forall (fun x => isFileChange (fsAt x.1) x.2 = true
                   /\ first <= x.1 < first + quietWindow
                   /\ x.1 + quietWindow <= until) events ->
  let paths : gset string := list_to_set (map (fun x => fsnotify.Name x.2) events) in
  (exists p1, run config fsAt events (Running p) = Running p1
     /\ rebuilds p1 = rebuilds p
     /\ dom (armed (eventTimers p1)) = paths)
  /\ (exists p', runUntil config fsAt events until (Running p) = Running p'
        /\ rebuilds p' = (rebuilds p + size paths)%nat
        /\ armed (eventTimers p') = ∅).
Proof.
  intros Hscan Ha Hall paths.
  destruct (run_quiet config fsAt first until events p) as (p1 & Hrun & Hr & Hd & Hi);
    [by rewrite Ha|done|].
  rewrite Ha, dom_empty_L, (left_id_L ∅ (∪)) in Hd. fold paths in Hd.
  split; [by exists p1|].
  unfold runUntil. rewrite Hrun. cbn [andThen].
  destruct (advance_all config fsAt until p1 Hscan) as (p' & -> & Hr' & Ha').
  { intros name d Hnd%Hi. lia. }
  exists p'. split; [done|]. split; [|done].
  by rewrite Hr', Hr, <- Hd, size_dom.
Qed.

(** Three writes of two notes within 20 ms: two reloads. *)
Lemma burst_reloads_once_per_path_witness :
  exists p',
    runUntil Sample.config (fun _ => Sample.notes0)
      [(0, Sample.write "/notes/rent.md");
       (Sample.ms 10, Sample.write "/notes/todo.md");
       (Sample.ms 20, Sample.write "/notes/rent.md")]
      (Sample.ms 200) (Running Sample.idle)
    = Running p'
    /\ rebuilds p' = 2%nat.
Proof.
  destruct (proj2 (burst_reloads_once_per_path Sample.config (fun _ => Sample.notes0)
              [(0, Sample.write "/notes/rent.md");
               (Sample.ms 10, Sample.write "/notes/todo.md");
               (Sample.ms 20, Sample.write "/notes/rent.md")]
              0 (Sample.ms 200) Sample.idle
              ltac:(intros t; vm_compute; eauto) eq_refl
              ltac:(repeat constructor; try (vm_compute; reflexivity);
                    unfold quietWindow, Sample.ms; simpl; lia)))
    as (p' & Hrun & Hr & _).
  exists p'. split; [exact Hrun|]. rewrite Hr. vm_compute. reflexivity.
Defined.

(* ===================================================================== *)
(** ** The scheduler: what is delivered, and when *)
(* ===================================================================== *)

Section Deliveries.
Context `{L : time.Lib}.
Variable config : Config.
Variable clock : nat -> time.Time.

(** What the ticks deliver: a reminder of the value of [reminders] at a
    tick, that passes the test at the clock reading made for it. The
    readings are counted over all the reminders visited before. *)
Lemma ticks_deliver (atTicks : list (list Reminder)) : forall (s : Sched) (r : Reminder),
  r ∈ delivered (fold_left (fun s reminders => tick config clock reminders s) atTicks s)
  <-> r ∈ delivered s
      \/ exists j rs i,
           atTicks !! j = Some rs /\ rs !! i = Some r
           /\ matchesNow config clock
                (reads s + length (concat (take j atTicks)) + i)%nat r = true.
Proof.
  induction atTicks as [|rs0 atTicks IH]; intros s r; cbn [fold_left].
  - split; [by left|]. intros [H|(j & rs & i & Hj & _)]; [done|].
    by rewrite lookup_nil in Hj.
  - rewrite IH. unfold tick at 1 2. rewrite fold_visit. cbn [reads delivered].
    rewrite elem_of_app, elem_of_selected. split.
    + intros [[H|(i & Hi & Ht)]|(j & rs & i & Hj & Hi & Ht)].
      * by left.
      * right. exists O, rs0, i. split; [done|]. split; [done|].
        cbn [take concat length]. by rewrite Nat.add_0_r.
      * right. exists (S j), rs, i. split; [done|]. split; [done|].
        cbn [take concat]. rewrite length_app.
        by replace (reads s + (length rs0 + length (concat (take j atTicks))) + i)%nat
          with (reads s + length rs0 + length (concat (take j atTicks)) + i)%nat by lia.
    + intros [H|(j & rs & i & Hj & Hi & Ht)]; [by left; left|].
      destruct j as [|j].
      * injection Hj as <-. left. right. exists i. split; [done|].
        cbn [take concat length] in Ht. by rewrite Nat.add_0_r in Ht.
      * right. exists j, rs, i. split; [done|]. split; [done|].
        cbn [take concat] in Ht. rewrite length_app in Ht.
        by replace (reads s + length rs0 + length (concat (take j atTicks)) + i)%nat
          with (reads s + (length rs0 + length (concat (take j atTicks))) + i)%nat by lia.
Qed.

End Deliveries.

(** X16: [remindLoop] delivers a reminder exactly in two cases: it is in
    the value of [reminders] at the start and is overdue at the clock
    reading made for it in the first loop; or it is in the value of
    [reminders] at some tick and its formatted time is the formatted
    current time at the reading made for it in the loop of that tick (the
    readings are numbered through all the reminders visited). So a
    reminder that is in [reminders] neither at the start nor at any tick,
    one that a reload has taken away before its time for instance, is
    never delivered. *)
Theorem only_current_reminders_are_delivered `{L : time.Lib} (config : Config)
    (clock : nat -> time.Time) (initial : list Reminder)
    (atTicks : list (list Reminder)) (r : Reminder) :
  (r ∈ delivered (remindLoop config clock initial atTicks)
   <-> (exists i, initial !! i = Some r /\ overdue clock i r = true)
       \/ exists j rs i,
            atTicks !! j = Some rs /\ rs !! i = Some r
            /\ matchesNow config clock
                 (length initial + length (concat (take j atTicks)) + i)%nat r = true)
  /\ (r ∉ initial -> (forall rs, rs ∈ atTicks -> r ∉ rs) ->
      r ∉ delivered (remindLoop config clock initial atTicks)).
Proof.
  assert (r ∈ delivered (remindLoop config clock initial atTicks)
   <-> (exists i, initial !! i = Some r /\ overdue clock i r = true)
       \/ exists j rs i,
            atTicks !! j = Some rs /\ rs !! i = Some r
            /\ matchesNow config clock
                 (length initial + length (concat (take j atTicks)) + i)%nat r = true)
    as Hiff.
  { unfold remindLoop, catchUp. rewrite ticks_deliver, fold_visit. cbn [reads delivered].
    rewrite app_nil_l, elem_of_selected. cbn [Nat.add]. done. }
  split; [exact Hiff|].
  intros Hinit Hticks. rewrite Hiff. intros [(i & Hi & _)|(j & rs & i & Hj & Hi & _)].
  - apply Hinit. by eapply list_elem_of_lookup_2.
  - apply (Hticks rs); by eapply list_elem_of_lookup_2.
Qed.

(** A reminder that is loaded at no time is not delivered, though others
    are. *)
Lemma only_current_reminders_are_delivered_witness :
  Sample.callAnn
  ∉ delivered (remindLoop Sample.config Sample.clock [Sample.standUp]
                 [[Sample.standUp; Sample.coffee]; [Sample.coffee]]).
Proof.
  apply (proj2 (only_current_reminders_are_delivered Sample.config Sample.clock
                  [Sample.standUp] [[Sample.standUp; Sample.coffee]; [Sample.coffee]]
                  Sample.callAnn)).
  - intros H%list_elem_of_singleton. apply (f_equal Title) in H. discriminate H.
  - intros rs Hrs Hr.
    assert (Title Sample.callAnn ∈ ["Stand up"; "Coffee"]) as Ht.
    { apply elem_of_cons in Hrs as [->|Hrs%list_elem_of_singleton]; [|subst rs].
      - apply elem_of_cons in Hr as [->|Hr%list_elem_of_singleton]; [|rewrite Hr].
        + apply list_elem_of_here.
        + apply list_elem_of_further, list_elem_of_here.
      - apply list_elem_of_singleton in Hr. rewrite Hr.
        apply list_elem_of_further, list_elem_of_here. }
    apply elem_of_cons in Ht as [Ht|Ht%list_elem_of_singleton]; discriminate Ht.
Defined.
